(** * Queue and inventory simulation: cumulative tables, simulators, tests

    A shallow embedding of the numerical core of the simulation pages
    (cumulative-table construction, random-digit mapping, the single-server,
    multi-server and inventory ledgers, and the chi-square / autocorrelation
    helpers), together with the properties stated about them.

    Number model.  The program computes on JavaScript numbers.  Here
    - probabilities and cumulative probabilities are exact rationals ([Q]),
    - table values, random digits, times, counts and stock levels are
      integers ([Z]),
    - the statistical helpers, which use [Math.sqrt] and [Math.log], are
      stated over the real numbers ([R]).
    IEEE rounding error is outside this model, with one exception: the
    linear congruential generator multiplies numbers whose product passes
    [2 ^ 53] for common parameters, and there the rounding to the nearest
    double is written out. *)

From Stdlib Require Import String DecimalString.
From Stdlib Require Import ZArith QArith Qround Qabs Lqa Lia.
From Stdlib Require Import List Bool.
From Stdlib Require Import Reals Psatz.
Import ListNotations.

Open Scope Z_scope.

(** ** Failing computations

    The pages report an error with [setError(msg); return].  A computation
    that can do so returns [Err msg]; otherwise [Ok] with its result. *)

Inductive result (A : Type) : Type :=
| Ok (a : A)
| Err (msg : string).

Arguments Ok {A} a.
Arguments Err {A} msg.

Definition bind {A B : Type} (m : result A) (k : A -> result B) : result B :=
  match m with
  | Ok a => k a
  | Err msg => Err msg
  end.

Notation "x <- m ;; k" := (bind m (fun x => k))
  (at level 61, m at next level, right associativity).

(** [if (cond) { setError(msg); return }] *)
Definition failIf (cond : bool) (msg : string) : result unit :=
  if cond then Err msg else Ok tt.

(** [setError(`${name}: ${res.error}`)]: an error of [buildCumulative] is
    reported under the name of its table. *)
Definition named (name : string) {A : Type} (m : result A) : result A :=
  match m with
  | Ok a => Ok a
  | Err msg => Err (name ++ ": " ++ msg)
  end.

(** ** Distribution tables (DistributionTable.tsx, InventoryPage) *)

Module Tables.

(** [DistRow = { value: number; probability: number }] *)
Record DistRow : Type := mkDistRow {
  value : Z;
  probability : Q
}.

(** [CumulativeRow]; the fields [value] and [probability] are prefixed
    because [DistRow] already owns these names. *)
Record CumulativeRow : Type := mkCumulativeRow {
  cum_value : Z;
  cum_probability : Q;
  cumulative : Q;
  rangeStart : Z;
  rangeEnd : Z
}.

(** [const tolerance = 0.001] *)
Definition tolerance : Q := 1 # 1000.

(** [Math.round]: nearest integer, halves rounded up. *)
Definition mathRound (x : Q) : Z := Qfloor (x + (1 # 2)).

(** The [dist.map] of [buildCumulative]: [sum] is the running total, each
    produced row records it as [cumulative], ranges still 0.  Returns the rows
    and the final [sum]. *)
Fixpoint accumulate (sum : Q) (dist : list DistRow) : list CumulativeRow * Q :=
  match dist with
  | [] => ([], sum)
  | row :: rest =>
      let sum' := (sum + probability row)%Q in
      let (rows, total) := accumulate sum' rest in
      (mkCumulativeRow (value row) (probability row) sum' 0 0 :: rows, total)
  end.

(** The [rows.forEach] of [buildCumulative]: [previousEnd] is
    [rows[idx - 1].rangeEnd] as already assigned (0 for the first row). *)
Fixpoint assignRanges (scale : Z) (previousEnd : Z) (rows : list CumulativeRow)
  : list CumulativeRow :=
  match rows with
  | [] => []
  | row :: rest =>
      let cumulativeScaled := mathRound (cumulative row * inject_Z scale) in
      let start := previousEnd + 1 in
      let end_ := Z.min scale cumulativeScaled in
      mkCumulativeRow (cum_value row) (cum_probability row) (cumulative row) start end_
        :: assignRanges scale end_ rest
  end.

Definition buildCumulative (dist : list DistRow) (scale : Z)
  : result (list CumulativeRow) :=
  match dist with
  | [] => Err "Add at least one row"
  | _ :: _ =>
      let (rows, sum) := accumulate 0 dist in
      if Qlt_le_dec tolerance (Qabs (sum - 1))
      then Err "Probabilities must sum to 1"
      else Ok (assignRanges scale 0 rows)
  end.

(** The predicate of [ranges.find]. *)
Definition inRange (normalized : Z) (r : CumulativeRow) : bool :=
  (rangeStart r <=? normalized) && (normalized <=? rangeEnd r).

(** [rand === 0 ? scale : rand] *)
Definition normalize (rand scale : Z) : Z :=
  if rand =? 0 then scale else rand.

(** [null] is [None]. *)
Definition mapRandomToValue (rand : Z) (ranges : list CumulativeRow) (scale : Z)
  : option Z :=
  option_map cum_value (find (inRange (normalize rand scale)) ranges).

(** *** Vocabulary of the table claims *)

(** Sum of the probabilities, accumulated left to right as the code does. *)
Definition totalProbability (dist : list DistRow) : Q :=
  fold_left (fun s row => (s + probability row)%Q) dist 0%Q.

(** A distribution as the data model has it: at least one row and
    probabilities summing to 1 within [tolerance]. *)
Definition validDistribution (dist : list DistRow) : Prop :=
  dist <> [] /\ (Qabs (totalProbability dist - 1) <= tolerance)%Q.

(** Number of rows whose range contains [r]. *)
Definition hits (r : Z) (rows : list CumulativeRow) : nat :=
  length (filter (inRange r) rows).

(** Each row starts right after the previous row's end ([prev] for the first). *)
Fixpoint contiguousFrom (prev : Z) (rows : list CumulativeRow) : Prop :=
  match rows with
  | [] => True
  | row :: rest => rangeStart row = prev + 1 /\ contiguousFrom (rangeEnd row) rest
  end.

(** [rangeEnd] of the last row ([prev] when there is none). *)
Fixpoint lastEnd (prev : Z) (rows : list CumulativeRow) : Z :=
  match rows with
  | [] => prev
  | row :: rest => lastEnd (rangeEnd row) rest
  end.

(** The ranges partition [[1, scale]]: no gaps (the first row starts at 1 and
    each row starts one past the previous end), the last row ends at [scale],
    every integer of [[1, scale]] is in exactly one row, and no integer at all
    is in two rows. *)
Record partitions (scale : Z) (rows : list CumulativeRow) : Prop := mkPartitions {
  part_nonempty : rows <> [];
  part_contiguous : contiguousFrom 0 rows;
  part_last : lastEnd 0 rows = scale;
  part_exactly_one : forall r, 1 <= r <= scale -> hits r rows = 1%nat;
  part_no_overlap : forall r, (hits r rows <= 1)%nat
}.

(** Ends never decrease along the rows. *)
Fixpoint monotoneFrom (prev : Z) (rows : list CumulativeRow) : Prop :=
  match rows with
  | [] => True
  | row :: rest => prev <= rangeEnd row /\ monotoneFrom (rangeEnd row) rest
  end.

(** *** Sample distributions *)

(** The demand distribution the inventory page starts with. *)
Definition defaultDemand : list DistRow :=
  [ mkDistRow 0 (10 # 100); mkDistRow 1 (25 # 100); mkDistRow 2 (35 # 100);
    mkDistRow 3 (21 # 100); mkDistRow 4 (9 # 100) ].

(** The lead-time distribution the inventory page starts with. *)
Definition defaultLeadTime : list DistRow :=
  [ mkDistRow 1 (6 # 10); mkDistRow 2 (3 # 10); mkDistRow 3 (1 # 10) ].

(** Probabilities 0.5 and 0.4992: the sum 0.9992 is within tolerance of 1. *)
Definition shortSum : list DistRow :=
  [ mkDistRow 1 (1 # 2); mkDistRow 2 (4992 # 10000) ].

(** Probabilities 0.75, -0.25 and 0.5: the sum is exactly 1. *)
Definition negativeRow : list DistRow :=
  [ mkDistRow 1 (3 # 4); mkDistRow 2 (-1 # 4); mkDistRow 3 (1 # 2) ].

End Tables.

(** ** Loops that may stop with an error *)

(** [for (const a of l) { s = f(s, a) }], leaving at the first error. *)
Fixpoint forEachM {A St : Type} (f : St -> A -> result St) (l : list A) (s : St)
  : result St :=
  match l with
  | [] => Ok s
  | a :: rest => s' <- f s a ;; forEachM f rest s'
  end.

(** ** Single-server queue (SingleServerPage) *)

Module SingleServer.

Record SimulationRow : Type := mkSimulationRow {
  customer : Z;
  randArrival : Z;
  interarrival : Z;
  arrival : Z;
  randService : Z;
  service : Z;
  serviceStart : Z;
  serviceEnd : Z;
  waiting : Z;
  idle : Z;
  timeInSystem : Z
}.

(** This page's copy of [buildCumulative] is the one above with the scale
    written as the literal 100. *)
Definition buildCumulative (dist : list Tables.DistRow)
  : result (list Tables.CumulativeRow) :=
  Tables.buildCumulative dist 100.

(** Likewise [mapRandomToValue], with [rand === 0 ? 100 : rand]. *)
Definition mapRandomToValue (rand : Z) (ranges : list Tables.CumulativeRow)
  : option Z :=
  Tables.mapRandomToValue rand ranges 100.

(** [parseDigits], applied to the numbers that [split], [filter(Boolean)] and
    [map(Number)] produce and that are finite: 0 becomes 100. *)
Definition parseDigits (numbers : list Z) : list Z :=
  map (fun d => if d =? 0 then 100 else d) numbers.

(** Reading [nums[i]] gives [undefined] past the end; [mapRandomToValue] of
    [undefined] finds no row and yields [null]. *)
Definition mapDigit (d : option Z) (ranges : list Tables.CumulativeRow)
  : option Z :=
  match d with
  | Some rand => mapRandomToValue rand ranges
  | None => None
  end.

Definition unmapped : string :=
  "Random digit could not be mapped to a time. Check tables.".

(** The body of the [for] loop for customer index [i]; [table] holds the rows
    pushed so far.  Reading a field of a missing [table[i - 1]] is a
    TypeError in JavaScript. *)
Definition simulateCustomer
    (arrivalRows serviceRows : list Tables.CumulativeRow)
    (arrivalNums serviceNums : list Z)
    (table : list SimulationRow) (i : nat) : result (list SimulationRow) :=
  let customer := Z.of_nat i + 1 in
  let randArrival := if (i =? 0)%nat then Some 0 else nth_error arrivalNums (i - 1) in
  let randService := nth_error serviceNums i in
  let interarrival := if (i =? 0)%nat then Some 0 else mapDigit randArrival arrivalRows in
  let serviceTime := mapDigit randService serviceRows in
  match interarrival, serviceTime, randArrival, randService with
  | Some interarrival, Some serviceTime, Some randArrival, Some randService =>
      match (if (i =? 0)%nat then Some (0, 0) else
               option_map (fun prev => (arrival prev + interarrival, serviceEnd prev))
                          (nth_error table (i - 1))) with
      | None => Err "TypeError: table[i - 1] is undefined"
      | Some (arrivalTime, previousServiceEnd) =>
          let serviceStart := Z.max arrivalTime previousServiceEnd in
          let waiting := serviceStart - arrivalTime in
          let idle := serviceStart - previousServiceEnd in
          let serviceEnd := serviceStart + serviceTime in
          let timeInSystem := waiting + serviceTime in
          Ok (table ++ [mkSimulationRow customer randArrival interarrival arrivalTime
                          randService serviceTime serviceStart serviceEnd
                          waiting idle timeInSystem])
      end
  | _, _, _, _ => Err unmapped
  end.

(** [runSimulation]: [count] is [Math.floor(customerCount)]; the result is the
    ledger handed to [setSimRows]. *)
Definition runSimulation
    (arrival service : list Tables.DistRow)
    (arrivalDigits serviceDigits : list Z) (count : Z)
  : result (list SimulationRow) :=
  _ <- failIf (count <? 1) "Number of customers must be at least 1" ;;
  arrivalRows <- named "Arrival" (buildCumulative arrival) ;;
  serviceRows <- named "Service" (buildCumulative service) ;;
  let arrivalNums := parseDigits arrivalDigits in
  let serviceNums := parseDigits serviceDigits in
  _ <- failIf (Z.of_nat (length arrivalNums) <? count - 1)
         "Not enough arrival random digits for the requested customers" ;;
  _ <- failIf (Z.of_nat (length serviceNums) <? count)
         "Not enough service random digits for the requested customers" ;;
  _ <- failIf (existsb (fun d => (d <? 1) || (100 <? d)) (arrivalNums ++ serviceNums))
         "Random digits must be between 01 and 00 (i.e., 1 to 100)" ;;
  forEachM (simulateCustomer arrivalRows serviceRows arrivalNums serviceNums)
           (seq 0 (Z.to_nat count)) [].

(** *** The ledger recurrence, as the claim words it *)

(** Row [i] of [table] obeys the recurrence, given the parsed digit streams
    and the two tables. *)
Definition obeysRecurrence
    (arrivalRows serviceRows : list Tables.CumulativeRow)
    (arrivalNums serviceNums : list Z)
    (table : list SimulationRow) (i : nat) (row : SimulationRow) : Prop :=
  match i with
  | O =>
      interarrival row = 0 /\ arrival row = 0 /\
      serviceStart row = Z.max (arrival row) 0 /\
      idle row = serviceStart row - 0
  | S j =>
      exists prev digit,
        nth_error table j = Some prev /\
        nth_error arrivalNums j = Some digit /\
        mapRandomToValue digit arrivalRows = Some (interarrival row) /\
        arrival row = arrival prev + interarrival row /\
        serviceStart row = Z.max (arrival row) (serviceEnd prev) /\
        idle row = serviceStart row - serviceEnd prev
  end /\
  (exists digit,
     nth_error serviceNums i = Some digit /\
     mapRandomToValue digit serviceRows = Some (service row)) /\
  waiting row = serviceStart row - arrival row /\
  serviceEnd row = serviceStart row + service row /\
  timeInSystem row = waiting row + service row.

End SingleServer.

(** ** Two-server queue (MultiServerPage) *)

Module MultiServer.

(** [1 | 2] *)
Inductive Server : Type := Server1 | Server2.

Definition Server_eqb (a b : Server) : bool :=
  match a, b with
  | Server1, Server1 | Server2, Server2 => true
  | _, _ => false
  end.

Record SimulationRow : Type := mkSimulationRow {
  customer : Z;
  randArrival : Z;
  interarrival : Z;
  arrival : Z;
  randService : Z;
  service1 : option Z;
  serviceStart1 : option Z;
  serviceEnd1 : option Z;
  service2 : option Z;
  serviceStart2 : option Z;
  serviceEnd2 : option Z;
  waiting : Z;
  idle1 : Z;
  idle2 : Z;
  timeInSystem : Z;
  serverUsed : option Server
}.

(** This page's copies of [buildCumulative] and [mapRandomToValue] have the
    scale written as the literal 100. *)
Definition buildCumulative (dist : list Tables.DistRow)
  : result (list Tables.CumulativeRow) :=
  Tables.buildCumulative dist 100.

Definition mapRandomToValue (rand : Z) (ranges : list Tables.CumulativeRow)
  : option Z :=
  Tables.mapRandomToValue rand ranges 100.

Definition parseDigits (numbers : list Z) : list Z :=
  map (fun d => if d =? 0 then 100 else d) numbers.

Definition mapDigit (d : option Z) (ranges : list Tables.CumulativeRow)
  : option Z :=
  match d with
  | Some rand => mapRandomToValue rand ranges
  | None => None
  end.

Definition unmapped : string :=
  "Random digit could not be mapped to a time. Check tables.".

(** What the loop carries from one customer to the next. *)
Record State : Type := mkState {
  table : list SimulationRow;
  server1End : Z;
  server2End : Z
}.

(** The [let] variables the branch on server availability assigns. *)
Record Assignment : Type := mkAssignment {
  a_serverUsed : Server;
  a_serviceTime : Z;
  a_serviceStart : Z;
  a_serviceEnd : Z;
  a_waiting : Z;
  a_idle1 : Z;
  a_idle2 : Z;
  a_server1End : Z;
  a_server2End : Z
}.

(** The [if / else if / else] that picks the server. *)
Definition assign (priorityServer : Server) (server1End server2End : Z)
    (arrivalTime serviceTime1 serviceTime2 : Z) : Assignment :=
  let server1Available := server1End <=? arrivalTime in
  let server2Available := server2End <=? arrivalTime in
  let prevServer1End := server1End in
  let prevServer2End := server2End in
  if server1Available && server2Available then
    if Server_eqb priorityServer Server1 then
      mkAssignment Server1 serviceTime1 arrivalTime (arrivalTime + serviceTime1) 0
        (Z.max 0 (arrivalTime - prevServer1End)) 0
        (arrivalTime + serviceTime1) server2End
    else
      mkAssignment Server2 serviceTime2 arrivalTime (arrivalTime + serviceTime2) 0
        0 (Z.max 0 (arrivalTime - prevServer2End))
        server1End (arrivalTime + serviceTime2)
  else if server1Available then
    mkAssignment Server1 serviceTime1 arrivalTime (arrivalTime + serviceTime1) 0
      (Z.max 0 (arrivalTime - prevServer1End)) 0
      (arrivalTime + serviceTime1) server2End
  else if server2Available then
    mkAssignment Server2 serviceTime2 arrivalTime (arrivalTime + serviceTime2) 0
      0 (Z.max 0 (arrivalTime - prevServer2End))
      server1End (arrivalTime + serviceTime2)
  else if server1End <=? server2End then
    mkAssignment Server1 serviceTime1 server1End (server1End + serviceTime1)
      (server1End - arrivalTime) 0 0
      (server1End + serviceTime1) server2End
  else
    mkAssignment Server2 serviceTime2 server2End (server2End + serviceTime2)
      (server2End - arrivalTime) 0 0
      server1End (server2End + serviceTime2).

(** [serverUsed === s ? x : null] *)
Definition onlyFor (s used : Server) (x : Z) : option Z :=
  if Server_eqb used s then Some x else None.

(** The body of the [for] loop for customer index [i]. *)
Definition simulateCustomer (priorityServer : Server)
    (arrivalRows service1Rows service2Rows : list Tables.CumulativeRow)
    (arrivalNums serviceNums : list Z)
    (st : State) (i : nat) : result State :=
  let customer := Z.of_nat i + 1 in
  let randArrival := if (i =? 0)%nat then Some 0 else nth_error arrivalNums (i - 1) in
  let randService := nth_error serviceNums i in
  let interarrival := if (i =? 0)%nat then Some 0 else mapDigit randArrival arrivalRows in
  let serviceTime1 := mapDigit randService service1Rows in
  let serviceTime2 := mapDigit randService service2Rows in
  match interarrival, serviceTime1, serviceTime2, randArrival, randService with
  | Some interarrival, Some serviceTime1, Some serviceTime2,
    Some randArrival, Some randService =>
      match (if (i =? 0)%nat then Some 0 else
               option_map (fun prev => arrival prev + interarrival)
                          (nth_error (table st) (i - 1))) with
      | None => Err "TypeError: table[i - 1] is undefined"
      | Some arrivalTime =>
          let a := assign priorityServer (server1End st) (server2End st)
                     arrivalTime serviceTime1 serviceTime2 in
          let timeInSystem := a_waiting a + a_serviceTime a in
          let used := a_serverUsed a in
          Ok (mkState
                (table st ++
                 [mkSimulationRow customer randArrival interarrival arrivalTime randService
                    (onlyFor Server1 used serviceTime1)
                    (onlyFor Server1 used (a_serviceStart a))
                    (onlyFor Server1 used (a_serviceEnd a))
                    (onlyFor Server2 used serviceTime2)
                    (onlyFor Server2 used (a_serviceStart a))
                    (onlyFor Server2 used (a_serviceEnd a))
                    (a_waiting a) (a_idle1 a) (a_idle2 a) timeInSystem (Some used)])
                (a_server1End a) (a_server2End a))
      end
  | _, _, _, _, _ => Err unmapped
  end.

(** [runSimulation]; the result is the ledger handed to [setSimRows]. *)
Definition runSimulation (priorityServer : Server)
    (arrival service1 service2 : list Tables.DistRow)
    (arrivalDigits serviceDigits : list Z) (count : Z)
  : result (list SimulationRow) :=
  _ <- failIf (count <? 1) "Number of customers must be at least 1" ;;
  arrivalRows <- named "Arrival" (buildCumulative arrival) ;;
  service1Rows <- named "Server 1" (buildCumulative service1) ;;
  service2Rows <- named "Server 2" (buildCumulative service2) ;;
  let arrivalNums := parseDigits arrivalDigits in
  let serviceNums := parseDigits serviceDigits in
  _ <- failIf (Z.of_nat (length arrivalNums) <? count - 1)
         "Not enough arrival random digits for the requested customers" ;;
  _ <- failIf (Z.of_nat (length serviceNums) <? count)
         "Not enough service random digits for the requested customers" ;;
  _ <- failIf (existsb (fun d => (d <? 1) || (100 <? d)) (arrivalNums ++ serviceNums))
         "Random digits must be between 01 and 00 (i.e., 1 to 100)" ;;
  st <- forEachM (simulateCustomer priorityServer arrivalRows service1Rows service2Rows
                    arrivalNums serviceNums)
                 (seq 0 (Z.to_nat count)) (mkState [] 0 0) ;;
  Ok (table st).

(** *** The assignment rule, as the claim words it *)

(** The end of service of [row] on server [s], when [s] served it. *)
Definition endOn (s : Server) (row : SimulationRow) : option Z :=
  match s with
  | Server1 => serviceEnd1 row
  | Server2 => serviceEnd2 row
  end.

(** The time until which server [s] is busy after the customers in [rows]:
    the end of its latest service, 0 if it has served nobody. *)
Definition busyUntil (s : Server) (rows : list SimulationRow) : Z :=
  fold_left (fun busy row => match endOn s row with Some e => e | None => busy end)
            rows 0.

(** The start of service of [row], read on the server that served it. *)
Definition serviceStartOf (row : SimulationRow) : option Z :=
  match serverUsed row with
  | Some Server1 => serviceStart1 row
  | Some Server2 => serviceStart2 row
  | None => None
  end.

(** [row] was assigned by the rule, the servers being busy until [busy1] and
    [busy2] when its customer arrives. *)
Definition followsRule (priorityServer : Server) (busy1 busy2 : Z)
    (row : SimulationRow) : Prop :=
  let free1 := busy1 <= arrival row in
  let free2 := busy2 <= arrival row in
  (free1 /\ free2 ->
     serverUsed row = Some priorityServer /\ waiting row = 0 /\
     serviceStartOf row = Some (arrival row)) /\
  (free1 /\ ~ free2 ->
     serverUsed row = Some Server1 /\ waiting row = 0 /\
     serviceStartOf row = Some (arrival row)) /\
  (~ free1 /\ free2 ->
     serverUsed row = Some Server2 /\ waiting row = 0 /\
     serviceStartOf row = Some (arrival row)) /\
  (~ free1 /\ ~ free2 ->
     serverUsed row = Some (if busy1 <=? busy2 then Server1 else Server2) /\
     serviceStartOf row = Some (Z.min busy1 busy2) /\
     waiting row = Z.min busy1 busy2 - arrival row).

(** Every row was assigned by the rule, the busy-until times being those of
    the rows before it. *)
Definition ledgerFollowsRule (priorityServer : Server) (rows : list SimulationRow)
  : Prop :=
  forall i row,
    nth_error rows i = Some row ->
    followsRule priorityServer
      (busyUntil Server1 (firstn i rows)) (busyUntil Server2 (firstn i rows)) row.

(** The loop invariant: the two clocks are the busy-until times of the ledger
    so far, and the ledger follows the rule. *)
Definition invariant (priorityServer : Server) (k : nat) (st : State) : Prop :=
  length (table st) = k /\
  server1End st = busyUntil Server1 (table st) /\
  server2End st = busyUntil Server2 (table st) /\
  ledgerFollowsRule priorityServer (table st).

(** *** Sample distributions: the ones the page starts with *)

Definition defaultArrival : list Tables.DistRow :=
  [ Tables.mkDistRow 1 (25 # 100); Tables.mkDistRow 2 (35 # 100);
    Tables.mkDistRow 3 (4 # 10) ].

Definition defaultService : list Tables.DistRow :=
  [ Tables.mkDistRow 2 (3 # 10); Tables.mkDistRow 3 (5 # 10);
    Tables.mkDistRow 4 (2 # 10) ].

End MultiServer.

(** ** Periodic-review inventory (InventoryPage) *)

Module Inventory.

Record SimulationRow : Type := mkSimulationRow {
  cycle : Z;
  day : Z;
  beginningInventory : Z;
  randDemand : Z;
  demand : Z;
  endingInventory : Z;
  shortage : Z;
  orderQuantity : option Z;
  randLeadTime : option Z;
  daysUntilArrival : option Z
}.

(** The elements of [pendingOrders]. *)
Record PendingOrder : Type := mkPendingOrder {
  quantity : Z;
  arrivalCycle : Z;
  arrivalDay : Z
}.

(** A number inside a template string. *)
Definition showZ (z : Z) : string := NilZero.string_of_int (Z.to_int z).

(** [Math.ceil(a / b)] for integers [a] and [b > 0]. *)
Definition mathCeilDiv (a b : Z) : Z := - ((- a) / b).

(** [Math.ceil] of a rational. *)
Definition mathCeil (x : Q) : Z := Qceiling x.

(** [Math.min(...l)] of a non-empty list ([Infinity], unused here, for the
    empty one). *)
Definition mathMin (l : list Z) : Z :=
  match l with
  | [] => 0
  | x :: rest => fold_left Z.min rest x
  end.

(** [rows.reduce((sum, row) => sum + row.value * row.probability, 0)] *)
Definition expectedValue (rows : list Tables.DistRow) : Q :=
  fold_left (fun sum row => (sum + inject_Z (Tables.value row) * Tables.probability row)%Q)
            rows 0%Q.

(** The memoised [reorderPoint]. *)
Definition reorderPoint (demand leadTime : list Tables.DistRow) : Z :=
  match demand, leadTime with
  | [], _ | _, [] => 3
  | _, _ => mathCeil (expectedValue demand * expectedValue leadTime) + 1
  end.

(** [parseDigits(value, scale)], applied to the finite numbers that [split],
    [filter(Boolean)] and [map(Number)] produce: 0 becomes [scale], and only
    digits from 1 to [scale] are kept. *)
Definition parseDigits (numbers : list Z) (scale : Z) : list Z :=
  filter (fun d => (1 <=? d) && (d <=? scale))
         (map (fun d => if d =? 0 then scale else d) numbers).

(** What the day loop reads but never writes. *)
Record Config : Type := mkConfig {
  days : Z;
  invLimit : Z;
  demandRows : list Tables.CumulativeRow;
  leadTimeRows : list Tables.CumulativeRow;
  demandNums : list Z;
  leadTimeNums : list Z
}.

(** What the day loop carries from one day to the next. *)
Record State : Type := mkState {
  table : list SimulationRow;
  inventory : Z;
  pendingOrders : list PendingOrder;
  demandIndex : nat;
  leadTimeIndex : nat
}.

(** [order.arrivalCycle === cycle && order.arrivalDay === day] *)
Definition arrivesOn (cycle day : Z) (order : PendingOrder) : bool :=
  (arrivalCycle order =? cycle) && (arrivalDay order =? day).

(** The pending orders left once today's arrivals are spliced out. *)
Definition stillPending (cycle day : Z) (orders : list PendingOrder)
  : list PendingOrder :=
  filter (fun order => negb (arrivesOn cycle day order)) orders.

(** The pre-seeded order: [if (initOrderQty > 0 && initOrderLead > 0) push]. *)
Definition initialOrders (initOrderQty initOrderLead : Z) : list PendingOrder :=
  if (0 <? initOrderQty) && (0 <? initOrderLead)
  then [mkPendingOrder initOrderQty 1 (initOrderLead + 1)]
  else [].

(** The state before day 1 of cycle 1. *)
Definition initialState (initInv initOrderQty initOrderLead : Z) : State :=
  mkState [] initInv (initialOrders initOrderQty initOrderLead) 0 0.

(** [arrivalsToday]: the quantities of the orders arriving on ([cycle], [day]). *)
Definition arrivalsOn (cycle day : Z) (orders : list PendingOrder) : Z :=
  fold_left (fun total order => total + quantity order)
            (filter (arrivesOn cycle day) orders) 0.

(** [table.length > 0 ? table[table.length - 1].shortage : 0] *)
Definition previousShortage (table : list SimulationRow) : Z :=
  match table with
  | [] => 0
  | _ :: _ => shortage (last table (mkSimulationRow 0 0 0 0 0 0 0 None None None))
  end.

(** The display value [daysUntilNextArrival] before the review. *)
Definition daysUntilNext (cycle day : Z) (pending : list PendingOrder) : option Z :=
  if (0 <? length pending)%nat then
    let ordersThisCycle := filter (fun o => arrivalCycle o =? cycle) pending in
    if (0 <? length ordersThisCycle)%nat
    then Some (Z.max 0 (mathMin (map arrivalDay ordersThisCycle) - day - 1))
    else None
  else None.

(** Step 1 of the day: pay the backlog out of the stock on hand.  Returns the
    stock and the backlog left. *)
Definition settleBacklog (inventory accumulatedShortage : Z) : Z * Z :=
  if 0 <? accumulatedShortage then
    if accumulatedShortage <=? inventory
    then (inventory - accumulatedShortage, 0)
    else (0, accumulatedShortage - inventory)
  else (inventory, accumulatedShortage).

(** Step 2 of the day: serve today's demand.  Returns the ending inventory
    and the backlog. *)
Definition serveDemand (inventory accumulatedShortage demandToday : Z) : Z * Z :=
  if demandToday <=? inventory
  then (inventory - demandToday, accumulatedShortage)
  else (0, accumulatedShortage + (demandToday - inventory)).

(** Where an order placed at the end of day ([cycle], [day]) with lead time
    [leadTimeDays] arrives. *)
Definition orderArrival (days cycle day leadTimeDays : Z) : Z * Z :=
  let currentAbsDay := (cycle - 1) * days + day in
  let arrivalAbsDay := currentAbsDay + leadTimeDays + 1 in
  let arrivalCycle := mathCeilDiv arrivalAbsDay days in
  let arrivalDay := Z.rem arrivalAbsDay days in
  (arrivalCycle, if arrivalDay =? 0 then days else arrivalDay).

(** What the review block assigns. *)
Record Review : Type := mkReview {
  r_orderQuantity : option Z;
  r_randLeadTime : option Z;
  r_pendingOrders : list PendingOrder;
  r_leadTimeIndex : nat;
  r_daysUntilArrival : option Z
}.

(** The review block, [if (day === days) { ... }].  Reading
    [leadTimeNums[leadTimeIndex]] succeeds exactly when
    [leadTimeIndex < leadTimeNums.length]. *)
Definition review (cfg : Config) (cycle day endingInventory shortage : Z)
    (pending : list PendingOrder) (leadTimeIndex : nat)
    (daysUntilNextArrival : option Z) : result Review :=
  if day =? days cfg then
    let orderQuantity := invLimit cfg - endingInventory + shortage in
    if 0 <? orderQuantity then
      match nth_error (leadTimeNums cfg) leadTimeIndex with
      | Some randLeadTime =>
          match Tables.mapRandomToValue randLeadTime (leadTimeRows cfg) 10 with
          | None =>
              Err ("Lead time random digit " ++ showZ randLeadTime
                   ++ " could not be mapped. Check tables.")
          | Some leadTimeDays =>
              let (arrivalCycle, arrivalDay) :=
                orderArrival (days cfg) cycle day leadTimeDays in
              Ok (mkReview (Some orderQuantity) (Some randLeadTime)
                    (pending ++ [mkPendingOrder orderQuantity arrivalCycle arrivalDay])
                    (S leadTimeIndex) (Some leadTimeDays))
          end
      | None =>
          Ok (mkReview (Some orderQuantity) None pending leadTimeIndex
                daysUntilNextArrival)
      end
    else
      Ok (mkReview (Some orderQuantity) None pending leadTimeIndex daysUntilNextArrival)
  else
    Ok (mkReview None None pending leadTimeIndex daysUntilNextArrival).

(** The body of the two nested [for] loops for ([cycle], [day]).  Past the end
    of [demandNums] the digit is [undefined], which no row contains. *)
Definition simulateDay (cfg : Config) (st : State) (today : Z * Z) : result State :=
  let (cycle, day) := today in
  let arrivalsToday := arrivalsOn cycle day (pendingOrders st) in
  let pending := stillPending cycle day (pendingOrders st) in
  let inventory := inventory st + arrivalsToday in
  let beginningInventoryForDisplay := inventory in
  let daysUntilNextArrival := daysUntilNext cycle day pending in
  match nth_error (demandNums cfg) (demandIndex st) with
  | None => Err "Demand random digit undefined could not be mapped. Check tables."
  | Some randDemand =>
      match Tables.mapRandomToValue randDemand (demandRows cfg) 100 with
      | None =>
          Err ("Demand random digit " ++ showZ randDemand
               ++ " could not be mapped. Check tables.")
      | Some demandToday =>
          let accumulatedShortage := previousShortage (table st) in
          let (inventory, accumulatedShortage) :=
            settleBacklog inventory accumulatedShortage in
          let (endingInventory, accumulatedShortage) :=
            serveDemand inventory accumulatedShortage demandToday in
          let shortage := accumulatedShortage in
          r <- review cfg cycle day endingInventory shortage pending
                 (leadTimeIndex st) daysUntilNextArrival ;;
          Ok (mkState
                (table st ++
                 [mkSimulationRow cycle day beginningInventoryForDisplay randDemand
                    demandToday endingInventory shortage
                    (r_orderQuantity r) (r_randLeadTime r) (r_daysUntilArrival r)])
                endingInventory
                (r_pendingOrders r)
                (S (demandIndex st))
                (r_leadTimeIndex r))
      end
  end.

(** The integers [1 .. n], the values of a loop counter. *)
Definition upTo (n : Z) : list Z := map Z.of_nat (seq 1 (Z.to_nat n)).

(** The days in the order the nested loops visit them. *)
Definition schedule (cycles days : Z) : list (Z * Z) :=
  flat_map (fun cycle => map (fun day => (cycle, day)) (upTo days)) (upTo cycles).

(** The inputs of a run, each number already passed through [Math.floor]. *)
Record Inputs : Type := mkInputs {
  demand_dist : list Tables.DistRow;
  leadTime_dist : list Tables.DistRow;
  numCycles : Z;
  daysPerCycle : Z;
  initialInventory : Z;
  inventoryLimit : Z;
  initialOrderQuantity : Z;
  initialOrderLeadTime : Z;
  demandDigits : list Z;
  leadTimeDigits : list Z
}.

(** The checks of [runSimulation] that come before the ledger exists; they
    yield what the day loop reads. *)
Definition prepare (inp : Inputs) : result Config :=
  let cycles := numCycles inp in
  let days := daysPerCycle inp in
  let initInv := initialInventory inp in
  let invLimit := inventoryLimit inp in
  let initOrderQty := initialOrderQuantity inp in
  let initOrderLead := initialOrderLeadTime inp in
  let reorder := reorderPoint (demand_dist inp) (leadTime_dist inp) in
  _ <- failIf ((cycles <? 1) || (days <? 1))
         "Number of cycles and days per cycle must be at least 1" ;;
  _ <- failIf (initInv <? 0) "Initial inventory must be non-negative" ;;
  _ <- failIf (invLimit <=? reorder)
         "Inventory limit must be greater than reorder point" ;;
  _ <- failIf (initOrderQty <? 0) "Initial order quantity must be non-negative" ;;
  _ <- failIf (initOrderLead <? 0) "Initial order lead time must be non-negative" ;;
  demandRows <- named "Demand" (Tables.buildCumulative (demand_dist inp) 100) ;;
  leadTimeRows <- named "Lead Time" (Tables.buildCumulative (leadTime_dist inp) 10) ;;
  let demandNums := parseDigits (demandDigits inp) 100 in
  let leadTimeNums := parseDigits (leadTimeDigits inp) 10 in
  let totalDays := cycles * days in
  _ <- failIf (Z.of_nat (length demandNums) <? totalDays)
         ("Not enough demand random digits. Need " ++ showZ totalDays
          ++ ", got " ++ showZ (Z.of_nat (length demandNums))) ;;
  _ <- failIf (existsb (fun d => (d <? 1) || (100 <? d)) demandNums)
         "Demand random digits must be between 01 and 00 (i.e., 1 to 100)" ;;
  _ <- failIf (existsb (fun d => (d <? 1) || (10 <? d)) leadTimeNums)
         "Lead time random digits must be between 0 and 9 (i.e., 1 to 10 after conversion)" ;;
  Ok (mkConfig days invLimit demandRows leadTimeRows demandNums leadTimeNums).

(** The two nested loops, from the state [st]. *)
Definition simulateCycles (cfg : Config) (cycles : Z) (st : State) : result State :=
  forEachM
    (fun st cycle =>
       forEachM (fun st day => simulateDay cfg st (cycle, day)) (upTo (days cfg)) st)
    (upTo cycles) st.

(** [runSimulation]; the result is the ledger handed to [setSimRows]. *)
Definition runSimulation (inp : Inputs) : result (list SimulationRow) :=
  cfg <- prepare inp ;;
  st <- simulateCycles cfg (numCycles inp)
          (initialState (initialInventory inp) (initialOrderQuantity inp)
             (initialOrderLeadTime inp)) ;;
  Ok (table st).

(** *** Vocabulary of the inventory claims *)

(** The scalar inputs and the two distributions pass the checks of
    [runSimulation]. *)
Definition validParameters (inp : Inputs) : Prop :=
  1 <= numCycles inp /\ 1 <= daysPerCycle inp /\
  0 <= initialInventory inp /\
  reorderPoint (demand_dist inp) (leadTime_dist inp) < inventoryLimit inp /\
  0 <= initialOrderQuantity inp /\ 0 <= initialOrderLeadTime inp /\
  Tables.validDistribution (demand_dist inp) /\
  Tables.validDistribution (leadTime_dist inp).

(** There is a demand digit for every day of the horizon. *)
Definition enoughDemandDigits (inp : Inputs) : Prop :=
  numCycles inp * daysPerCycle inp
  <= Z.of_nat (length (parseDigits (demandDigits inp) 100)).

(** The configuration the checks hand to the day loop. *)
Definition configOf (inp : Inputs)
    (demandRows leadTimeRows : list Tables.CumulativeRow) : Config :=
  mkConfig (daysPerCycle inp) (inventoryLimit inp) demandRows leadTimeRows
    (parseDigits (demandDigits inp) 100) (parseDigits (leadTimeDigits inp) 10).

(** The state from which the day loop starts. *)
Definition startOf (inp : Inputs) : State :=
  initialState (initialInventory inp) (initialOrderQuantity inp)
    (initialOrderLeadTime inp).

(** The state of the run before its [n]-th day (counted from 0). *)
Definition stateBefore (cfg : Config) (inp : Inputs) (n : nat) : result State :=
  forEachM (simulateDay cfg)
           (firstn n (schedule (numCycles inp) (daysPerCycle inp))) (startOf inp).

(** A day cannot end with both stock on hand and a backlog. *)
Definition stockOrBacklog (row : SimulationRow) : Prop :=
  endingInventory row = 0 \/ shortage row = 0.

(** *** Sample runs *)

(** The run the page starts with. *)
Definition defaultInputs : Inputs :=
  mkInputs Tables.defaultDemand Tables.defaultLeadTime 5 5 3 11 8 2
    [24; 35; 65; 81; 54; 3; 87; 27; 73; 70; 47; 45; 48; 17; 9; 42; 87; 26; 36; 40;
     7; 63; 19; 88; 12]
    [5; 0; 3; 4; 8].

(** The same run with a single lead-time digit: the reviews of cycles 2 to 5
    find the stream exhausted. *)
Definition oneLeadDigit : Inputs :=
  mkInputs Tables.defaultDemand Tables.defaultLeadTime 5 5 3 11 8 2
    (demandDigits defaultInputs) [5].

(** The same run with four demand digits too few. *)
Definition shortDemand : Inputs :=
  mkInputs Tables.defaultDemand Tables.defaultLeadTime 5 5 3 11 8 2
    (firstn 21 (demandDigits defaultInputs)) [5; 0; 3; 4; 8].

(** An initial order of 8 units with lead time 0. *)
Definition zeroLeadOrder : Inputs :=
  mkInputs Tables.defaultDemand Tables.defaultLeadTime 5 5 3 11 8 0
    (demandDigits defaultInputs) [5; 0; 3; 4; 8].

(** A demand table with a negative value: 3 or -2, each with probability 0.5;
    one cycle of two days, nothing in stock. *)
Definition negativeDemand : Inputs :=
  mkInputs [Tables.mkDistRow 3 (1 # 2); Tables.mkDistRow (-2) (1 # 2)]
    Tables.defaultLeadTime 1 2 0 11 0 0 [10; 90] [5].

(** The page's run with a lead-time table whose only value is negative:
    every order is given the lead time -7. *)
Definition negativeLeadTime : Inputs :=
  mkInputs Tables.defaultDemand [Tables.mkDistRow (-7) 1] 5 5 3 11 8 2
    (demandDigits defaultInputs) [5; 0; 3; 4; 8].

End Inventory.

(** ** Tests of random numbers (utils/statistics) *)

Module Statistics.

Local Open Scope R_scope.

(** Comparisons of numbers, as booleans. *)
Definition Rltb (x y : R) : bool := if Rlt_dec x y then true else false.
Definition Rleb (x y : R) : bool := if Rle_dec x y then true else false.
Definition Rgeb (x y : R) : bool := if Rge_dec x y then true else false.

(** *** Inverse cumulative normal distribution *)

(** The coefficients declared at the top of [getNormInverse]. *)
Definition a1 : R := -39.69683028665376.
Definition a2 : R := 220.9460984245205.
Definition a3 : R := -275.9285104469687.
Definition a4 : R := 138.3577518672690.
Definition a5 : R := -30.66479806614716.
Definition a6 : R := 2.506628277459239.

Definition b1 : R := -54.47609879822406.
Definition b2 : R := 161.5858368580409.
Definition b3 : R := -155.6989798598866.
Definition b4 : R := 66.80131188771972.
Definition b5 : R := -13.28068155288572.

Definition c1 : R := -0.007784894002430293.
Definition c2 : R := -0.3223964580411365.
Definition c3 : R := -2.400758277161838.
Definition c4 : R := -2.549732539343734.
Definition c5 : R := 4.374664141464968.
Definition c6 : R := 2.938163982698783.

Definition d1 : R := 0.007784695709041462.
Definition d2 : R := 0.3224671290700398.
Definition d3 : R := 2.445134137142996.
Definition d4 : R := 3.754408661907416.

Definition p_low : R := 0.02425.
Definition p_high : R := 1 - p_low.

Definition getNormInverse (p : R) : R :=
  if Rlt_dec p p_low then
    let q := sqrt (-2 * ln p) in
    (((((c1 * q + c2) * q + c3) * q + c4) * q + c5) * q + c6) /
    ((((d1 * q + d2) * q + d3) * q + d4) * q + 1)
  else if Rgt_dec p p_high then
    let q := sqrt (-2 * ln (1 - p)) in
    - (((((c1 * q + c2) * q + c3) * q + c4) * q + c5) * q + c6) /
    ((((d1 * q + d2) * q + d3) * q + d4) * q + 1)
  else
    let q := p - 0.5 in
    let r := q * q in
    (((((a1 * r + a2) * r + a3) * r + a4) * r + a5) * r + a6) * q /
    (((((b1 * r + b2) * r + b3) * r + b4) * r + b5) * r + 1).

(** *** Chi-square test *)

Definition getChiSquareCriticalValue (df : Z) (alpha : R) : R :=
  if (df <? 1)%Z then 0 else
  let p := 1 - alpha in
  if (df =? 1)%Z then
    let z := getNormInverse (1 - alpha / 2) in
    z * z
  else if (df =? 2)%Z then
    -2 * ln alpha
  else
    let z_p := getNormInverse p in
    let term := 1 - (2 / (9 * IZR df)) + z_p * sqrt (2 / (9 * IZR df)) in
    IZR df * term ^ 3.

(** An element of [intervals]. *)
Record Interval : Type := mkInterval {
  i_start : R;
  i_end : R;
  oi : Z;
  ei : R;
  chiPart : R
}.

Record ChiSquareResult : Type := mkChiSquareResult {
  intervals : list Interval;
  chiStat : R;
  criticalValue : R;
  dof : Z;
  isUniform : bool;
  chi_N : Z;
  chi_alpha : R;
  chi_k : Z
}.

(** The interval pushed by turn [i] of the loop of [calculateChiSquare]. *)
Definition intervalAt (numbers : list R) (k : Z) (Ei : R) (i : Z) : Interval :=
  let start := IZR i / IZR k in
  let end_ := IZR (i + 1) / IZR k in
  let oi :=
    Z.of_nat
      (length (filter (fun n => Rgeb n start &&
                                (if (i =? k - 1)%Z then Rleb n end_ else Rltb n end_))
                      numbers)) in
  let chiPart := (IZR oi - Ei) ^ 2 / Ei in
  mkInterval start end_ oi Ei chiPart.

Definition calculateChiSquare (numbers : list R) (k : Z) (alpha : R)
  : ChiSquareResult :=
  let N := Z.of_nat (length numbers) in
  let Ei := IZR N / IZR k in
  let intervals := map (intervalAt numbers k Ei) (map Z.of_nat (seq 0 (Z.to_nat k))) in
  let chiStat := fold_left (fun chiStat iv => chiStat + chiPart iv) intervals 0 in
  let dof := (k - 1)%Z in
  let criticalValue := getChiSquareCriticalValue dof alpha in
  let isUniform := Rltb chiStat criticalValue in
  mkChiSquareResult intervals chiStat criticalValue dof isUniform N alpha k.

(** *** Autocorrelation test *)








(** *** The critical value and the decisions, in the words of the
    specification *)

(** The three regimes of the rational approximation of the inverse normal. *)
Definition tailLow (p : R) : R :=
  let q := sqrt (-2 * ln p) in
  (((((c1 * q + c2) * q + c3) * q + c4) * q + c5) * q + c6) /
  ((((d1 * q + d2) * q + d3) * q + d4) * q + 1).

Definition tailHigh (p : R) : R :=
  let q := sqrt (-2 * ln (1 - p)) in
  - (((((c1 * q + c2) * q + c3) * q + c4) * q + c5) * q + c6) /
  ((((d1 * q + d2) * q + d3) * q + d4) * q + 1).

Definition central (p : R) : R :=
  let q := p - 0.5 in
  let r := q * q in
  (((((a1 * r + a2) * r + a3) * r + a4) * r + a5) * r + a6) * q /
  (((((b1 * r + b2) * r + b3) * r + b4) * r + b5) * r + 1).

(** The inverse normal of the specification: tail-low below 0.02425,
    tail-high above 0.97575, central between. *)
Definition specInverseNormal (p : R) : R :=
  if Rlt_dec p 0.02425 then tailLow p
  else if Rgt_dec p 0.97575 then tailHigh p
  else central p.

(** The critical value of the specification for [df] degrees of freedom. *)
Definition specCriticalValue (df : Z) (alpha : R) : R :=
  if (df =? 1)%Z then
    let z := specInverseNormal (1 - alpha / 2) in z ^ 2
  else if (df =? 2)%Z then
    -2 * ln alpha
  else
    let z_p := specInverseNormal (1 - alpha) in
    IZR df * (1 - 2 / (9 * IZR df) + z_p * sqrt (2 / (9 * IZR df))) ^ 3.





(** *** Sample sequences *)


(** One number in each tenth of the unit interval. *)
Definition onePerDecile : list R :=
  [0.05; 0.15; 0.25; 0.35; 0.45; 0.55; 0.65; 0.75; 0.85; 0.95].

End Statistics.

(** ** Editing a distribution (useDistributionState) *)

Module DistributionState.
Import Tables.

(** The [key] and [value] arguments of [updateRow]: the field to write and
    the number to store in it, [None] for [null]. *)
Inductive Field : Type :=
| valueField (v : option Z)
| probabilityField (p : option Q).

(** [value !== null] *)
Definition notNull (field : Field) : bool :=
  match field with
  | valueField (Some _) | probabilityField (Some _) => true
  | _ => false
  end.

(** [{ ...row, [key]: value }] *)
Definition withField (row : DistRow) (field : Field) : DistRow :=
  match field with
  | valueField (Some v) => mkDistRow v (probability row)
  | probabilityField (Some p) => mkDistRow (value row) p
  | _ => row
  end.

(** [l.map((a, i) => f(a, i))], the first index being [i]. *)
Fixpoint mapIndexed {A B : Type} (f : A -> Z -> B) (i : Z) (l : list A) : list B :=
  match l with
  | [] => []
  | a :: rest => f a i :: mapIndexed f (i + 1) rest
  end.

(** [l.filter((a, i) => f(a, i))], the first index being [i]. *)
Fixpoint filterIndexed {A : Type} (f : A -> Z -> bool) (i : Z) (l : list A) : list A :=
  match l with
  | [] => []
  | a :: rest =>
      if f a i then a :: filterIndexed f (i + 1) rest else filterIndexed f (i + 1) rest
  end.

(** The three editing operations, as functions of the previous rows. *)
Definition updateRow (index : Z) (field : Field) (prev : list DistRow) : list DistRow :=
  mapIndexed (fun row i => if (i =? index) && notNull field then withField row field else row)
             0 prev.

Definition addRow (prev : list DistRow) : list DistRow :=
  prev ++ [mkDistRow 0 0].

Definition removeRow (index : Z) (prev : list DistRow) : list DistRow :=
  if (1 <? length prev)%nat
  then filterIndexed (fun _ i => negb (i =? index)) 0 prev
  else prev.

End DistributionState.

(** ** The performance figures under the ledgers *)

(** [rows.reduce((acc, r) => acc + f(r), 0)] *)
Definition sumOver {A : Type} (f : A -> Z) (rows : list A) : Z :=
  fold_left (fun acc r => acc + f r) rows 0.

(** [Math.max(...l)] of a non-empty list. *)
Definition mathMax (l : list Z) : Z :=
  match l with
  | [] => 0
  | x :: rest => fold_left Z.max rest x
  end.

(** [a / b] on integers, as a rational. *)
Definition ratio (a b : Z) : Q := (inject_Z a / inject_Z b)%Q.

(** [lastEnd ? (total / lastEnd) * 100 : 0] *)
Definition percentOf (total lastEnd : Z) : Q :=
  if lastEnd =? 0 then 0%Q else (ratio total lastEnd * 100)%Q.

Module SingleServerReport.
Import SingleServer.

Record Summary : Type := mkSummary {
  avgWaiting : Q;
  avgService : Q;
  idlePercent : Q;
  utilization : Q
}.

(** [simRows[simRows.length - 1]] of a non-empty ledger. *)
Definition lastRow (simRows : list SimulationRow) : SimulationRow :=
  last simRows (mkSimulationRow 0 0 0 0 0 0 0 0 0 0 0).

(** The memoised [summary]; [None] is [null]. *)
Definition summary (simRows : list SimulationRow) : option Summary :=
  match simRows with
  | [] => None
  | _ :: _ =>
      let totalWaiting := sumOver waiting simRows in
      let totalService := sumOver service simRows in
      let totalIdle := sumOver (fun r => Z.max (idle r) 0) simRows in
      let lastEnd := serviceEnd (lastRow simRows) in
      let n := Z.of_nat (length simRows) in
      Some (mkSummary (ratio totalWaiting n) (ratio totalService n)
              (percentOf totalIdle lastEnd) (percentOf totalService lastEnd))
  end.

(** The totals row under the ledger; the two columns that are not summed
    hold the empty string. *)
Record Totals : Type := mkTotals {
  t_interarrival : Z;
  t_arrival : Z;
  t_service : Z;
  t_serviceStart : string;
  t_serviceEnd : string;
  t_waiting : Z;
  t_timeInSystem : Z;
  t_idle : Z
}.

(** The memoised [totals]. *)
Definition totals (simRows : list SimulationRow) : option Totals :=
  match simRows with
  | [] => None
  | _ :: _ =>
      Some (mkTotals (sumOver interarrival simRows)
              (arrival (lastRow simRows))
              (sumOver service simRows)
              EmptyString EmptyString
              (sumOver waiting simRows)
              (sumOver timeInSystem simRows)
              (sumOver idle simRows))
  end.

(** What the checks of [runSimulation] ask of its inputs. *)
Definition accepted (arrival service : list Tables.DistRow)
    (arrivalDigits serviceDigits : list Z) (count : Z) : Prop :=
  1 <= count /\
  Tables.validDistribution arrival /\
  Tables.validDistribution service /\
  count - 1 <= Z.of_nat (length arrivalDigits) /\
  count <= Z.of_nat (length serviceDigits) /\
  Forall (fun d => 0 <= d <= 100) (arrivalDigits ++ serviceDigits).

(** What a row of the ledger shows: no negative wait or idle time, never
    both a wait and an idle time, and times that add up. *)
Definition wellFormed (row : SimulationRow) : Prop :=
  0 <= waiting row /\ 0 <= idle row /\ (waiting row = 0 \/ idle row = 0) /\
  arrival row <= serviceStart row /\
  waiting row = serviceStart row - arrival row /\
  serviceEnd row = serviceStart row + service row /\
  timeInSystem row = serviceEnd row - arrival row.

End SingleServerReport.

Module MultiServerReport.
Import MultiServer.

Record Summary : Type := mkSummary {
  avgWaiting : Q;
  avgService1 : Q;
  avgService2 : Q;
  idlePercent1 : Q;
  idlePercent2 : Q;
  utilization1 : Q;
  utilization2 : Q
}.

(** [x ?? 0] *)
Definition orZero (x : option Z) : Z :=
  match x with
  | Some x => x
  | None => 0
  end.

(** [x !== null] *)
Definition isSet (x : option Z) : bool :=
  match x with
  | Some _ => true
  | None => false
  end.

(** [r.serviceStart1 !== null ? (r.service1 ?? 0) : 0], and the same for
    server 2. *)
Definition servedBy1 (r : SimulationRow) : Z :=
  if isSet (serviceStart1 r) then orZero (service1 r) else 0.

Definition servedBy2 (r : SimulationRow) : Z :=
  if isSet (serviceStart2 r) then orZero (service2 r) else 0.

Definition totalService1 (simRows : list SimulationRow) : Z := sumOver servedBy1 simRows.
Definition totalService2 (simRows : list SimulationRow) : Z := sumOver servedBy2 simRows.

Definition totalIdle1 (simRows : list SimulationRow) : Z :=
  sumOver (fun r => Z.max (idle1 r) 0) simRows.
Definition totalIdle2 (simRows : list SimulationRow) : Z :=
  sumOver (fun r => Z.max (idle2 r) 0) simRows.

(** [simRows.length > 0 ? Math.max(...simRows.map(r => r.serviceEnd1 ?? 0)) : 0] *)
Definition lastEnd1 (simRows : list SimulationRow) : Z :=
  if (0 <? length simRows)%nat
  then mathMax (map (fun r => orZero (serviceEnd1 r)) simRows) else 0.

Definition lastEnd2 (simRows : list SimulationRow) : Z :=
  if (0 <? length simRows)%nat
  then mathMax (map (fun r => orZero (serviceEnd2 r)) simRows) else 0.

(** The memoised [summary]; [None] is [null]. *)
Definition summary (simRows : list SimulationRow) : option Summary :=
  match simRows with
  | [] => None
  | _ :: _ =>
      let totalWaiting := sumOver waiting simRows in
      let lastEnd := Z.max (lastEnd1 simRows) (lastEnd2 simRows) in
      let service1Count :=
        Z.of_nat (length (filter (fun r => isSet (serviceStart1 r)) simRows)) in
      let service2Count :=
        Z.of_nat (length (filter (fun r => isSet (serviceStart2 r)) simRows)) in
      Some (mkSummary
              (ratio totalWaiting (Z.of_nat (length simRows)))
              (if 0 <? service1Count then ratio (totalService1 simRows) service1Count else 0%Q)
              (if 0 <? service2Count then ratio (totalService2 simRows) service2Count else 0%Q)
              (percentOf (totalIdle1 simRows) lastEnd)
              (percentOf (totalIdle2 simRows) lastEnd)
              (percentOf (totalService1 simRows) lastEnd)
              (percentOf (totalService2 simRows) lastEnd))
  end.

(** What the checks of [runSimulation] ask of its inputs. *)
Definition accepted (arrival service1 service2 : list Tables.DistRow)
    (arrivalDigits serviceDigits : list Z) (count : Z) : Prop :=
  1 <= count /\
  Tables.validDistribution arrival /\
  Tables.validDistribution service1 /\
  Tables.validDistribution service2 /\
  count - 1 <= Z.of_nat (length arrivalDigits) /\
  count <= Z.of_nat (length serviceDigits) /\
  Forall (fun d => 0 <= d <= 100) (arrivalDigits ++ serviceDigits).

(** The columns of server [s] are filled and those of the other server are
    empty. *)
Definition columnsOf (s : Server) (row : SimulationRow) : Prop :=
  match s with
  | Server1 =>
      (exists t b e, service1 row = Some t /\ serviceStart1 row = Some b /\
                     serviceEnd1 row = Some e /\ e = b + t /\
                     arrival row <= b /\ waiting row = b - arrival row /\
                     timeInSystem row = e - arrival row) /\
      service2 row = None /\ serviceStart2 row = None /\ serviceEnd2 row = None
  | Server2 =>
      (exists t b e, service2 row = Some t /\ serviceStart2 row = Some b /\
                     serviceEnd2 row = Some e /\ e = b + t /\
                     arrival row <= b /\ waiting row = b - arrival row /\
                     timeInSystem row = e - arrival row) /\
      service1 row = None /\ serviceStart1 row = None /\ serviceEnd1 row = None
  end.

(** A row as the ledger shows it: served by exactly one server, never a
    negative wait or idle time, and idle time only on the serving server. *)
Definition wellFormed (row : SimulationRow) : Prop :=
  (exists s, serverUsed row = Some s /\ columnsOf s row) /\
  0 <= waiting row /\ 0 <= idle1 row /\ 0 <= idle2 row /\
  (serverUsed row = Some Server1 -> idle2 row = 0) /\
  (serverUsed row = Some Server2 -> idle1 row = 0) /\
  (0 < waiting row -> idle1 row = 0 /\ idle2 row = 0).

(** What the customer loop keeps true of its state: the rows are well
    formed, and the clock of each server is the idle time plus the service
    time booked on it. *)
Definition reportInvariant (st : State) : Prop :=
  Forall wellFormed (table st) /\
  server1End st = totalIdle1 (table st) + totalService1 (table st) /\
  server2End st = totalIdle2 (table st) + totalService2 (table st).

(** With service times that are not negative, the clock of each server is
    also the latest end of a service in its columns. *)
Definition endsInvariant (st : State) : Prop :=
  0 <= server1End st /\ 0 <= server2End st /\
  lastEnd1 (table st) = server1End st /\
  lastEnd2 (table st) = server2End st.

End MultiServerReport.

Module InventoryReport.
Import Inventory.

Record Totals : Type := mkTotals {
  sumEndingInventory : Z;
  avgEndingInventory : Q;
  shortageDays : Z;
  shortageProbability : Q
}.

(** The memoised [totals]; [None] is [null]. *)
Definition totals (simRows : list SimulationRow) : option Totals :=
  match simRows with
  | [] => None
  | _ :: _ =>
      let sumEndingInventory := sumOver endingInventory simRows in
      let n := Z.of_nat (length simRows) in
      let avgEndingInventory := ratio sumEndingInventory n in
      let shortageDays :=
        Z.of_nat (length (filter (fun row => 0 <? shortage row) simRows)) in
      let shortageProbability := ratio shortageDays n in
      Some (mkTotals sumEndingInventory avgEndingInventory shortageDays shortageProbability)
  end.

(** The stock that opens the day of row [n]: the stock that closed the day
    before, or the initial inventory on the first day. *)
Definition openingStock (initInv : Z) (rows : list SimulationRow) (n : nat) : Z :=
  match n with
  | O => initInv
  | S m => match nth_error rows m with
           | Some prev => endingInventory prev
           | None => 0
           end
  end.

(** The backlog carried into the day of row [n]. *)
Definition openingBacklog (rows : list SimulationRow) (n : nat) : Z :=
  match n with
  | O => 0
  | S m => match nth_error rows m with
           | Some prev => shortage prev
           | None => 0
           end
  end.


(** The flow of stock on the day of row [n]: the day opens with at least
    the stock of the evening before, and what it ends with, net of the
    backlog, is what it began with, net of the backlog carried in, less the
    demand. *)
Definition balanced (initInv : Z) (rows : list SimulationRow) (n : nat)
    (row : SimulationRow) : Prop :=
  openingStock initInv rows n <= beginningInventory row /\
  endingInventory row - shortage row
  = beginningInventory row - openingBacklog rows n - demand row.

(** No negative stock and no negative backlog. *)
Definition nonNegative (row : SimulationRow) : Prop :=
  0 <= beginningInventory row /\ 0 <= endingInventory row /\ 0 <= shortage row.

(** What the day loop keeps true of its state. *)
Definition ledgerInvariant (initInv : Z) (st : State) : Prop :=
  0 <= inventory st /\
  inventory st = openingStock initInv (table st) (length (table st)) /\
  previousShortage (table st) = openingBacklog (table st) (length (table st)) /\
  0 <= previousShortage (table st) /\
  Forall (fun order => 0 < quantity order) (pendingOrders st) /\
  Forall nonNegative (table st) /\
  forall n row, nth_error (table st) n = Some row -> balanced initInv (table st) n row.

(** The two messages about digits out of range. *)
Definition demandRangeError : string :=
  "Demand random digits must be between 01 and 00 (i.e., 1 to 100)".

Definition leadTimeRangeError : string :=
  "Lead time random digits must be between 0 and 9 (i.e., 1 to 10 after conversion)".

End InventoryReport.

(** ** Random-number generators (utils/rng) *)

Module Rng.
Import Ascii.

(** A JavaScript number as the generators meet it: an integer or [NaN]. *)
Inductive number : Type :=
| Int (z : Z)
| NaN.

Record RngResult : Type := mkRngResult {
  numbers : list number;
  error : option string
}.

(** *** Strings of decimal digits *)

Definition digitChar (d : Z) : ascii := ascii_of_nat (48 + Z.to_nat d).

(** The decimal digits of [n >= 0], most significant first, in front of
    [acc]; [fuel] bounds the number of digits. *)
Fixpoint digitsOf (fuel : nat) (n : Z) (acc : list Z) : list Z :=
  match fuel with
  | O => acc
  | S fuel =>
      let acc' := n mod 10 :: acc in
      if n <? 10 then acc' else digitsOf fuel (n / 10) acc'
  end.

(** The decimal digits of [n >= 0]: it has no more digits than bits. *)
Definition decimal (n : Z) : list Z := digitsOf (S (Z.to_nat (Z.log2 n))) n [].

(** [n.toString()] for an integer printed in full (below 1e21), and for
    [NaN]. *)
Definition toString (x : number) : list ascii :=
  match x with
  | NaN => ["N"; "a"; "N"]%char
  | Int n =>
      if n <? 0 then "-"%char :: map digitChar (decimal (- n))
      else map digitChar (decimal n)
  end.

(** [s.padStart(targetLength, pad)] for a one-character [pad]. *)
Definition padStart (targetLength : Z) (pad : ascii) (s : list ascii) : list ascii :=
  repeat pad (Z.to_nat (targetLength - Z.of_nat (length s))) ++ s.

(** [s.substring(a, b)]: both indices are clamped to [[0, s.length]] and
    swapped when [a > b]. *)
Definition substring (a b : Z) (s : list ascii) : list ascii :=
  let len := Z.of_nat (length s) in
  let a' := Z.min (Z.max a 0) len in
  let b' := Z.min (Z.max b 0) len in
  let lo := Z.min a' b' in
  let hi := Z.max a' b' in
  firstn (Z.to_nat (hi - lo)) (skipn (Z.to_nat lo) s).

Definition digitOf (c : ascii) : option Z :=
  let n := nat_of_ascii c in
  if (48 <=? n)%nat && (n <=? 57)%nat then Some (Z.of_nat n - 48) else None.

(** The digits of [s] up to its first character that is not one, read in
    base 10 after [acc]. *)
Fixpoint readDigits (acc : number) (s : list ascii) : number :=
  match s with
  | [] => acc
  | c :: rest =>
      match digitOf c with
      | Some d => readDigits (Int (10 * (match acc with Int a => a | NaN => 0 end) + d)) rest
      | None => acc
      end
  end.

(** [parseInt(s, 10)] of a string that starts with neither blanks nor a
    sign: [NaN] when it does not start with a digit. *)
Definition parseInt (s : list ascii) : number := readDigits NaN s.

(** [current * current] *)
Definition square (current : number) : number :=
  match current with
  | Int z => Int (z * z)
  | NaN => NaN
  end.

(** One turn of the loop of [middleSquare]: the next [current]. *)
Definition middleSquareStep (digits : Z) (current : number) : number :=
  let sq := square current in
  let s := padStart (digits * 2) "0"%char (toString sq) in
  let start := digits / 2 in
  let mid := substring start (start + digits) s in
  parseInt mid.

Fixpoint middleSquareLoop (count : nat) (digits : Z) (current : number) : list number :=
  match count with
  | O => []
  | S count =>
      let current := middleSquareStep digits current in
      current :: middleSquareLoop count digits current
  end.

(** [middleSquare(seed, count, digits)]; [count] turns when [count] is a
    positive integer, none otherwise. *)
Definition middleSquare (seed count digits : Z) : RngResult :=
  mkRngResult (middleSquareLoop (Z.to_nat count) digits (Int seed)) None.

(** The double nearest to the integer [z], ties going to the even
    significand of 53 bits; [None] is an infinity, when the rounded
    magnitude passes the largest double.  Integers below [2 ^ 53] in
    magnitude are doubles themselves. *)
Definition nearestDouble (z : Z) : option Z :=
  let mag := Z.abs z in
  if mag <? 2 ^ 53 then Some z
  else
    let e := Z.log2 mag - 52 in
    let q := mag / 2 ^ e in
    let r := mag mod 2 ^ e in
    let half := 2 ^ (e - 1) in
    let q' := if r <? half then q
              else if half <? r then q + 1
              else if Z.even q then q else q + 1 in
    let v := q' * 2 ^ e in
    if 2 ^ 1024 <=? v then None else Some (Z.sgn z * v).

(** [(a * current + c) % m] on doubles that hold integers: the product and
    the sum are each rounded to the nearest double; [%] is exact and takes
    the sign of the dividend; the remainder of an infinity, and anything
    computed from [NaN], is [NaN]. *)
Definition lcgStep (a c m : Z) (current : number) : number :=
  match current with
  | NaN => NaN
  | Int x =>
      match nearestDouble (a * x) with
      | None => NaN
      | Some product =>
          match nearestDouble (product + c) with
          | None => NaN
          | Some sum => Int (Z.rem sum m)
          end
      end
  end.

(** The loop of [lcg]. *)
Fixpoint lcgLoop (count : nat) (a c m : Z) (current : number) : list number :=
  match count with
  | O => []
  | S count =>
      let current := lcgStep a c m current in
      current :: lcgLoop count a c m current
  end.

(** [lcg(z0, a, c, m, count)] for integer arguments, each a double. *)
Definition lcg (z0 a c m count : Z) : RngResult :=
  if m <=? 0 then mkRngResult [] (Some "Modulus m must be > 0"%string)
  else mkRngResult (lcgLoop (Z.to_nat count) a c m (Int z0)) None.

(** [normalizeValues(values, scaleTo, sourceMax)], for [sourceMax] other
    than 0. *)
Definition normalizeValues (values : list number) (scaleTo sourceMax : Z) : list number :=
  map (fun v =>
         match v with
         | Int v =>
             let normalized := (inject_Z v / inject_Z sourceMax)%Q in
             Int (Tables.mathRound (normalized * inject_Z scaleTo))
         | NaN => NaN
         end)
      values.

(** *** Vocabulary of the generator properties *)

(** The number that a list of decimal digits writes. *)
Definition fromDigits (ds : list Z) : Z :=
  fold_left (fun acc d => 10 * acc + d) ds 0.

(** The middle [digits] digits of the square of [x], written on
    [2 * digits] digits. *)
Definition middleDigits (digits x : Z) : Z :=
  (x * x / 10 ^ (digits - digits / 2)) mod 10 ^ digits.

(** [f] applied 1, 2, ..., [count] times to [x]. *)
Fixpoint iterates (f : Z -> Z) (count : nat) (x : Z) : list Z :=
  match count with
  | O => []
  | S count => f x :: iterates f count (f x)
  end.

End Rng.

(** ** Vocabulary of the chi-square counts *)

Module ChiSquare.
Import Statistics.

Local Open Scope R_scope.

(** The test of the [filter] that counts the observed frequency of interval
    [i] of [k]: [n >= start && (i === k - 1 ? n <= end : n < end)]. *)
Definition counted (k i : Z) (n : R) : bool :=
  Rgeb n (IZR i / IZR k) &&
  (if (i =? k - 1)%Z then Rleb n (IZR (i + 1) / IZR k) else Rltb n (IZR (i + 1) / IZR k)).

End ChiSquare.

(** ** The M/M/1 formulas (MathematicalModel) *)

Module MathematicalModel.

Local Open Scope Q_scope.

Record Measures : Type := mkMeasures {
  Ls : Q;
  Lq : Q;
  Ws : Q;
  Wq : Q;
  R : Q;
  Po : Q;
  Pn : option Q
}.

(** [null], [{ error }] or the measures. *)
Inductive Results : Type :=
| NoResults
| Failure (error : string)
| Values (m : Measures).

(** The memoised [results].  [lambda] and [mu] are the numbers read from the
    two fields, [None] for an empty field or one that does not hold a finite
    number; [n] is [Number(nCustomers) || 0], an integer here. *)
Definition results (lambda mu : option Q) (n : Z) : Results :=
  match lambda, mu with
  | Some l, Some m =>
      if Qle_bool m 0 then NoResults
      else if Qle_bool m l
      then Failure "Lambda (λ) must be less than Mu (μ) for stable system"
      else
        let Ls := l / (m - l) in
        let Lq := (l * l) / (m * (m - l)) in
        let Ws := 1 / (m - l) in
        let Wq := l / (m * (m - l)) in
        let R := (l / m) * 100 in
        let Po := 100 - R in
        let Pn := if (0 <=? n)%Z then Some ((R / 100) ^ n * (1 - R / 100)) else None in
        Values (mkMeasures Ls Lq Ws Wq R Po Pn)
  | _, _ => NoResults
  end.

End MathematicalModel.

(** ** Facts about loops *)

Module LoopFacts.

Section Loops.

Context {A St : Type}.
Variable f : St -> A -> result St.

Lemma forEachM_app (l1 l2 : list A) (s : St) :
  forEachM f (l1 ++ l2) s = (s' <- forEachM f l1 s ;; forEachM f l2 s').
Proof.
  revert s; induction l1 as [|a l1 IH]; intros s; simpl; [reflexivity|].
  destruct (f s a) as [s1|msg]; simpl; [apply IH | reflexivity].
Qed.

(** A loop that ends well went through a state before and after each of its
    turns. *)
Lemma forEachM_turn (l : list A) (s s' : St) (n : nat) (a : A) :
  forEachM f l s = Ok s' ->
  nth_error l n = Some a ->
  exists before after,
    forEachM f (firstn n l) s = Ok before /\
    f before a = Ok after /\
    forEachM f (skipn (S n) l) after = Ok s'.
Proof.
  revert s n; induction l as [|x l IH]; intros s n Hrun Hn.
  - destruct n; discriminate.
  - simpl in Hrun. destruct (f s x) as [s1|msg] eqn:E; [|discriminate].
    simpl in Hrun. destruct n as [|n].
    + injection Hn as <-. exists s, s1. simpl. auto.
    + destruct (IH s1 n Hrun Hn) as (before & after & H1 & H2 & H3).
      exists before, after. simpl. rewrite E. simpl. auto.
Qed.

(** A property kept by every successful turn is kept by the loop. *)
Lemma forEachM_invariant (P : St -> Prop) (l : list A) :
  (forall s a s', P s -> f s a = Ok s' -> P s') ->
  forall s s', P s -> forEachM f l s = Ok s' -> P s'.
Proof.
  intros Hstep. induction l as [|a l IH]; intros s s' Hs Hrun; simpl in Hrun.
  - now injection Hrun as <-.
  - destruct (f s a) as [s1|msg] eqn:E; [|discriminate].
    eapply IH; [eapply Hstep; eauto | exact Hrun].
Qed.

End Loops.

(** Nested loops visit the flattened list of their index pairs. *)
Lemma forEachM_nested {A B St : Type} (f : St -> A * B -> result St)
    (outer : list A) (inner : list B) (s : St) :
  forEachM (fun s a => forEachM (fun s b => f s (a, b)) inner s) outer s =
  forEachM f (flat_map (fun a => map (fun b => (a, b)) inner) outer) s.
Proof.
  revert s; induction outer as [|a outer IH]; intros s; simpl; [reflexivity|].
  rewrite forEachM_app.
  assert (Hin : forall l s, forEachM (fun s b => f s (a, b)) l s
                            = forEachM f (map (fun b => (a, b)) l) s).
  { induction l as [|b l IHl]; intros s0; simpl; [reflexivity|].
    destruct (f s0 (a, b)); simpl; [apply IHl | reflexivity]. }
  rewrite Hin. destruct (forEachM f (map (fun b => (a, b)) inner) s); simpl;
    [apply IH | reflexivity].
Qed.

Lemma firstn_succ {A : Type} (l : list A) (n : nat) (a : A) :
  nth_error l n = Some a -> firstn (S n) l = firstn n l ++ [a].
Proof.
  revert n; induction l as [|x l IH]; intros [|n] H; try discriminate.
  - injection H as <-. reflexivity.
  - cbn [nth_error] in H. change (firstn (S (S n)) (x :: l)) with (x :: firstn (S n) l).
    rewrite (IH n H). reflexivity.
Qed.

End LoopFacts.

(** ** Facts about the cumulative tables *)

Module TableFacts.
Import Tables.

(** The total returned by [accumulate] is the left-to-right sum. *)
Lemma accumulate_total (dist : list DistRow) (s : Q) :
  snd (accumulate s dist) = fold_left (fun s row => (s + probability row)%Q) dist s.
Proof.
  revert s; induction dist as [|row rest IH]; intros s; simpl; [reflexivity|].
  specialize (IH (s + probability row)%Q).
  destruct (accumulate (s + probability row) rest) as [rows total]; simpl in *.
  exact IH.
Qed.

Lemma accumulate_length (dist : list DistRow) (s : Q) :
  length (fst (accumulate s dist)) = length dist.
Proof.
  revert s; induction dist as [|row rest IH]; intros s; simpl; [reflexivity|].
  specialize (IH (s + probability row)%Q).
  destruct (accumulate (s + probability row) rest) as [rows total]; simpl in *.
  now rewrite IH.
Qed.

Lemma assignRanges_length scale prev rows :
  length (assignRanges scale prev rows) = length rows.
Proof.
  revert prev; induction rows as [|row rest IH]; intros prev; simpl; [reflexivity|].
  now rewrite IH.
Qed.

(** [forEach] makes every row start one past the previous end. *)
Lemma assignRanges_contiguous scale prev rows :
  contiguousFrom prev (assignRanges scale prev rows).
Proof.
  revert prev; induction rows as [|row rest IH]; intros prev; simpl; [exact I|].
  split; [reflexivity | apply IH].
Qed.

(** The last row ends at [min(scale, round(sum * scale))]. *)
Lemma assignRanges_lastEnd scale (dist : list DistRow) (s : Q) (prev : Z) :
  lastEnd prev (assignRanges scale prev (fst (accumulate s dist))) =
  match dist with
  | [] => prev
  | _ :: _ => Z.min scale (mathRound (snd (accumulate s dist) * inject_Z scale))
  end.
Proof.
  revert s prev; induction dist as [|row rest IH]; intros s prev; simpl; [reflexivity|].
  specialize (IH (s + probability row)%Q
                 (Z.min scale (mathRound ((s + probability row) * inject_Z scale)))).
  destruct (accumulate (s + probability row) rest) as [rows total] eqn:E; simpl in *.
  rewrite IH. destruct rest as [|row' rest']; [|reflexivity].
  simpl in E. now inversion E.
Qed.

Lemma mathRound_monotone (x y : Q) : (x <= y)%Q -> mathRound x <= mathRound y.
Proof.
  intros H. unfold mathRound. apply Qfloor_resp_le. lra.
Qed.

Lemma inject_Z_nonneg (z : Z) : 0 <= z -> (0 <= inject_Z z)%Q.
Proof. intros H. change 0%Q with (inject_Z 0). now rewrite <- Zle_Qle. Qed.

Lemma assignRanges_monotone scale (dist : list DistRow) (s : Q) (prev : Z) :
  0 <= scale ->
  Forall (fun row => (0 <= probability row)%Q) dist ->
  prev <= Z.min scale (mathRound (s * inject_Z scale)) ->
  monotoneFrom prev (assignRanges scale prev (fst (accumulate s dist))).
Proof.
  intros Hscale Hpos; revert s prev.
  induction Hpos as [|row rest Hrow Hrest IH]; intros s prev Hprev; simpl; [exact I|].
  specialize (IH (s + probability row)%Q
                 (Z.min scale (mathRound ((s + probability row) * inject_Z scale)))).
  destruct (accumulate (s + probability row) rest) as [rows total]; simpl in *.
  assert (Hstep : mathRound (s * inject_Z scale)
                  <= mathRound ((s + probability row) * inject_Z scale)).
  { apply mathRound_monotone. apply Qmult_le_compat_r; [lra | now apply inject_Z_nonneg]. }
  split; [lia | apply IH; lia].
Qed.

(** In a contiguous chain with non-decreasing ends, [r] is in exactly one row
    when it lies after [prev] and up to the last end, and in none otherwise. *)
Lemma hits_chain (r : Z) (rows : list CumulativeRow) (prev : Z) :
  contiguousFrom prev rows -> monotoneFrom prev rows ->
  prev <= lastEnd prev rows /\
  hits r rows = if (prev <? r) && (r <=? lastEnd prev rows) then 1%nat else 0%nat.
Proof.
  revert prev; induction rows as [|row rest IH]; intros prev Hc Hm; simpl in *.
  - split; [lia|]. unfold hits; simpl.
    destruct (prev <? r) eqn:E1, (r <=? prev) eqn:E2; simpl; try reflexivity; lia.
  - destruct Hc as [Hstart Hc], Hm as [Hle Hm].
    destruct (IH _ Hc Hm) as [Hlast Hhits].
    split; [lia|].
    unfold hits in *; simpl. unfold inRange at 1. rewrite Hstart.
    destruct (prev + 1 <=? r) eqn:E1, (r <=? rangeEnd row) eqn:E2; simpl;
      rewrite Hhits;
      destruct (rangeEnd row <? r) eqn:E3, (r <=? lastEnd (rangeEnd row) rest) eqn:E4,
               (prev <? r) eqn:E5; simpl; try reflexivity; lia.
Qed.

(** In a contiguous chain [find] reaches a row containing [r] whenever [r]
    lies after [prev] and up to the last end (ends need not be monotone). *)
Lemma find_chain (r : Z) (rows : list CumulativeRow) (prev : Z) :
  contiguousFrom prev rows -> prev < r <= lastEnd prev rows ->
  exists row, find (inRange r) rows = Some row /\ In row rows /\ inRange r row = true.
Proof.
  revert prev; induction rows as [|row rest IH]; intros prev Hc Hr; simpl in *; [lia|].
  destruct Hc as [Hstart Hc].
  destruct (inRange r row) eqn:E.
  - exists row; auto.
  - unfold inRange in E. rewrite Hstart in E.
    destruct (IH (rangeEnd row) Hc) as (row' & Hf & Hin & Hr').
    + destruct (prev + 1 <=? r) eqn:E1, (r <=? rangeEnd row) eqn:E2; simpl in E;
        try discriminate; lia.
    + exists row'; auto.
Qed.

(** A valid distribution is accepted, and its table is [assignRanges] of the
    accumulated rows. *)
Lemma buildCumulative_valid (dist : list DistRow) (scale : Z) :
  validDistribution dist ->
  buildCumulative dist scale = Ok (assignRanges scale 0 (fst (accumulate 0 dist))).
Proof.
  intros [Hne Hsum]. unfold buildCumulative.
  destruct dist as [|row rest]; [congruence|].
  pose proof (accumulate_total (row :: rest) 0) as Ht.
  destruct (accumulate 0 (row :: rest)) as [rows total]; simpl fst; simpl snd in Ht.
  destruct (Qlt_le_dec tolerance (Qabs (total - 1))) as [Hbad|_]; [|reflexivity].
  exfalso. unfold totalProbability in Hsum. rewrite <- Ht in Hsum.
  apply (Qlt_not_le _ _ Hbad Hsum).
Qed.

(** Conversely an accepted distribution is valid. *)
Lemma buildCumulative_Ok_valid (dist : list DistRow) (scale : Z) rows :
  buildCumulative dist scale = Ok rows -> validDistribution dist.
Proof.
  unfold buildCumulative, validDistribution, totalProbability.
  destruct dist as [|row rest]; [discriminate|].
  pose proof (accumulate_total (row :: rest) 0) as Ht.
  destruct (accumulate 0 (row :: rest)) as [rows' total]; simpl snd in Ht.
  destruct (Qlt_le_dec tolerance (Qabs (total - 1))) as [|Hle]; [discriminate|].
  intros _. split; [discriminate|]. now rewrite <- Ht.
Qed.

(** Up to scale 500 the tolerance cannot pull the last end below [scale]. *)
Lemma last_end_is_scale (dist : list DistRow) (scale : Z) :
  validDistribution dist -> 0 <= scale <= 500 ->
  lastEnd 0 (assignRanges scale 0 (fst (accumulate 0 dist))) = scale.
Proof.
  intros [Hne Hsum] Hscale.
  rewrite assignRanges_lastEnd. destruct dist as [|row rest]; [congruence|].
  rewrite accumulate_total. fold (totalProbability (row :: rest)).
  set (t := totalProbability (row :: rest)) in *.
  apply Z.min_l. unfold mathRound.
  rewrite <- (Qfloor_Z scale) at 1. apply Qfloor_resp_le.
  apply Qabs_Qle_condition in Hsum. destruct Hsum as [Hlo _].
  assert (H0 : (0 <= inject_Z scale)%Q) by (apply inject_Z_nonneg; lia).
  assert (H5 : (inject_Z scale <= inject_Z 500)%Q) by (rewrite <- Zle_Qle; lia).
  set (z := inject_Z scale) in *.
  unfold tolerance in Hlo.
  assert (H500 : (inject_Z 500 == 500)%Q) by reflexivity.
  rewrite H500 in H5.
  nra.
Qed.

(** C1 (as amended): for every distribution with at least one row whose
    probabilities are non-negative and sum to 1 within tolerance 0.001, and
    every scale from 1 to 500 (the pages use 10 and 100), [buildCumulative]
    succeeds and its ranges partition [[1, scale]] exactly: the first row
    starts at 1, each row starts one past the previous end, the last row ends
    at [scale], every integer of [[1, scale]] lies in exactly one row and no
    integer lies in two. *)
Theorem buildCumulative_partitions (dist : list DistRow) (scale : Z) :
  validDistribution dist ->
  Forall (fun row => (0 <= probability row)%Q) dist ->
  1 <= scale <= 500 ->
  exists rows, buildCumulative dist scale = Ok rows /\ partitions scale rows.
Proof.
  intros Hvalid Hpos Hscale.
  exists (assignRanges scale 0 (fst (accumulate 0 dist))).
  split; [now apply buildCumulative_valid|].
  set (rows := assignRanges scale 0 (fst (accumulate 0 dist))).
  assert (Hc : contiguousFrom 0 rows) by apply assignRanges_contiguous.
  assert (Hm : monotoneFrom 0 rows).
  { apply assignRanges_monotone; [lia | exact Hpos |].
    assert (0 <= mathRound (0 * inject_Z scale)); [|lia].
    unfold mathRound. rewrite <- (Qfloor_Z 0) at 1. apply Qfloor_resp_le.
    change (inject_Z 0) with 0%Q. lra. }
  assert (Hl : lastEnd 0 rows = scale) by (apply last_end_is_scale; [exact Hvalid | lia]).
  constructor; try assumption.
  - intros Hnil. destruct Hvalid as [Hne _].
    apply (f_equal (@length _)) in Hnil. unfold rows in Hnil.
    rewrite assignRanges_length, accumulate_length in Hnil.
    destruct dist; [congruence | discriminate].
  - intros r Hr. destruct (hits_chain r rows 0 Hc Hm) as [_ ->]. rewrite Hl.
    destruct (0 <? r) eqn:E1, (r <=? scale) eqn:E2; simpl; try reflexivity; lia.
  - intros r. destruct (hits_chain r rows 0 Hc Hm) as [_ ->].
    destruct ((0 <? r) && (r <=? lastEnd 0 rows)); lia.
Qed.

(** The page's own demand distribution at scale 100. *)
Lemma buildCumulative_partitions_witness :
  exists rows, buildCumulative defaultDemand 100 = Ok rows /\ partitions 100 rows.
Proof.
  apply (buildCumulative_partitions defaultDemand 100).
  - split; [discriminate | vm_compute; discriminate].
  - repeat constructor; vm_compute; discriminate.
  - lia.
Defined.

(** C1 fails as stated at two inputs.  At scale 1000 the probabilities 0.5 and
    0.4992 are accepted but the last row ends at 999; at scale 100 the
    probabilities 0.75, -0.25, 0.5 are accepted but 60 lies in two rows. *)
Lemma buildCumulative_partition_counterexample :
  (validDistribution shortSum /\
   exists rows, buildCumulative shortSum 1000 = Ok rows /\
                lastEnd 0 rows = 999 /\ ~ partitions 1000 rows)
  /\
  (validDistribution negativeRow /\
   (Qabs (totalProbability negativeRow - 1) == 0)%Q /\
   exists rows, buildCumulative negativeRow 100 = Ok rows /\
                hits 60 rows = 2%nat /\ ~ partitions 100 rows).
Proof.
  split.
  - split; [split; [discriminate | vm_compute; discriminate]|].
    eexists. split; [vm_compute; reflexivity|].
    split; [reflexivity|].
    intros [_ _ Hlast _ _]. vm_compute in Hlast. discriminate.
  - split; [split; [discriminate | vm_compute; discriminate]|].
    split; [reflexivity|].
    eexists. split; [vm_compute; reflexivity|].
    split; [reflexivity|].
    intros [_ _ _ _ Hover]. specialize (Hover 60). vm_compute in Hover. lia.
Qed.

(** Shared by the simulators: a table built at a scale from 1 to 500 maps
    every integer of [[0, scale]]. *)
Lemma mapRandomToValue_found (dist : list DistRow) (scale r : Z)
    (rows : list CumulativeRow) :
  buildCumulative dist scale = Ok rows ->
  1 <= scale <= 500 ->
  0 <= r <= scale ->
  exists row, In row rows /\
              inRange (normalize r scale) row = true /\
              mapRandomToValue r rows scale = Some (cum_value row).
Proof.
  intros Hbuild Hscale Hr.
  pose proof (buildCumulative_Ok_valid _ _ _ Hbuild) as Hvalid.
  rewrite (buildCumulative_valid _ scale Hvalid) in Hbuild.
  injection Hbuild as <-.
  set (rows := assignRanges scale 0 (fst (accumulate 0 dist))).
  destruct (find_chain (normalize r scale) rows 0) as (row & Hf & Hin & Hr').
  - apply assignRanges_contiguous.
  - unfold rows. rewrite last_end_is_scale by (auto; lia).
    unfold normalize. destruct (r =? 0) eqn:E; lia.
  - exists row. repeat split; auto.
    unfold mapRandomToValue. now rewrite Hf.
Qed.

Lemma accumulate_values (dist : list DistRow) (s : Q) :
  map cum_value (fst (accumulate s dist)) = map value dist.
Proof.
  revert s; induction dist as [|row rest IH]; intros s; simpl; [reflexivity|].
  specialize (IH (s + probability row)%Q).
  destruct (accumulate (s + probability row) rest) as [rows total]; simpl in *.
  now rewrite IH.
Qed.

Lemma assignRanges_values scale prev rows :
  map cum_value (assignRanges scale prev rows) = map cum_value rows.
Proof.
  revert prev; induction rows as [|row rest IH]; intros prev; simpl; [reflexivity|].
  now rewrite IH.
Qed.

(** The values of a built table are the values of its distribution, in order. *)
Lemma buildCumulative_values (dist : list DistRow) (scale : Z)
    (rows : list CumulativeRow) :
  buildCumulative dist scale = Ok rows -> map cum_value rows = map value dist.
Proof.
  intros Hbuild.
  pose proof (buildCumulative_Ok_valid _ _ _ Hbuild) as Hvalid.
  rewrite (buildCumulative_valid _ scale Hvalid) in Hbuild. injection Hbuild as <-.
  now rewrite assignRanges_values, accumulate_values.
Qed.

(** A mapped value is the value of one of the rows. *)
Lemma mapRandomToValue_In (r scale v : Z) (rows : list CumulativeRow) :
  mapRandomToValue r rows scale = Some v -> In v (map cum_value rows).
Proof.
  unfold mapRandomToValue.
  destruct (find _ rows) as [row|] eqn:E; simpl; [|discriminate].
  intros H; injection H as <-. apply find_some in E. apply in_map. tauto.
Qed.

(** Digit [i] of a stream of in-range digits exists and is mapped. *)
Lemma digit_maps (dist : list DistRow) (scale : Z) (rows : list CumulativeRow)
    (nums : list Z) (i : nat) :
  buildCumulative dist scale = Ok rows ->
  1 <= scale <= 500 ->
  Forall (fun d => 1 <= d <= scale) nums ->
  (i < length nums)%nat ->
  exists d v, nth_error nums i = Some d /\ 1 <= d <= scale /\
              mapRandomToValue d rows scale = Some v.
Proof.
  intros Hb Hscale Hd Hi.
  destruct (nth_error nums i) as [d|] eqn:E;
    [|apply nth_error_None in E; lia].
  assert (Hr : 1 <= d <= scale).
  { rewrite Forall_forall in Hd. apply Hd. eapply nth_error_In; eauto. }
  destruct (mapRandomToValue_found dist scale d rows Hb Hscale) as (row & _ & _ & Hm);
    [lia|].
  exists d, (cum_value row). auto.
Qed.



(** Why the scale is bounded: at scale 1000, which no page passes, the
    tolerance lets the table of 0.5 and 0.4992 end at 999, and the draw 1000
    is in no row. *)
Lemma mapRandomToValue_scale_1000 :
  validDistribution shortSum /\
  exists rows, buildCumulative shortSum 1000 = Ok rows /\
               0 <= 1000 <= 1000 /\
               mapRandomToValue 1000 rows 1000 = None.
Proof.
  split; [split; [discriminate | vm_compute; discriminate]|].
  eexists. split; [vm_compute; reflexivity|].
  split; [lia | reflexivity].
Qed.

End TableFacts.

(** ** Facts about the single-server ledger *)

Module SingleServerFacts.
Import SingleServer.

Section Loop.

Variables arrivalDist serviceDist : list Tables.DistRow.
Variables arrivalRows serviceRows : list Tables.CumulativeRow.
Variables arrivalNums serviceNums : list Z.

Hypothesis arrival_table : buildCumulative arrivalDist = Ok arrivalRows.
Hypothesis service_table : buildCumulative serviceDist = Ok serviceRows.
Hypothesis arrival_digits : Forall (fun d => 1 <= d <= 100) arrivalNums.
Hypothesis service_digits : Forall (fun d => 1 <= d <= 100) serviceNums.

Let step := simulateCustomer arrivalRows serviceRows arrivalNums serviceNums.
Let obeys := obeysRecurrence arrivalRows serviceRows arrivalNums serviceNums.

Lemma single_digit_maps (dist : list Tables.DistRow) rows nums i :
  buildCumulative dist = Ok rows ->
  Forall (fun d => 1 <= d <= 100) nums ->
  (i < length nums)%nat ->
  exists d v, nth_error nums i = Some d /\ mapRandomToValue d rows = Some v.
Proof.
  intros Hb Hd Hi.
  destruct (TableFacts.digit_maps dist 100 rows nums i Hb) as (d & v & H1 & _ & H2);
    try assumption; try lia.
  exists d, v. auto.
Qed.

(** Appending rows does not disturb the recurrence of earlier rows. *)
Lemma obeys_app table extra i row :
  (i < length table)%nat -> obeys table i row -> obeys (table ++ extra) i row.
Proof.
  unfold obeys, obeysRecurrence. intros Hi [H rest]. split; [|exact rest].
  destruct i as [|j]; [exact H|].
  destruct H as (prev & digit & Hp & Hd). exists prev, digit. split; [|exact Hd].
  rewrite nth_error_app1 by lia. exact Hp.
Qed.

(** One turn of the loop pushes one row, and that row obeys the recurrence. *)
Lemma single_simulateCustomer_ok table i :
  length table = i ->
  (i < length serviceNums)%nat ->
  (i <= length arrivalNums)%nat ->
  exists row, step table i = Ok (table ++ [row]) /\ obeys (table ++ [row]) i row.
Proof.
  intros Hlen Hs Ha. unfold step, simulateCustomer.
  destruct (single_digit_maps serviceDist serviceRows serviceNums i service_table service_digits Hs)
    as (ds & vs & Hds & Hvs).
  rewrite Hds. simpl mapDigit. rewrite Hvs.
  destruct i as [|j].
  - simpl. eexists. split; [reflexivity|].
    unfold obeys, obeysRecurrence; simpl.
    repeat split; try reflexivity. exists ds. auto.
  - change (S j =? 0)%nat with false. cbv iota.
    replace (S j - 1)%nat with j by lia.
    destruct (single_digit_maps arrivalDist arrivalRows arrivalNums j arrival_table arrival_digits)
      as (da & va & Hda & Hva); [lia|].
    rewrite Hda. simpl mapDigit. rewrite Hva.
    destruct (nth_error table j) as [prev|] eqn:Ep;
      [|apply nth_error_None in Ep; lia].
    simpl. eexists. split; [reflexivity|].
    unfold obeys, obeysRecurrence; simpl.
    split; [|repeat split; try reflexivity; exists ds; auto].
    exists prev, da. rewrite nth_error_app1 by lia. repeat split; auto.
Qed.

(** The whole loop: [n] more customers after the first [k]. *)
Lemma single_loop_ok n : forall k table,
  length table = k ->
  (k + n <= length serviceNums)%nat ->
  (k + n - 1 <= length arrivalNums)%nat ->
  (forall i row, nth_error table i = Some row -> obeys table i row) ->
  exists table',
    forEachM step (seq k n) table = Ok table' /\
    length table' = (k + n)%nat /\
    forall i row, nth_error table' i = Some row -> obeys table' i row.
Proof.
  induction n as [|n IH]; intros k table Hlen Hs Ha Hinv; simpl.
  - exists table. split; [reflexivity|]. split; [lia | exact Hinv].
  - destruct (single_simulateCustomer_ok table k Hlen) as (row & Hstep & Hrow); try lia.
    rewrite Hstep. simpl.
    destruct (IH (S k) (table ++ [row])) as (table' & Hrun & Hlen' & Hinv').
    + rewrite length_app. simpl. lia.
    + lia.
    + lia.
    + intros i r Hi.
      destruct (Nat.lt_ge_cases i (length table)) as [Hlt|Hge].
      * rewrite nth_error_app1 in Hi by exact Hlt.
        apply obeys_app; auto.
      * assert (i = k).
        { assert (Hlt : (i < length (table ++ [row]))%nat)
            by (apply nth_error_Some; congruence).
          rewrite length_app in Hlt. simpl in Hlt. lia. }
        subst i. rewrite nth_error_app2 in Hi by lia.
        rewrite Hlen, Nat.sub_diag in Hi. simpl in Hi. injection Hi as <-. exact Hrow.
    + exists table'. split; [exact Hrun|]. split; [lia | exact Hinv'].
Qed.

End Loop.

Lemma single_parseDigits_length numbers : length (parseDigits numbers) = length numbers.
Proof. apply length_map. Qed.

Lemma single_parseDigits_range numbers :
  Forall (fun d => 0 <= d <= 100) numbers ->
  Forall (fun d => 1 <= d <= 100) (parseDigits numbers).
Proof.
  intros H. unfold parseDigits. apply Forall_map.
  eapply Forall_impl; [|exact H]. intros d Hd; cbv beta in *.
  destruct (Z.eqb_spec d 0); lia.
Qed.

Lemma digits_in_range_check nums :
  Forall (fun d => 1 <= d <= 100) nums ->
  existsb (fun d => (d <? 1) || (100 <? d)) nums = false.
Proof.
  induction 1 as [|d l Hd _ IH]; simpl; [reflexivity|].
  rewrite IH. destruct (Z.ltb_spec d 1), (Z.ltb_spec 100 d); simpl; try reflexivity; lia.
Qed.

(** C3: a single-server run with [count >= 1] customers, valid arrival and
    service distributions, at least [count - 1] arrival digits and [count]
    service digits, all in [[0, 100]], produces a ledger of [count] rows and
    every row [i] obeys the recurrence: interarrival and arrival are 0 for
    [i = 0]; for [i > 0] the interarrival time is the mapped value of arrival
    digit [i - 1] and [arrival_i = arrival_(i-1) + interarrival_i];
    [serviceStart_i = max(arrival_i, serviceEnd_(i-1))] with 0 before the
    first row; [waiting_i = serviceStart_i - arrival_i];
    [idle_i = serviceStart_i - serviceEnd_(i-1)];
    [serviceEnd_i = serviceStart_i + serviceTime_i]; and
    [timeInSystem_i = waiting_i + serviceTime_i]. *)
Theorem single_server_recurrence
    (arrival service : list Tables.DistRow)
    (arrivalDigits serviceDigits : list Z) (count : Z) :
  1 <= count ->
  Tables.validDistribution arrival ->
  Tables.validDistribution service ->
  count - 1 <= Z.of_nat (length arrivalDigits) ->
  count <= Z.of_nat (length serviceDigits) ->
  Forall (fun d => 0 <= d <= 100) arrivalDigits ->
  Forall (fun d => 0 <= d <= 100) serviceDigits ->
  exists arrivalRows serviceRows table,
    buildCumulative arrival = Ok arrivalRows /\
    buildCumulative service = Ok serviceRows /\
    runSimulation arrival service arrivalDigits serviceDigits count = Ok table /\
    Z.of_nat (length table) = count /\
    forall i row,
      nth_error table i = Some row ->
      obeysRecurrence arrivalRows serviceRows
        (parseDigits arrivalDigits) (parseDigits serviceDigits) table i row.
Proof.
  intros Hcount Ha Hs Hla Hls Hda Hds.
  pose proof (TableFacts.buildCumulative_valid arrival 100 Ha) as Hba.
  pose proof (TableFacts.buildCumulative_valid service 100 Hs) as Hbs.
  eexists _, _.
  destruct (single_loop_ok arrival service _ _ (parseDigits arrivalDigits) (parseDigits serviceDigits)
              Hba Hbs (single_parseDigits_range _ Hda) (single_parseDigits_range _ Hds)
              (Z.to_nat count) 0%nat [])
    as (table & Hrun & Hlen & Hinv).
  - reflexivity.
  - rewrite single_parseDigits_length. lia.
  - rewrite single_parseDigits_length. lia.
  - intros [|i] row Hi; discriminate.
  - exists table. split; [exact Hba|]. split; [exact Hbs|].
    split; [|split; [simpl in Hlen; lia | exact Hinv]].
    unfold runSimulation, buildCumulative. rewrite Hba, Hbs. cbn [named bind].
    replace (count <? 1) with false by lia.
    rewrite !single_parseDigits_length.
    replace (Z.of_nat (length arrivalDigits) <? count - 1) with false by lia.
    replace (Z.of_nat (length serviceDigits) <? count) with false by lia.
    rewrite digits_in_range_check
      by (apply Forall_app; split; apply single_parseDigits_range; assumption).
    simpl. exact Hrun.
Qed.

(** The scenario of the specification: two customers, arrival digit 50,
    service digits 10 and 90. *)
Lemma single_server_recurrence_witness :
  exists arrivalRows serviceRows table,
    buildCumulative [Tables.mkDistRow 1 (1 # 2); Tables.mkDistRow 2 (1 # 2)] = Ok arrivalRows /\
    buildCumulative [Tables.mkDistRow 2 (1 # 2); Tables.mkDistRow 3 (1 # 2)] = Ok serviceRows /\
    runSimulation [Tables.mkDistRow 1 (1 # 2); Tables.mkDistRow 2 (1 # 2)]
                  [Tables.mkDistRow 2 (1 # 2); Tables.mkDistRow 3 (1 # 2)]
                  [50] [10; 90] 2 = Ok table /\
    Z.of_nat (length table) = 2 /\
    forall i row,
      nth_error table i = Some row ->
      obeysRecurrence arrivalRows serviceRows
        (parseDigits [50]) (parseDigits [10; 90]) table i row.
Proof.
  apply single_server_recurrence.
  - lia.
  - split; [discriminate | vm_compute; discriminate].
  - split; [discriminate | vm_compute; discriminate].
  - simpl; lia.
  - simpl; lia.
  - repeat constructor; lia.
  - repeat constructor; lia.
Defined.

(** The scenario of the specification, evaluated: customer 1 arrives at 0, is
    served for 2 and leaves at 2; for customer 2 the digit 50 maps to the
    interarrival time 1, so it arrives at 1 and starts service at
    [max(1, 2) = 2]. *)
Example single_server_scenario :
  option_map
    (map (fun row => (arrival row, service row, serviceStart row, serviceEnd row,
                      waiting row, idle row)))
    (match runSimulation [Tables.mkDistRow 1 (1 # 2); Tables.mkDistRow 2 (1 # 2)]
                         [Tables.mkDistRow 2 (1 # 2); Tables.mkDistRow 3 (1 # 2)]
                         [50] [10; 90] 2 with
     | Ok table => Some table
     | Err _ => None
     end)
  = Some [(0, 2, 0, 2, 0, 0); (1, 3, 2, 5, 1, 0)].
Proof. vm_compute. reflexivity. Qed.

End SingleServerFacts.

(** ** Facts about the two-server ledger *)

Module MultiServerFacts.
Import MultiServer.

Lemma onlyFor_same s x : onlyFor s s x = Some x.
Proof. now destruct s. Qed.

Lemma Server_eqb_eq a b : Server_eqb a b = true <-> a = b.
Proof. destruct a, b; simpl; split; congruence. Qed.

(** The branch picks the server by the rule and moves only that server's
    busy-until time, to the end of the new service. *)
Lemma assign_rule priorityServer busy1 busy2 t s1 s2 :
  let a := assign priorityServer busy1 busy2 t s1 s2 in
  (busy1 <= t /\ busy2 <= t ->
     a_serverUsed a = priorityServer /\ a_waiting a = 0 /\ a_serviceStart a = t) /\
  (busy1 <= t /\ ~ busy2 <= t ->
     a_serverUsed a = Server1 /\ a_waiting a = 0 /\ a_serviceStart a = t) /\
  (~ busy1 <= t /\ busy2 <= t ->
     a_serverUsed a = Server2 /\ a_waiting a = 0 /\ a_serviceStart a = t) /\
  (~ busy1 <= t /\ ~ busy2 <= t ->
     a_serverUsed a = (if busy1 <=? busy2 then Server1 else Server2) /\
     a_serviceStart a = Z.min busy1 busy2 /\
     a_waiting a = Z.min busy1 busy2 - t) /\
  a_server1End a = (if Server_eqb (a_serverUsed a) Server1 then a_serviceEnd a else busy1) /\
  a_server2End a = (if Server_eqb (a_serverUsed a) Server2 then a_serviceEnd a else busy2).
Proof.
  unfold assign.
  destruct (Z.leb_spec busy1 t), (Z.leb_spec busy2 t), (Z.leb_spec busy1 busy2),
           priorityServer; simpl; repeat split; intros; try reflexivity; lia.
Qed.

Lemma busyUntil_app s rows row :
  busyUntil s (rows ++ [row]) =
  match endOn s row with Some e => e | None => busyUntil s rows end.
Proof. unfold busyUntil. now rewrite fold_left_app. Qed.

Section Loop.

Variable priorityServer : Server.
Variables arrivalDist service1Dist service2Dist : list Tables.DistRow.
Variables arrivalRows service1Rows service2Rows : list Tables.CumulativeRow.
Variables arrivalNums serviceNums : list Z.

Hypothesis arrival_table : buildCumulative arrivalDist = Ok arrivalRows.
Hypothesis service1_table : buildCumulative service1Dist = Ok service1Rows.
Hypothesis service2_table : buildCumulative service2Dist = Ok service2Rows.
Hypothesis arrival_digits : Forall (fun d => 1 <= d <= 100) arrivalNums.
Hypothesis service_digits : Forall (fun d => 1 <= d <= 100) serviceNums.

Let step := simulateCustomer priorityServer arrivalRows service1Rows service2Rows
              arrivalNums serviceNums.

Let ledgerFollowsRule := ledgerFollowsRule priorityServer.
Let invariant := invariant priorityServer.

Lemma multi_digit_maps (dist : list Tables.DistRow) rows nums i :
  buildCumulative dist = Ok rows ->
  Forall (fun d => 1 <= d <= 100) nums ->
  (i < length nums)%nat ->
  exists d v, nth_error nums i = Some d /\ mapRandomToValue d rows = Some v.
Proof.
  intros Hb Hd Hi.
  destruct (TableFacts.digit_maps dist 100 rows nums i Hb) as (d & v & H1 & _ & H2);
    try assumption; try lia.
  exists d, v. auto.
Qed.

Lemma multi_simulateCustomer_ok st i :
  invariant i st ->
  (i < length serviceNums)%nat ->
  (i <= length arrivalNums)%nat ->
  exists st', step st i = Ok st' /\ invariant (S i) st'.
Proof.
  intros (Hlen & Hb1 & Hb2 & Hrule) Hs Ha. unfold step, simulateCustomer.
  unfold ledgerFollowsRule, MultiServer.ledgerFollowsRule in Hrule.
  destruct (multi_digit_maps service1Dist service1Rows serviceNums i service1_table service_digits Hs)
    as (ds & v1 & Hds & Hv1).
  destruct (multi_digit_maps service2Dist service2Rows serviceNums i service2_table service_digits Hs)
    as (ds' & v2 & Hds' & Hv2).
  rewrite Hds in Hds'. injection Hds' as <-.
  rewrite Hds. simpl mapDigit. rewrite Hv1, Hv2.
  assert (Harr : exists ra ia t,
             (if (i =? 0)%nat then Some 0 else nth_error arrivalNums (i - 1)) = Some ra /\
             (if (i =? 0)%nat then Some 0
              else mapDigit (if (i =? 0)%nat then Some 0 else nth_error arrivalNums (i - 1))
                            arrivalRows) = Some ia /\
             (if (i =? 0)%nat then Some 0 else
                option_map (fun prev => arrival prev + ia) (nth_error (table st) (i - 1)))
             = Some t).
  { destruct i as [|j].
    - exists 0, 0, 0. auto.
    - change (S j =? 0)%nat with false. cbv iota.
      replace (S j - 1)%nat with j by lia.
      destruct (multi_digit_maps arrivalDist arrivalRows arrivalNums j arrival_table arrival_digits)
        as (da & va & Hda & Hva); [lia|].
      destruct (nth_error (table st) j) as [prev|] eqn:Ep;
        [|apply nth_error_None in Ep; lia].
      exists da, va, (arrival prev + va). rewrite Hda. simpl. auto. }
  destruct Harr as (ra & ia & t & Hra & Hia & Ht).
  rewrite Hia, Hra, Ht.
  eexists. split; [reflexivity|].
  pose proof (assign_rule priorityServer (server1End st) (server2End st) t v1 v2) as Hassign.
  set (a := assign priorityServer (server1End st) (server2End st) t v1 v2) in *.
  cbv zeta in Hassign. clearbody a.
  destruct Hassign as (Hff & Hfb & Hbf & Hbb & He1 & He2).
  unfold invariant, MultiServer.invariant; simpl table; simpl server1End; simpl server2End.
  split; [rewrite length_app; simpl; lia|].
  split; [rewrite busyUntil_app; simpl; rewrite He1, <- Hb1;
          unfold onlyFor; destruct (a_serverUsed a); reflexivity|].
  split; [rewrite busyUntil_app; simpl; rewrite He2, <- Hb2;
          unfold onlyFor; destruct (a_serverUsed a); reflexivity|].
  intros n row Hn.
  destruct (Nat.lt_ge_cases n (length (table st))) as [Hlt|Hge].
  - rewrite nth_error_app1 in Hn by exact Hlt.
    rewrite firstn_app. replace (n - length (table st))%nat with 0%nat by lia.
    simpl firstn. rewrite app_nil_r. apply Hrule, Hn.
  - assert (n = length (table st)).
    { assert (Hlt : (n < length (table st ++ [row]))%nat).
      { rewrite length_app. simpl.
        assert (n < length (table st ++ [mkSimulationRow (Z.of_nat i + 1) ra ia t ds
                   (onlyFor Server1 (a_serverUsed a) v1)
                   (onlyFor Server1 (a_serverUsed a) (a_serviceStart a))
                   (onlyFor Server1 (a_serverUsed a) (a_serviceEnd a))
                   (onlyFor Server2 (a_serverUsed a) v2)
                   (onlyFor Server2 (a_serverUsed a) (a_serviceStart a))
                   (onlyFor Server2 (a_serverUsed a) (a_serviceEnd a))
                   (a_waiting a) (a_idle1 a) (a_idle2 a)
                   (a_waiting a + a_serviceTime a) (Some (a_serverUsed a))]))%nat
          by (apply nth_error_Some; congruence).
        rewrite length_app in H. simpl in H. lia. }
      rewrite length_app in Hlt. simpl in Hlt. lia. }
    subst n. rewrite nth_error_app2 in Hn by lia.
    rewrite Nat.sub_diag in Hn. simpl in Hn. injection Hn as <-.
    rewrite firstn_app, Nat.sub_diag, firstn_all. simpl firstn. rewrite app_nil_r.
    rewrite <- Hb1, <- Hb2.
    unfold followsRule, serviceStartOf; simpl.
    repeat split.
    + f_equal. now apply Hff.
    + now apply Hff.
    + destruct Hff as (Hu & _ & Hst); [assumption|].
      destruct (a_serverUsed a); simpl; now rewrite Hst.
    + f_equal. now apply Hfb.
    + now apply Hfb.
    + destruct Hfb as (Hu & _ & Hst); [assumption|]. rewrite Hu. simpl. now rewrite Hst.
    + f_equal. now apply Hbf.
    + now apply Hbf.
    + destruct Hbf as (Hu & _ & Hst); [assumption|]. rewrite Hu. simpl. now rewrite Hst.
    + f_equal. now apply Hbb.
    + destruct Hbb as (Hu & Hst & _); [assumption|].
      destruct (a_serverUsed a); simpl; now rewrite Hst.
    + now apply Hbb.
Qed.

Lemma multi_loop_ok n : forall k st,
  invariant k st ->
  (k + n <= length serviceNums)%nat ->
  (k + n - 1 <= length arrivalNums)%nat ->
  exists st', forEachM step (seq k n) st = Ok st' /\ invariant (k + n) st'.
Proof.
  induction n as [|n IH]; intros k st Hinv Hs Ha; simpl.
  - exists st. split; [reflexivity|]. now rewrite Nat.add_0_r.
  - destruct (multi_simulateCustomer_ok st k Hinv) as (st1 & Hstep & Hinv1); try lia.
    rewrite Hstep. simpl.
    destruct (IH (S k) st1 Hinv1) as (st' & Hrun & Hinv'); try lia.
    exists st'. split; [exact Hrun|]. now replace (k + S n)%nat with (S k + n)%nat by lia.
Qed.

End Loop.

Lemma multi_parseDigits_length numbers : length (parseDigits numbers) = length numbers.
Proof. apply length_map. Qed.

Lemma multi_parseDigits_range numbers :
  Forall (fun d => 0 <= d <= 100) numbers ->
  Forall (fun d => 1 <= d <= 100) (parseDigits numbers).
Proof.
  intros H. unfold parseDigits. apply Forall_map.
  eapply Forall_impl; [|exact H]. intros d Hd; cbv beta in *.
  destruct (Z.eqb_spec d 0); lia.
Qed.

(** C4: a two-server run with [count >= 1] customers, valid distributions
    and enough digits in [[0, 100]] produces a ledger of [count] rows in which
    every customer is assigned by the rule.  With each server busy until the
    end of its latest earlier service (0 if none): when both are free at the
    arrival time the priority server serves and waiting is 0; when exactly one
    is free that one serves and waiting is 0; when both are busy the server
    with the smaller busy-until time serves (server 1 on a tie), service
    starts at that time and waiting is that time minus the arrival time. *)
Theorem multi_server_assignment (priorityServer : Server)
    (arrival service1 service2 : list Tables.DistRow)
    (arrivalDigits serviceDigits : list Z) (count : Z) :
  1 <= count ->
  Tables.validDistribution arrival ->
  Tables.validDistribution service1 ->
  Tables.validDistribution service2 ->
  count - 1 <= Z.of_nat (length arrivalDigits) ->
  count <= Z.of_nat (length serviceDigits) ->
  Forall (fun d => 0 <= d <= 100) arrivalDigits ->
  Forall (fun d => 0 <= d <= 100) serviceDigits ->
  exists rows,
    runSimulation priorityServer arrival service1 service2
                  arrivalDigits serviceDigits count = Ok rows /\
    Z.of_nat (length rows) = count /\
    forall i row,
      nth_error rows i = Some row ->
      followsRule priorityServer
        (busyUntil Server1 (firstn i rows)) (busyUntil Server2 (firstn i rows)) row.
Proof.
  intros Hcount Ha Hs1 Hs2 Hla Hls Hda Hds.
  pose proof (TableFacts.buildCumulative_valid arrival 100 Ha) as Hba.
  pose proof (TableFacts.buildCumulative_valid service1 100 Hs1) as Hb1.
  pose proof (TableFacts.buildCumulative_valid service2 100 Hs2) as Hb2.
  destruct (multi_loop_ok priorityServer arrival service1 service2 _ _ _
              (parseDigits arrivalDigits) (parseDigits serviceDigits)
              Hba Hb1 Hb2 (multi_parseDigits_range _ Hda) (multi_parseDigits_range _ Hds)
              (Z.to_nat count) 0%nat (mkState [] 0 0))
    as (st & Hrun & Hlen & _ & _ & Hrule).
  - split; [reflexivity|]. split; [reflexivity|]. split; [reflexivity|].
    intros [|i] row Hi; discriminate.
  - rewrite multi_parseDigits_length. lia.
  - rewrite multi_parseDigits_length. lia.
  - exists (table st). split; [|split; [simpl in Hlen; lia | exact Hrule]].
    unfold runSimulation, buildCumulative. rewrite Hba, Hb1, Hb2. cbn [named bind].
    replace (count <? 1) with false by lia.
    rewrite !multi_parseDigits_length.
    replace (Z.of_nat (length arrivalDigits) <? count - 1) with false by lia.
    replace (Z.of_nat (length serviceDigits) <? count) with false by lia.
    rewrite SingleServerFacts.digits_in_range_check
      by (apply Forall_app; split; apply multi_parseDigits_range; assumption).
    simpl. rewrite Hrun. reflexivity.
Qed.

(** The run the page starts with: eight customers, server 1 has priority. *)
Lemma multi_server_assignment_witness :
  exists rows,
    runSimulation Server1 defaultArrival defaultService defaultService
                  [15; 64; 12; 87; 34; 56; 90; 10] [5; 44; 70; 22; 91; 39; 60; 8] 8
    = Ok rows /\
    Z.of_nat (length rows) = 8 /\
    forall i row,
      nth_error rows i = Some row ->
      followsRule Server1
        (busyUntil Server1 (firstn i rows)) (busyUntil Server2 (firstn i rows)) row.
Proof.
  apply multi_server_assignment.
  - lia.
  - split; [discriminate | vm_compute; discriminate].
  - split; [discriminate | vm_compute; discriminate].
  - split; [discriminate | vm_compute; discriminate].
  - simpl; lia.
  - simpl; lia.
  - repeat constructor; lia.
  - repeat constructor; lia.
Defined.

(** The same run, evaluated: who serves each customer, and when. *)
Example multi_server_default_run :
  option_map
    (map (fun row => (arrival row, serverUsed row, serviceStartOf row, waiting row)))
    (match runSimulation Server1 defaultArrival defaultService defaultService
             [15; 64; 12; 87; 34; 56; 90; 10] [5; 44; 70; 22; 91; 39; 60; 8] 8 with
     | Ok rows => Some rows
     | Err _ => None
     end)
  = Some [ (0, Some Server1, Some 0, 0);   (1, Some Server2, Some 1, 0);
           (4, Some Server1, Some 4, 0);   (5, Some Server2, Some 5, 0);
           (8, Some Server1, Some 8, 0);   (10, Some Server2, Some 10, 0);
           (12, Some Server1, Some 12, 0); (15, Some Server1, Some 15, 0) ].
Proof. vm_compute. reflexivity. Qed.

(** Both servers busy: the customer waits for the one that frees first, and
    for server 1 on a tie. *)
Example both_busy :
  a_serverUsed (assign Server2 7 5 3 2 2) = Server2 /\
  a_serviceStart (assign Server2 7 5 3 2 2) = 5 /\
  a_waiting (assign Server2 7 5 3 2 2) = 2 /\
  a_serverUsed (assign Server2 6 6 3 2 2) = Server1 /\
  a_waiting (assign Server2 6 6 3 2 2) = 3.
Proof. repeat split; reflexivity. Qed.

End MultiServerFacts.

(** ** Facts about the inventory ledger *)

Module InventoryFacts.
Import Inventory.

(** *** One day *)

(** What a successful day did, piece by piece. *)
Lemma simulateDay_Ok cfg st c d st' :
  simulateDay cfg st (c, d) = Ok st' ->
  exists randDemand demandToday r,
    nth_error (demandNums cfg) (demandIndex st) = Some randDemand /\
    Tables.mapRandomToValue randDemand (demandRows cfg) 100 = Some demandToday /\
    let beginning := inventory st + arrivalsOn c d (pendingOrders st) in
    let settled := settleBacklog beginning (previousShortage (table st)) in
    let served := serveDemand (fst settled) (snd settled) demandToday in
    let pending := stillPending c d (pendingOrders st) in
    review cfg c d (fst served) (snd served) pending (leadTimeIndex st)
           (daysUntilNext c d pending) = Ok r /\
    st' = mkState
            (table st ++
             [mkSimulationRow c d beginning randDemand demandToday
                (fst served) (snd served)
                (r_orderQuantity r) (r_randLeadTime r) (r_daysUntilArrival r)])
            (fst served) (r_pendingOrders r) (S (demandIndex st)) (r_leadTimeIndex r).
Proof.
  unfold simulateDay. intros H.
  destruct (nth_error (demandNums cfg) (demandIndex st)) as [randDemand|]; [|discriminate].
  destruct (Tables.mapRandomToValue randDemand (demandRows cfg) 100) as [demandToday|] eqn:Em;
    [|discriminate].
  destruct (settleBacklog _ _) as [i2 a2] eqn:E1.
  destruct (serveDemand i2 a2 demandToday) as [e sh] eqn:E2.
  destruct (review _ _ _ _ _ _ _ _) as [r|msg] eqn:E3; [|discriminate].
  simpl in H. injection H as <-.
  exists randDemand, demandToday, r. cbv zeta. simpl fst; simpl snd.
  rewrite E2. simpl fst; simpl snd. auto.
Qed.

(** Open up a successful day [E] into its digit, demand, review and state. *)
Ltac open_day E rd dt r Hdigit Hmap Hreview Hafter :=
  let H := fresh "H" in
  pose proof (simulateDay_Ok _ _ _ _ _ E) as H; cbv zeta in H;
  destruct H as (rd & dt & r & Hdigit & Hmap & Hreview & Hafter).

(** What a successful review did. *)
Lemma review_Ok cfg c d ending short pending idx shown r :
  review cfg c d ending short pending idx shown = Ok r ->
  let Q := invLimit cfg - ending + short in
  r_orderQuantity r = (if d =? days cfg then Some Q else None) /\
  (d <> days cfg \/ Q <= 0 \/ nth_error (leadTimeNums cfg) idx = None ->
     r_pendingOrders r = pending /\ r_leadTimeIndex r = idx /\
     r_randLeadTime r = None /\ r_daysUntilArrival r = shown) /\
  (d = days cfg -> 0 < Q ->
   forall digit, nth_error (leadTimeNums cfg) idx = Some digit ->
     exists leadTimeDays,
       Tables.mapRandomToValue digit (leadTimeRows cfg) 10 = Some leadTimeDays /\
       r_pendingOrders r =
         pending ++ [mkPendingOrder Q (fst (orderArrival (days cfg) c d leadTimeDays))
                                      (snd (orderArrival (days cfg) c d leadTimeDays))] /\
       r_leadTimeIndex r = S idx /\
       r_randLeadTime r = Some digit /\
       r_daysUntilArrival r = Some leadTimeDays).
Proof.
  intros H. cbv zeta. unfold review in H.
  set (Q := invLimit cfg - ending + short) in *.
  destruct (Z.eqb_spec d (days cfg)) as [Hd|Hd].
  - destruct (Z.ltb_spec 0 Q) as [HQ|HQ].
    + destruct (nth_error (leadTimeNums cfg) idx) as [digit|] eqn:En.
      * destruct (Tables.mapRandomToValue digit (leadTimeRows cfg) 10) as [lead|] eqn:Em;
          [|discriminate].
        destruct (orderArrival (days cfg) c d lead) as [ac ad] eqn:Ea.
        injection H as <-. simpl.
        split; [reflexivity|]. split.
        -- intros [?|[?|?]]; [congruence | lia | discriminate].
        -- intros _ _ digit' Hdigit. injection Hdigit as <-.
           exists lead. unfold orderArrival in Ea. injection Ea as <- <-.
           simpl. auto 10.
      * injection H as <-. simpl.
        split; [reflexivity|]. split; [auto|]. intros _ _ digit Hdigit. discriminate.
    + injection H as <-. simpl.
      split; [reflexivity|]. split; [auto|]. intros _ HQ'. lia.
  - injection H as <-. simpl.
    split; [reflexivity|]. split; [auto|]. intros Hd'. congruence.
Qed.

(** *** The day loop *)

Lemma simulateCycles_schedule cfg cycles st :
  simulateCycles cfg cycles st =
  forEachM (simulateDay cfg) (schedule cycles (days cfg)) st.
Proof. unfold simulateCycles, schedule. apply LoopFacts.forEachM_nested. Qed.

(** Each successful day pushes exactly one row and consumes one demand digit. *)
Lemma inventory_loop_table cfg l : forall st st',
  forEachM (simulateDay cfg) l st = Ok st' ->
  exists extra, table st' = table st ++ extra /\ length extra = length l /\
                demandIndex st' = (demandIndex st + length l)%nat.
Proof.
  induction l as [|[c d] l IH]; intros st st' H; cbn [forEachM] in H.
  - injection H as <-. exists []. rewrite app_nil_r. simpl. auto.
  - destruct (simulateDay cfg st (c, d)) as [st1|msg] eqn:E; [|discriminate].
    cbn [bind] in H. destruct (IH _ _ H) as (extra & Ht & Hl & Hi).
    open_day E rd dt r Hdigit Hmap Hreview Hafter. subst st1.
    simpl in Ht, Hi. eexists (_ :: extra). rewrite Ht, <- app_assoc. simpl.
    split; [reflexivity|]. split; [now rewrite Hl | lia].
Qed.

(** Every day of a finished loop: the state before it, the state after it,
    and its row in the final ledger. *)
Lemma inventory_loop_trace cfg l st0 final n c d :
  table st0 = [] ->
  forEachM (simulateDay cfg) l st0 = Ok final ->
  nth_error l n = Some (c, d) ->
  exists before after row,
    forEachM (simulateDay cfg) (firstn n l) st0 = Ok before /\
    simulateDay cfg before (c, d) = Ok after /\
    length (table before) = n /\
    table after = table before ++ [row] /\
    nth_error (table final) n = Some row.
Proof.
  intros H0 Hrun Hn.
  destruct (LoopFacts.forEachM_turn _ _ _ _ _ _ Hrun Hn) as (before & after & H1 & H2 & H3).
  destruct (inventory_loop_table _ _ _ _ H1) as (rows1 & Ht1 & Hl1 & _).
  destruct (inventory_loop_table _ _ _ _ H3) as (rows3 & Ht3 & _ & _).
  open_day H2 rd dt r Hdigit Hmap Hreview Hafter.
  assert (Hlen : length (table before) = n).
  { rewrite Ht1, H0. simpl. rewrite Hl1, length_firstn.
    assert (n < length l)%nat by (apply nth_error_Some; congruence). lia. }
  exists before, after. eexists.
  split; [exact H1|]. split; [exact H2|]. split; [exact Hlen|].
  split; [rewrite Hafter; reflexivity|].
  rewrite Ht3, Hafter. simpl table. rewrite <- app_assoc. simpl.
  rewrite nth_error_app2 by lia. rewrite Hlen, Nat.sub_diag. reflexivity.
Qed.

(** The shortage accounting of the specification: with nothing on hand a
    demand of 3 leaves no stock and a backlog of 3; the next day a delivery of
    5 first pays the backlog, leaving 2 on hand before that day's demand. *)
Example shortage_accounting :
  serveDemand 0 0 3 = (0, 3) /\ settleBacklog (0 + 5) 3 = (2, 0).
Proof. split; reflexivity. Qed.

(** *** The checks before the loop *)

Lemma failIf_Ok {A : Type} cond msg (k : result A) a :
  (_ <- failIf cond msg ;; k) = Ok a -> cond = false /\ k = Ok a.
Proof. destruct cond; simpl; [discriminate | auto]. Qed.

Lemma named_Ok {A : Type} name (m : result A) a : named name m = Ok a -> m = Ok a.
Proof. destruct m; simpl; [auto | discriminate]. Qed.

Lemma inventory_parseDigits_range numbers scale :
  Forall (fun d => 1 <= d <= scale) (parseDigits numbers scale).
Proof.
  unfold parseDigits. apply Forall_forall. intros d Hd.
  apply filter_In in Hd. destruct Hd as [_ Hd]. lia.
Qed.

Lemma inventory_in_range_check scale nums :
  Forall (fun d => 1 <= d <= scale) nums ->
  existsb (fun d => (d <? 1) || (scale <? d)) nums = false.
Proof.
  induction 1 as [|d l Hd _ IH]; simpl; [reflexivity|].
  rewrite IH. destruct (Z.ltb_spec d 1), (Z.ltb_spec scale d); simpl; try reflexivity; lia.
Qed.

(** The checks pass exactly on valid parameters with enough demand digits;
    the lead-time digits play no part. *)
Lemma prepare_Ok inp cfg :
  prepare inp = Ok cfg ->
  validParameters inp /\ enoughDemandDigits inp /\
  exists demandRows leadTimeRows,
    Tables.buildCumulative (demand_dist inp) 100 = Ok demandRows /\
    Tables.buildCumulative (leadTime_dist inp) 10 = Ok leadTimeRows /\
    cfg = configOf inp demandRows leadTimeRows.
Proof.
  unfold prepare. intros H.
  apply failIf_Ok in H; destruct H as [C1 H].
  apply failIf_Ok in H; destruct H as [C2 H].
  apply failIf_Ok in H; destruct H as [C3 H].
  apply failIf_Ok in H; destruct H as [C4 H].
  apply failIf_Ok in H; destruct H as [C5 H].
  destruct (Tables.buildCumulative (demand_dist inp) 100) as [dr|] eqn:Ed;
    [|discriminate].
  destruct (Tables.buildCumulative (leadTime_dist inp) 10) as [lr|] eqn:El;
    [|discriminate].
  cbn [named bind] in H.
  apply failIf_Ok in H; destruct H as [C6 H].
  apply failIf_Ok in H; destruct H as [C7 H].
  apply failIf_Ok in H; destruct H as [C8 H].
  injection H as <-.
  split; [|split].
  - unfold validParameters.
    pose proof (TableFacts.buildCumulative_Ok_valid _ _ _ Ed) as Vd.
    pose proof (TableFacts.buildCumulative_Ok_valid _ _ _ El) as Vl.
    split; [lia|]. split; [lia|]. split; [lia|]. split; [lia|].
    split; [lia|]. split; [lia|]. split; assumption.
  - unfold enoughDemandDigits. lia.
  - exists dr, lr. auto.
Qed.

Lemma prepare_valid inp :
  validParameters inp -> enoughDemandDigits inp ->
  exists demandRows leadTimeRows,
    Tables.buildCumulative (demand_dist inp) 100 = Ok demandRows /\
    Tables.buildCumulative (leadTime_dist inp) 10 = Ok leadTimeRows /\
    prepare inp = Ok (configOf inp demandRows leadTimeRows).
Proof.
  intros (H1 & H2 & H3 & H4 & H5 & H6 & Hd & Hl) Hdigits.
  unfold enoughDemandDigits in Hdigits.
  pose proof (TableFacts.buildCumulative_valid _ 100 Hd) as Ed.
  pose proof (TableFacts.buildCumulative_valid _ 10 Hl) as El.
  eexists _, _. split; [exact Ed|]. split; [exact El|].
  unfold prepare. rewrite Ed, El. cbn [named].
  replace ((numCycles inp <? 1) || (daysPerCycle inp <? 1)) with false by lia.
  replace (initialInventory inp <? 0) with false by lia.
  replace (inventoryLimit inp <=? reorderPoint (demand_dist inp) (leadTime_dist inp))
    with false by lia.
  replace (initialOrderQuantity inp <? 0) with false by lia.
  replace (initialOrderLeadTime inp <? 0) with false by lia.
  cbn [failIf bind].
  replace (Z.of_nat (length (parseDigits (demandDigits inp) 100))
           <? numCycles inp * daysPerCycle inp) with false by lia.
  rewrite !inventory_in_range_check by apply inventory_parseDigits_range.
  reflexivity.
Qed.

(** Too few demand digits stop the run inside the checks. *)
Lemma prepare_short inp :
  Z.of_nat (length (parseDigits (demandDigits inp) 100))
  < numCycles inp * daysPerCycle inp ->
  exists msg, prepare inp = Err msg.
Proof.
  intros Hshort. unfold prepare.
  repeat match goal with
  | |- exists msg, (_ <- failIf ?c _ ;; _) = Err msg =>
      destruct c eqn:?; cbn [failIf bind]; [eexists; reflexivity|]
  | |- exists msg, (_ <- named _ ?m ;; _) = Err msg =>
      destruct m; cbn [named bind]; [|eexists; reflexivity]
  end.
  lia.
Qed.

(** *** The loop runs to the end *)

Section Totality.

Variable inp : Inputs.
Variables dRows lRows : list Tables.CumulativeRow.
Hypothesis demand_table :
  Tables.buildCumulative (demand_dist inp) 100 = Ok dRows.
Hypothesis leadTime_table :
  Tables.buildCumulative (leadTime_dist inp) 10 = Ok lRows.

Let cfg := configOf inp dRows lRows.

(** The review never fails: a lead-time digit, when there is one, is mapped. *)
Lemma review_total c d ending short pending idx shown :
  exists r, review cfg c d ending short pending idx shown = Ok r.
Proof.
  unfold review.
  destruct (d =? days cfg); [|eexists; reflexivity].
  destruct (0 <? invLimit cfg - ending + short); [|eexists; reflexivity].
  destruct (nth_error (leadTimeNums cfg) idx) as [digit|] eqn:En; [|eexists; reflexivity].
  assert (Hr : 1 <= digit <= 10).
  { pose proof (inventory_parseDigits_range (leadTimeDigits inp) 10) as Hall.
    rewrite Forall_forall in Hall. apply Hall. eapply nth_error_In. exact En. }
  destruct (TableFacts.mapRandomToValue_found _ 10 digit _ leadTime_table)
    as (row & _ & _ & Hm); [lia | lia |].
  change (leadTimeRows cfg) with lRows. rewrite Hm.
  destruct (orderArrival (days cfg) c d (Tables.cum_value row)). eexists; reflexivity.
Qed.

(** A day with a demand digit left never fails. *)
Lemma simulateDay_total st today :
  (demandIndex st < length (demandNums cfg))%nat ->
  exists st', simulateDay cfg st today = Ok st'.
Proof.
  intros Hi. destruct today as [c d]. unfold simulateDay.
  destruct (TableFacts.digit_maps _ 100 _ (demandNums cfg) (demandIndex st) demand_table)
    as (digit & v & Hd & _ & Hm);
    [lia | apply inventory_parseDigits_range | exact Hi |].
  rewrite Hd. change (demandRows cfg) with dRows. rewrite Hm.
  destruct (settleBacklog _ _) as [i2 a2].
  destruct (serveDemand i2 a2 v) as [e sh].
  destruct (review_total c d e sh (stillPending c d (pendingOrders st)) (leadTimeIndex st)
              (daysUntilNext c d (stillPending c d (pendingOrders st)))) as [r Hr].
  rewrite Hr. eexists; reflexivity.
Qed.

Lemma inventory_loop_total l : forall st,
  (demandIndex st + length l <= length (demandNums cfg))%nat ->
  exists st', forEachM (simulateDay cfg) l st = Ok st'.
Proof.
  induction l as [|today l IH]; intros st Hi; cbn [forEachM].
  - eexists; reflexivity.
  - cbn [length] in Hi. destruct (simulateDay_total st today) as [st1 H1]; [lia|].
    rewrite H1. cbn [bind].
    destruct (inventory_loop_table cfg [today] st st1) as (_ & _ & _ & Hidx).
    { cbn [forEachM]. rewrite H1. reflexivity. }
    apply IH. cbn [length] in Hidx. lia.
Qed.

End Totality.

Lemma upTo_length n : length (upTo n) = Z.to_nat n.
Proof. unfold upTo. now rewrite length_map, length_seq. Qed.

Lemma schedule_length cycles days :
  length (schedule cycles days) = (Z.to_nat cycles * Z.to_nat days)%nat.
Proof.
  unfold schedule. generalize (upTo cycles) (upTo_length cycles).
  intros l; revert cycles. induction l as [|c l IH]; intros cycles Hl; simpl in *.
  - now rewrite <- Hl.
  - rewrite length_app, length_map, upTo_length.
    rewrite (IH (Z.of_nat (length l))) by (rewrite Nat2Z.id; reflexivity).
    rewrite Nat2Z.id, <- Hl. simpl. reflexivity.
Qed.

(** Valid parameters and enough demand digits give a complete ledger,
    whatever the lead-time digits. *)
Lemma run_total inp :
  validParameters inp -> enoughDemandDigits inp ->
  exists cfg final,
    prepare inp = Ok cfg /\
    forEachM (simulateDay cfg) (schedule (numCycles inp) (daysPerCycle inp)) (startOf inp)
    = Ok final /\
    runSimulation inp = Ok (table final) /\
    Z.of_nat (length (table final)) = numCycles inp * daysPerCycle inp.
Proof.
  intros Hvalid Hdigits.
  destruct (prepare_valid inp Hvalid Hdigits) as (dr & lr & Ed & El & Hprep).
  destruct Hvalid as (H1 & H2 & _).
  assert (Hlen : length (schedule (numCycles inp) (daysPerCycle inp))
                 = Z.to_nat (numCycles inp * daysPerCycle inp)).
  { rewrite schedule_length. rewrite Z2Nat.inj_mul by lia. reflexivity. }
  destruct (inventory_loop_total inp dr lr Ed El (schedule (numCycles inp) (daysPerCycle inp))
              (startOf inp)) as [final Hrun].
  { simpl. rewrite Hlen. unfold enoughDemandDigits in Hdigits. lia. }
  exists (configOf inp dr lr), final.
  split; [exact Hprep|]. split; [exact Hrun|].
  destruct (inventory_loop_table _ _ _ _ Hrun) as (extra & Ht & Hl & _).
  split.
  - unfold runSimulation. rewrite Hprep. cbn [bind].
    rewrite simulateCycles_schedule. simpl days. unfold startOf in Hrun.
    rewrite Hrun. reflexivity.
  - rewrite Ht. simpl. rewrite Hl, Hlen. lia.
Qed.

(** A finished run, seen as its checks followed by the day loop. *)
Lemma run_Ok inp rows :
  runSimulation inp = Ok rows ->
  exists cfg final,
    prepare inp = Ok cfg /\
    days cfg = daysPerCycle inp /\ invLimit cfg = inventoryLimit inp /\
    forEachM (simulateDay cfg) (schedule (numCycles inp) (daysPerCycle inp)) (startOf inp)
    = Ok final /\
    rows = table final.
Proof.
  unfold runSimulation. intros H.
  destruct (prepare inp) as [cfg|] eqn:Hprep; [|discriminate]. cbn [bind] in H.
  rewrite simulateCycles_schedule in H.
  destruct (prepare_Ok _ _ Hprep) as (_ & _ & dr & lr & _ & _ & Hcfg).
  assert (Hdays : days cfg = daysPerCycle inp) by (rewrite Hcfg; reflexivity).
  assert (Hlim : invLimit cfg = inventoryLimit inp) by (rewrite Hcfg; reflexivity).
  rewrite Hdays in H.
  destruct (forEachM _ _ _) as [final|] eqn:Hrun; [|discriminate].
  injection H as <-. exists cfg, final. auto 10.
Qed.

(** *** The review (C5) *)

(** [mathCeilDiv] is the ceiling of the exact quotient. *)
Lemma mathCeilDiv_ceiling (a b : Z) :
  mathCeilDiv a b = Qceiling (inject_Z a / inject_Z b).
Proof.
  unfold mathCeilDiv, Qceiling. f_equal. rewrite Zdiv_Qdiv.
  apply Qfloor_comp. rewrite inject_Z_opp. unfold Qdiv. ring.
Qed.

Lemma upTo_In n x : In x (upTo n) <-> 1 <= x <= n.
Proof.
  unfold upTo. rewrite in_map_iff. split.
  - intros (k & <- & Hk). apply in_seq in Hk. lia.
  - intros Hx. exists (Z.to_nat x). split; [lia|]. apply in_seq. lia.
Qed.

(** The days visited are the days 1 to [days] of the cycles 1 to [cycles]. *)
Lemma schedule_In cycles days c d :
  In (c, d) (schedule cycles days) <-> 1 <= c <= cycles /\ 1 <= d <= days.
Proof.
  unfold schedule. rewrite in_flat_map. split.
  - intros (c' & Hc & Hd). apply in_map_iff in Hd. destruct Hd as (d' & Heq & Hd).
    injection Heq as <- <-. now rewrite upTo_In in Hc, Hd.
  - intros [Hc Hd]. exists c. rewrite upTo_In. split; [exact Hc|].
    apply in_map_iff. exists d. now rewrite upTo_In.
Qed.

(** C5 (as amended): in every inventory run that yields a ledger, for the
    [n]-th day ([c], [d]) of the horizon, with the loop state before and
    after that day: the row's order quantity is set exactly when [d] is the last day of
    the cycle, and then is
    [Q = inventoryLimit - endingInventory + accumulated shortage]; on any
    other day nothing is enqueued; and when [Q > 0] and a lead-time digit is
    available, that digit is mapped to a lead time and the order enqueued has
    quantity [Q] and arrives on absolute day
    [currentAbsoluteDay + leadTime + 1], that is in cycle
    [ceil(absDay / daysPerCycle)] on day [absDay % daysPerCycle], with 0
    standing for [daysPerCycle]; [%] is JavaScript's remainder, and it is
    [absDay mod daysPerCycle] when the lead time is not negative. *)
Theorem inventory_review (inp : Inputs) (rows : list SimulationRow) :
  runSimulation inp = Ok rows ->
  exists cfg, prepare inp = Ok cfg /\
  forall n c d,
    nth_error (schedule (numCycles inp) (daysPerCycle inp)) n = Some (c, d) ->
    (1 <= c <= numCycles inp /\ 1 <= d <= daysPerCycle inp) /\
    exists before after row,
      stateBefore cfg inp n = Ok before /\
      simulateDay cfg before (c, d) = Ok after /\
      nth_error rows n = Some row /\ cycle row = c /\ day row = d /\
      let days := daysPerCycle inp in
      let qty := inventoryLimit inp - endingInventory row + shortage row in
      orderQuantity row = (if d =? days then Some qty else None) /\
      (d <> days -> pendingOrders after = stillPending c d (pendingOrders before)) /\
      (d = days -> 0 < qty ->
       forall digit,
         nth_error (leadTimeNums cfg) (leadTimeIndex before) = Some digit ->
         exists leadTime,
           Tables.mapRandomToValue digit (leadTimeRows cfg) 10 = Some leadTime /\
           let currentAbsDay := (c - 1) * days + d in
           let absDay := currentAbsDay + leadTime + 1 in
           pendingOrders after =
             stillPending c d (pendingOrders before) ++
             [mkPendingOrder qty
                (Qceiling (inject_Z absDay / inject_Z days))
                (if Z.rem absDay days =? 0 then days else Z.rem absDay days)] /\
           (0 <= leadTime -> Z.rem absDay days = absDay mod days)).
Proof.
  intros Hrun.
  destruct (run_Ok _ _ Hrun) as (cfg & final & Hprep & Hdays & Hlim & Hloop & ->).
  exists cfg. split; [exact Hprep|].
  intros n c d Hn.
  assert (Hcd : 1 <= c <= numCycles inp /\ 1 <= d <= daysPerCycle inp).
  { apply schedule_In. eapply nth_error_In. exact Hn. }
  split; [exact Hcd|].
  destruct (inventory_loop_trace cfg _ (startOf inp) final n c d eq_refl Hloop Hn)
    as (before & after & row & Hbefore & Hday & _ & Hrow & Hnth).
  exists before, after, row.
  split; [exact Hbefore|]. split; [exact Hday|]. split; [exact Hnth|].
  open_day Hday rd dt r Hdigit Hmap Hreview Hafter.
  rewrite Hafter in Hrow. simpl table in Hrow.
  apply app_inv_head in Hrow. injection Hrow as <-.
  cbn [cycle day orderQuantity endingInventory shortage].
  split; [reflexivity|]. split; [reflexivity|].
  pose proof (review_Ok _ _ _ _ _ _ _ _ _ Hreview) as Hr. cbv zeta in Hr.
  rewrite Hdays, Hlim in Hr. destruct Hr as (Hq & Hnone & Hsome).
  rewrite Hafter. cbn [pendingOrders].
  split; [exact Hq|]. split.
  - intros Hd. apply Hnone. auto.
  - intros Hd Hpos digit Hdig.
    destruct (Hsome Hd Hpos digit Hdig) as (lead & Hm & Hp & _).
    exists lead. split; [exact Hm|]. split.
    + rewrite Hp. unfold orderArrival. cbn [fst snd].
      rewrite mathCeilDiv_ceiling. reflexivity.
    + intros Hlead. apply Z.rem_mod_nonneg; nia.
Qed.

(** The run the page starts with. *)
Lemma inventory_review_witness :
  exists cfg, prepare defaultInputs = Ok cfg /\
  forall n c d,
    nth_error (schedule 5 5) n = Some (c, d) ->
    (1 <= c <= 5 /\ 1 <= d <= 5) /\
    exists before after row,
      stateBefore cfg defaultInputs n = Ok before /\
      simulateDay cfg before (c, d) = Ok after /\
      nth_error (match runSimulation defaultInputs with Ok t => t | Err _ => [] end) n
      = Some row /\ cycle row = c /\ day row = d /\
      orderQuantity row =
        (if d =? 5 then Some (11 - endingInventory row + shortage row) else None) /\
      (d <> 5 -> pendingOrders after = stillPending c d (pendingOrders before)) /\
      (d = 5 -> 0 < 11 - endingInventory row + shortage row ->
       forall digit,
         nth_error (leadTimeNums cfg) (leadTimeIndex before) = Some digit ->
         exists leadTime,
           Tables.mapRandomToValue digit (leadTimeRows cfg) 10 = Some leadTime /\
           pendingOrders after =
             stillPending c d (pendingOrders before) ++
             [mkPendingOrder (11 - endingInventory row + shortage row)
                (Qceiling (inject_Z ((c - 1) * 5 + d + leadTime + 1) / inject_Z 5))
                (if Z.rem ((c - 1) * 5 + d + leadTime + 1) 5 =? 0 then 5
                 else Z.rem ((c - 1) * 5 + d + leadTime + 1) 5)] /\
           (0 <= leadTime ->
            Z.rem ((c - 1) * 5 + d + leadTime + 1) 5
            = ((c - 1) * 5 + d + leadTime + 1) mod 5)).
Proof.
  apply (inventory_review defaultInputs). vm_compute. reflexivity.
Defined.

(** C5 fails as stated when a lead time is negative.  The lead-time table
    is not checked for the sign of its values; with the only value -7, the
    review of day 5 of cycle 1 orders 9 units for absolute day
    [5 + (-7) + 1 = -1], and the order is enqueued for cycle 0 on day
    [-1 % 5 = -1], where [-1 mod 5] is 4. *)
Lemma inventory_review_counterexample :
  exists cfg rows before after row,
    prepare negativeLeadTime = Ok cfg /\
    runSimulation negativeLeadTime = Ok rows /\
    stateBefore cfg negativeLeadTime 4 = Ok before /\
    simulateDay cfg before (1, 5) = Ok after /\
    nth_error rows 4 = Some row /\ cycle row = 1 /\ day row = 5 /\
    orderQuantity row = Some 9 /\
    nth_error (leadTimeNums cfg) (leadTimeIndex before) = Some 5 /\
    Tables.mapRandomToValue 5 (leadTimeRows cfg) 10 = Some (-7) /\
    let absDay := (1 - 1) * 5 + 5 + (-7) + 1 in
    pendingOrders after = [mkPendingOrder 9 0 (-1)] /\
    absDay mod 5 = 4.
Proof.
  eexists _, _, _, _, _.
  split; [vm_compute; reflexivity|].
  split; [vm_compute; reflexivity|].
  split; [vm_compute; reflexivity|].
  split; [vm_compute; reflexivity|].
  split; [vm_compute; reflexivity|].
  vm_compute. repeat split.
Qed.

(** *** Digit exhaustion (C8) *)

(** C8: an inventory run with fewer usable demand digits than
    [cycles * daysPerCycle] fails in the checks, before the ledger exists.
    A run with valid parameters and enough demand digits, whatever its
    lead-time digits, raises no error and yields all
    [cycles * daysPerCycle] rows; on a day that finds the lead-time stream
    exhausted no order is enqueued, the row records no lead-time digit and
    the loop goes on. *)
Theorem inventory_digit_exhaustion (inp : Inputs) :
  (Z.of_nat (length (parseDigits (demandDigits inp) 100))
   < numCycles inp * daysPerCycle inp ->
   exists msg, prepare inp = Err msg /\ runSimulation inp = Err msg)
  /\
  (validParameters inp -> enoughDemandDigits inp ->
   exists cfg rows,
     prepare inp = Ok cfg /\
     runSimulation inp = Ok rows /\
     Z.of_nat (length rows) = numCycles inp * daysPerCycle inp /\
     forall n c d,
       nth_error (schedule (numCycles inp) (daysPerCycle inp)) n = Some (c, d) ->
       exists before after row,
         stateBefore cfg inp n = Ok before /\
         simulateDay cfg before (c, d) = Ok after /\
         nth_error rows n = Some row /\
         ((length (leadTimeNums cfg) <= leadTimeIndex before)%nat ->
          pendingOrders after = stillPending c d (pendingOrders before) /\
          randLeadTime row = None /\
          leadTimeIndex after = leadTimeIndex before)).
Proof.
  split.
  - intros Hshort. destruct (prepare_short inp Hshort) as [msg Hmsg].
    exists msg. split; [exact Hmsg|]. unfold runSimulation. now rewrite Hmsg.
  - intros Hvalid Hdigits.
    destruct (run_total inp Hvalid Hdigits) as (cfg & final & Hprep & Hloop & Hrun & Hlen).
    exists cfg, (table final).
    split; [exact Hprep|]. split; [exact Hrun|]. split; [exact Hlen|].
    intros n c d Hn.
    destruct (inventory_loop_trace cfg _ (startOf inp) final n c d eq_refl Hloop Hn)
      as (before & after & row & Hbefore & Hday & _ & Hrow & Hnth).
    exists before, after, row.
    split; [exact Hbefore|]. split; [exact Hday|]. split; [exact Hnth|].
    intros Hout.
    open_day Hday rd dt r Hdigit Hmap Hreview Hafter.
    rewrite Hafter in Hrow. simpl table in Hrow.
    apply app_inv_head in Hrow. injection Hrow as <-.
    pose proof (review_Ok _ _ _ _ _ _ _ _ _ Hreview) as Hr. cbv zeta in Hr.
    destruct Hr as (_ & Hnone & _).
    destruct Hnone as (Hp & Hi & Hl & _).
    { right; right. now apply nth_error_None. }
    rewrite Hafter. cbn [pendingOrders randLeadTime leadTimeIndex]. auto.
Qed.

(** Four demand digits too few; and a single lead-time digit for five reviews. *)
Lemma inventory_digit_exhaustion_witness :
  (exists msg, prepare shortDemand = Err msg /\ runSimulation shortDemand = Err msg)
  /\
  (exists cfg rows,
     prepare oneLeadDigit = Ok cfg /\
     runSimulation oneLeadDigit = Ok rows /\
     Z.of_nat (length rows) = 5 * 5 /\
     forall n c d,
       nth_error (schedule 5 5) n = Some (c, d) ->
       exists before after row,
         stateBefore cfg oneLeadDigit n = Ok before /\
         simulateDay cfg before (c, d) = Ok after /\
         nth_error rows n = Some row /\
         ((length (leadTimeNums cfg) <= leadTimeIndex before)%nat ->
          pendingOrders after = stillPending c d (pendingOrders before) /\
          randLeadTime row = None /\
          leadTimeIndex after = leadTimeIndex before)).
Proof.
  split.
  - apply (proj1 (inventory_digit_exhaustion shortDemand)). vm_compute. reflexivity.
  - apply (proj2 (inventory_digit_exhaustion oneLeadDigit)).
    + unfold validParameters. cbn -[Z.lt Z.le reorderPoint Tables.validDistribution].
      split; [lia|]. split; [lia|]. split; [lia|].
      split; [vm_compute; reflexivity|]. split; [lia|]. split; [lia|].
      split; (split; [discriminate | vm_compute; discriminate]).
    + unfold enoughDemandDigits. vm_compute. discriminate.
Defined.

(** *** Stock or backlog (C10) *)

(** The two steps of a day leave stock or a backlog, not both, when the
    backlog carried in and the demand are non-negative. *)
Lemma day_balance (stock backlog demandToday : Z) :
  0 <= backlog -> 0 <= demandToday ->
  let settled := settleBacklog stock backlog in
  let served := serveDemand (fst settled) (snd settled) demandToday in
  0 <= snd served /\ (fst served = 0 \/ snd served = 0).
Proof.
  intros Hb Hd. unfold settleBacklog, serveDemand.
  destruct (Z.ltb_spec 0 backlog); [destruct (Z.leb_spec backlog stock)|];
    cbn [fst snd];
    match goal with |- context [?a <=? ?b] => destruct (Z.leb_spec a b) end;
    cbn [fst snd]; lia.
Qed.

Lemma previousShortage_nonneg (rows : list SimulationRow) :
  Forall (fun row => 0 <= shortage row) rows -> 0 <= previousShortage rows.
Proof.
  intros H. unfold previousShortage. destruct rows as [|r rest]; [lia|].
  rewrite Forall_forall in H. apply H.
  destruct (@exists_last _ (r :: rest) ltac:(discriminate)) as (l & x & E).
  rewrite E. rewrite last_last. apply in_or_app. right. now left.
Qed.

(** C10 (as amended): when no value of the demand distribution is negative,
    every row of the ledger of an inventory run has [endingInventory = 0] or
    [shortage = 0]; equivalently a positive shortage implies an ending
    inventory of 0. *)
Theorem inventory_stock_or_backlog (inp : Inputs) (rows : list SimulationRow) :
  Forall (fun row => 0 <= Tables.value row) (demand_dist inp) ->
  runSimulation inp = Ok rows ->
  Forall stockOrBacklog rows /\
  Forall (fun row => 0 < shortage row -> endingInventory row = 0) rows.
Proof.
  intros Hvalues Hrun.
  destruct (run_Ok _ _ Hrun) as (cfg & final & Hprep & _ & _ & Hloop & ->).
  destruct (prepare_Ok _ _ Hprep) as (_ & _ & dr & lr & Ed & _ & Hcfg).
  assert (Hdem : forall v, In v (map Tables.cum_value (demandRows cfg)) -> 0 <= v).
  { rewrite Hcfg. cbn [demandRows configOf].
    rewrite (TableFacts.buildCumulative_values _ _ _ Ed).
    intros v Hv. apply in_map_iff in Hv. destruct Hv as (row & <- & Hrow).
    rewrite Forall_forall in Hvalues. now apply Hvalues. }
  assert (Hinv : Forall (fun row => 0 <= shortage row /\ stockOrBacklog row) (table final)).
  { refine (LoopFacts.forEachM_invariant (simulateDay cfg)
              (fun st => Forall (fun row => 0 <= shortage row /\ stockOrBacklog row)
                                (table st)) _ _ _ _ _ Hloop); [|constructor].
    intros st [c d] st' Hst Hday.
    open_day Hday rd dt r Hdigit Hmap Hreview Hafter.
    rewrite Hafter. cbn [table]. apply Forall_app. split; [exact Hst|].
    constructor; [|constructor]. unfold stockOrBacklog. cbn [shortage endingInventory].
    apply day_balance.
    - apply previousShortage_nonneg. eapply Forall_impl; [|exact Hst].
      intros row Hrow; cbv beta in Hrow. tauto.
    - apply Hdem. eapply TableFacts.mapRandomToValue_In. exact Hmap. }
  split; (eapply Forall_impl; [|exact Hinv]); unfold stockOrBacklog;
    intros row Hrow; cbv beta in *; lia.
Qed.

(** The run the page starts with. *)
Lemma inventory_stock_or_backlog_witness :
  Forall stockOrBacklog
    (match runSimulation defaultInputs with Ok t => t | Err _ => [] end) /\
  Forall (fun row => 0 < shortage row -> endingInventory row = 0)
    (match runSimulation defaultInputs with Ok t => t | Err _ => [] end).
Proof.
  apply (inventory_stock_or_backlog defaultInputs).
  - repeat constructor; vm_compute; discriminate.
  - vm_compute. reflexivity.
Defined.

(** C10 fails as stated on a demand table with a negative value: day 1 draws
    the demand 3 with nothing in stock, day 2 draws the demand -2, and the row
    of day 2 ends with 2 units in stock and a backlog of 3. *)
Lemma inventory_stock_or_backlog_counterexample :
  exists rows row,
    runSimulation negativeDemand = Ok rows /\
    nth_error rows 1 = Some row /\
    endingInventory row = 2 /\ shortage row = 3 /\
    ~ stockOrBacklog row.
Proof.
  eexists _, _. split; [vm_compute; reflexivity|].
  split; [reflexivity|]. split; [reflexivity|]. split; [reflexivity|].
  unfold stockOrBacklog. simpl. lia.
Qed.

(** *** The pre-seeded order (C9) *)

(** The state before day [n + 1] is the state before day [n] after one day. *)
Lemma stateBefore_succ cfg inp n today :
  nth_error (schedule (numCycles inp) (daysPerCycle inp)) n = Some today ->
  stateBefore cfg inp (S n) = (st <- stateBefore cfg inp n ;; simulateDay cfg st today).
Proof.
  intros Hn. unfold stateBefore.
  rewrite (LoopFacts.firstn_succ _ _ _ Hn), LoopFacts.forEachM_app.
  destruct (forEachM _ _ _) as [st|msg]; cbn [bind forEachM]; [|reflexivity].
  destruct (simulateDay cfg st today); reflexivity.
Qed.

(** The first cycle visits its days in order. *)
Lemma schedule_first_cycle cycles days n :
  1 <= cycles -> (n < Z.to_nat days)%nat ->
  nth_error (schedule cycles days) n = Some (1, Z.of_nat n + 1).
Proof.
  intros Hc Hn. unfold schedule, upTo at 2.
  destruct (Z.to_nat cycles) as [|k] eqn:E; [lia|].
  cbn [seq map flat_map].
  rewrite nth_error_app1 by (rewrite length_map, upTo_length; exact Hn).
  unfold upTo. rewrite !nth_error_map.
  rewrite (nth_error_nth' _ 0%nat) by (rewrite length_seq; exact Hn).
  rewrite seq_nth by exact Hn. cbn [option_map]. do 2 f_equal. lia.
Qed.

(** A day that is neither the arrival day of the only pending order nor a
    review day leaves that order pending and adds nothing to the stock. *)
Lemma order_waits cfg st c d st' order :
  simulateDay cfg st (c, d) = Ok st' ->
  pendingOrders st = [order] ->
  arrivesOn c d order = false ->
  d <> days cfg ->
  pendingOrders st' = [order].
Proof.
  intros Hday Hp Harr Hd.
  open_day Hday rd dt r Hdigit Hmap Hreview Hafter.
  pose proof (review_Ok _ _ _ _ _ _ _ _ _ Hreview) as Hr. cbv zeta in Hr.
  destruct Hr as (_ & Hnone & _). destruct Hnone as (Hp' & _); [auto|].
  rewrite Hafter. cbn [pendingOrders]. rewrite Hp', Hp.
  unfold stillPending. cbn [filter]. now rewrite Harr.
Qed.

(** The pre-seeded order on positive inputs: for every initial order quantity
    [q > 0] and initial lead time [l > 0], the state before day 1 of cycle 1
    holds exactly one pending order, of quantity [q], arriving in cycle 1 on
    day [l + 1]; when [q = 0] or [l = 0] no order is pending.  When day
    [l + 1] exists in the cycle, a run that yields a ledger adds [q] to the
    stock at the beginning of day [l + 1] of cycle 1, the order having stayed
    pending until then. *)
Theorem initial_order_injected (inp : Inputs) :
  0 <= initialOrderQuantity inp ->
  0 <= initialOrderLeadTime inp ->
  let q := initialOrderQuantity inp in
  let l := initialOrderLeadTime inp in
  table (startOf inp) = [] /\
  (0 < q -> 0 < l -> pendingOrders (startOf inp) = [mkPendingOrder q 1 (l + 1)]) /\
  (q = 0 \/ l = 0 -> pendingOrders (startOf inp) = []) /\
  (forall rows,
     runSimulation inp = Ok rows -> 0 < q -> 0 < l -> l + 1 <= daysPerCycle inp ->
     exists cfg before row,
       prepare inp = Ok cfg /\
       stateBefore cfg inp (Z.to_nat l) = Ok before /\
       pendingOrders before = [mkPendingOrder q 1 (l + 1)] /\
       nth_error rows (Z.to_nat l) = Some row /\
       cycle row = 1 /\ day row = l + 1 /\
       beginningInventory row = inventory before + q).
Proof.
  intros Hq Hl q l. subst q l.
  set (q := initialOrderQuantity inp) in *. set (l := initialOrderLeadTime inp) in *.
  assert (Hstart : (0 < q -> 0 < l ->
                    pendingOrders (startOf inp) = [mkPendingOrder q 1 (l + 1)]) /\
                   (q = 0 \/ l = 0 -> pendingOrders (startOf inp) = [])).
  { unfold startOf, initialState, initialOrders. fold q l. cbn [pendingOrders].
    destruct (Z.ltb_spec 0 q), (Z.ltb_spec 0 l); cbn [andb];
      (split; [intros; try reflexivity; lia | intros [?|?]; try reflexivity; lia]). }
  split; [reflexivity|]. split; [apply Hstart|]. split; [apply Hstart|].
  intros rows Hrun Hq' Hl' Hfits.
  destruct (run_Ok _ _ Hrun) as (cfg & final & Hprep & Hdays & _ & Hloop & ->).
  destruct (prepare_Ok _ _ Hprep) as ((Hc & _) & _).
  set (order := mkPendingOrder q 1 (l + 1)).
  assert (Hnth : forall n, (n < Z.to_nat (daysPerCycle inp))%nat ->
            nth_error (schedule (numCycles inp) (daysPerCycle inp)) n
            = Some (1, Z.of_nat n + 1)).
  { intros n Hn. now apply schedule_first_cycle. }
  assert (Hwait : forall n, (n <= Z.to_nat l)%nat ->
            exists st, stateBefore cfg inp n = Ok st /\ pendingOrders st = [order]).
  { induction n as [|n IH]; intros Hn.
    - exists (startOf inp). split; [reflexivity|]. now apply Hstart.
    - destruct IH as (st & Hst & Hp); [lia|].
      assert (Hday : nth_error (schedule (numCycles inp) (daysPerCycle inp)) n
                     = Some (1, Z.of_nat n + 1)) by (apply Hnth; lia).
      destruct (inventory_loop_trace cfg _ (startOf inp) final n _ _ eq_refl Hloop Hday)
        as (before & after & row & Hbefore & Hstep & _).
      fold (stateBefore cfg inp n) in Hbefore.
      rewrite Hst in Hbefore. injection Hbefore as <-.
      exists after. split.
      + rewrite (stateBefore_succ _ _ _ _ Hday), Hst. exact Hstep.
      + eapply order_waits; [exact Hstep | exact Hp | | lia].
        unfold arrivesOn, order. cbn [arrivalCycle arrivalDay].
        destruct (Z.eqb_spec (l + 1) (Z.of_nat n + 1)); [lia|].
        now rewrite andb_false_r. }
  destruct (Hwait (Z.to_nat l)) as (st & Hst & Hp); [lia|].
  assert (Hday : nth_error (schedule (numCycles inp) (daysPerCycle inp)) (Z.to_nat l)
                 = Some (1, l + 1)).
  { rewrite Hnth by lia. do 2 f_equal. lia. }
  destruct (inventory_loop_trace cfg _ (startOf inp) final _ _ _ eq_refl Hloop Hday)
    as (before & after & row & Hbefore & Hstep & _ & Hrow & Hrownth).
  fold (stateBefore cfg inp (Z.to_nat l)) in Hbefore.
  rewrite Hst in Hbefore. injection Hbefore as <-.
  exists cfg, st, row.
  split; [exact Hprep|]. split; [exact Hst|]. split; [exact Hp|].
  split; [exact Hrownth|].
  open_day Hstep rd dt r Hdigit Hmap Hreview Hafter.
  rewrite Hafter in Hrow. cbn [table] in Hrow.
  apply app_inv_head in Hrow. injection Hrow as <-.
  cbn [cycle day beginningInventory].
  split; [reflexivity|]. split; [reflexivity|].
  rewrite Hp. unfold arrivalsOn, arrivesOn, order.
  cbn [filter arrivalCycle arrivalDay quantity].
  rewrite !Z.eqb_refl. cbn [andb fold_left quantity]. lia.
Qed.

(** The run the page starts with: 8 units, lead time 2, arriving on day 3. *)
Example initial_order_default_run :
  table (startOf defaultInputs) = [] /\
  (0 < 8 -> 0 < 2 -> pendingOrders (startOf defaultInputs) = [mkPendingOrder 8 1 (2 + 1)]) /\
  (8 = 0 \/ 2 = 0 -> pendingOrders (startOf defaultInputs) = []) /\
  (forall rows,
     runSimulation defaultInputs = Ok rows -> 0 < 8 -> 0 < 2 -> 2 + 1 <= 5 ->
     exists cfg before row,
       prepare defaultInputs = Ok cfg /\
       stateBefore cfg defaultInputs (Z.to_nat 2) = Ok before /\
       pendingOrders before = [mkPendingOrder 8 1 (2 + 1)] /\
       nth_error rows (Z.to_nat 2) = Some row /\
       cycle row = 1 /\ day row = 2 + 1 /\
       beginningInventory row = inventory before + 8).
Proof.
  apply (initial_order_injected defaultInputs); simpl; lia.
Defined.

(** C9, at the input where the code departs from it: an initial order of 8
    units with lead time 0 (which the page describes as arriving immediately)
    passes the checks, yet no order is pending before day 1, and the ledger
    opens day 1 of cycle 1 with the initial 3 units, not with the 11 that an
    order arriving on day 0 + 1 would give; no later day receives the 8 units
    either, the first delivery being the 17 units ordered at the first
    review. *)
Theorem initial_order_zero_lead_dropped :
  initialOrderQuantity zeroLeadOrder = 8 /\
  initialOrderLeadTime zeroLeadOrder = 0 /\
  pendingOrders (startOf zeroLeadOrder) = [] /\
  pendingOrders (startOf zeroLeadOrder) <>
    [mkPendingOrder (initialOrderQuantity zeroLeadOrder) 1
                    (initialOrderLeadTime zeroLeadOrder + 1)] /\
  exists rows row,
    runSimulation zeroLeadOrder = Ok rows /\
    nth_error rows 0 = Some row /\
    cycle row = 1 /\ day row = 1 /\ beginningInventory row = 3 /\
    map beginningInventory (firstn 7 rows) = [3; 2; 1; 0; 0; 0; 17].
Proof.
  split; [reflexivity|]. split; [reflexivity|].
  split; [reflexivity|]. split; [discriminate|].
  eexists _, _. split; [vm_compute; reflexivity|].
  repeat split; reflexivity.
Qed.

End InventoryFacts.

(** ** Facts about the tests of random numbers *)

Module StatisticsFacts.
Import Statistics.

Local Open Scope R_scope.

(** [getNormInverse] is the three-regime approximation of the specification:
    [p_high = 1 - p_low] is 0.97575. *)
Lemma getNormInverse_spec (p : R) : getNormInverse p = specInverseNormal p.
Proof.
  unfold getNormInverse, specInverseNormal, p_high, p_low, tailLow, tailHigh, central.
  destruct (Rlt_dec p 0.02425); [reflexivity|].
  destruct (Rgt_dec p (1 - 0.02425)), (Rgt_dec p 0.97575); try reflexivity;
    exfalso; lra.
Qed.

Lemma getChiSquareCriticalValue_spec (df : Z) (alpha : R) :
  (1 <= df)%Z -> getChiSquareCriticalValue df alpha = specCriticalValue df alpha.
Proof.
  intros Hdf. unfold getChiSquareCriticalValue, specCriticalValue.
  destruct (Z.ltb_spec df 1); [lia|].
  rewrite !getNormInverse_spec.
  destruct (df =? 1)%Z; [cbv zeta; ring|].
  destruct (df =? 2)%Z; reflexivity.
Qed.

Lemma Rltb_true (x y : R) : Rltb x y = true <-> x < y.
Proof. unfold Rltb. destruct (Rlt_dec x y); split; intros; try discriminate; tauto. Qed.

(** C6: for every number of intervals [k >= 2] (so in particular every
    [k >= 3]) and every level [alpha] in (0, 1), the chi-square test has
    [df = k - 1] degrees of freedom and its critical value is [z ^ 2] with
    [z] the inverse normal at [1 - alpha / 2] when [df = 1], [-2 ln alpha]
    when [df = 2], and otherwise the Wilson-Hilferty value
    [df (1 - 2 / (9 df) + z_p sqrt (2 / (9 df))) ^ 3] with [z_p] the inverse
    normal at [1 - alpha], the inverse normal being the three-regime rational
    approximation (below 0.02425, above 0.97575, central); and the decision
    is uniform exactly when the statistic is below the critical value. *)
Theorem chi_square_decision (numbers : list R) (k : Z) (alpha : R) :
  (2 <= k)%Z ->
  0 < alpha < 1 ->
  let res := calculateChiSquare numbers k alpha in
  dof res = (k - 1)%Z /\
  criticalValue res = specCriticalValue (k - 1) alpha /\
  (isUniform res = true <-> chiStat res < criticalValue res).
Proof.
  intros Hk Halpha res. unfold res, calculateChiSquare.
  cbn [dof criticalValue isUniform chiStat].
  split; [reflexivity|]. split.
  - apply getChiSquareCriticalValue_spec. lia.
  - apply Rltb_true.
Qed.

(** Ten numbers, ten intervals, level 0.05. *)
Lemma chi_square_decision_witness :
  dof (calculateChiSquare onePerDecile 10 0.05) = (10 - 1)%Z /\
  criticalValue (calculateChiSquare onePerDecile 10 0.05)
  = specCriticalValue (10 - 1) 0.05 /\
  (isUniform (calculateChiSquare onePerDecile 10 0.05) = true <->
   chiStat (calculateChiSquare onePerDecile 10 0.05)
   < criticalValue (calculateChiSquare onePerDecile 10 0.05)).
Proof.
  apply (chi_square_decision onePerDecile 10 0.05); [lia | lra].
Defined.

(** *** The known case of the chi-square test *)

Lemma Rgeb_true x y : x >= y -> Rgeb x y = true.
Proof. intros H. unfold Rgeb. destruct (Rge_dec x y); tauto. Qed.
Lemma Rgeb_false x y : x < y -> Rgeb x y = false.
Proof. intros H. unfold Rgeb. destruct (Rge_dec x y); [lra|reflexivity]. Qed.
Lemma Rltb_true' x y : x < y -> Rltb x y = true.
Proof. intros H. unfold Rltb. destruct (Rlt_dec x y); tauto. Qed.
Lemma Rltb_false x y : x >= y -> Rltb x y = false.
Proof. intros H. unfold Rltb. destruct (Rlt_dec x y); [lra|reflexivity]. Qed.
Lemma Rleb_true x y : x <= y -> Rleb x y = true.
Proof. intros H. unfold Rleb. destruct (Rle_dec x y); tauto. Qed.
Lemma Rleb_false x y : x > y -> Rleb x y = false.
Proof. intros H. unfold Rleb. destruct (Rle_dec x y); [lra|reflexivity]. Qed.

(** Settle the comparisons of numerals in the goal. *)
Ltac cmp :=
  repeat match goal with
  | |- context [Rgeb ?x ?y] => first [rewrite (Rgeb_true x y) by lra | rewrite (Rgeb_false x y) by lra]
  | |- context [Rltb ?x ?y] => first [rewrite (Rltb_true' x y) by lra | rewrite (Rltb_false x y) by lra]
  | |- context [Rleb ?x ?y] => first [rewrite (Rleb_true x y) by lra | rewrite (Rleb_false x y) by lra]
  end.





Lemma chiPart_intervalAt numbers k (E : R) i :
  chiPart (intervalAt numbers k E i) = (IZR (oi (intervalAt numbers k E i)) - E) ^ 2 / E.
Proof. reflexivity. Qed.

(** A statistic whose every part is 0 is 0. *)
Lemma chiStat_zero (ivs : list Interval) (start : R) :
  Forall (fun iv => chiPart iv = 0) ivs ->
  fold_left (fun chiStat iv => chiStat + chiPart iv) ivs start = start.
Proof.
  intros H; revert start. induction H as [|iv ivs Hiv _ IH]; intros start; cbn [fold_left].
  - reflexivity.
  - rewrite IH, Hiv. lra.
Qed.

(** Evaluate the integer indices in the goal. *)
Ltac evaluate_index :=
  repeat match goal with
  | |- context [(?a =? ?b)%Z] =>
      let v := eval compute in (a =? b)%Z in change (a =? b)%Z with v
  | |- context [IZR (?a + 1)] =>
      let v := eval compute in (a + 1)%Z in change (a + 1)%Z with v
  | |- context [IZR (Z.of_nat ?a)] =>
      let v := eval compute in (Z.of_nat a) in change (Z.of_nat a) with v
  end.

(** The known case of the specification: one number in each tenth, ten
    intervals: every observed count is 1 and the statistic is 0. *)
Example chi_square_known_case :
  map oi (intervals (calculateChiSquare onePerDecile 10 0.05))
  = [1; 1; 1; 1; 1; 1; 1; 1; 1; 1]%Z /\
  chiStat (calculateChiSquare onePerDecile 10 0.05) = 0.
Proof.
  assert (Hoi : map oi (intervals (calculateChiSquare onePerDecile 10 0.05))
                = [1; 1; 1; 1; 1; 1; 1; 1; 1; 1]%Z).
  { unfold calculateChiSquare. cbn [intervals].
    change (Z.to_nat 10) with 10%nat. cbn [seq map].
    repeat (apply (f_equal2 (@cons Z));
            [unfold intervalAt; cbn [oi]; unfold onePerDecile; cbn [filter];
             evaluate_index; cbv iota; cmp; cbn [andb]; cmp; reflexivity|]).
    reflexivity. }
  split; [exact Hoi|].
  unfold calculateChiSquare at 1. cbn [chiStat].
  apply chiStat_zero. apply Forall_forall. intros iv Hiv.
  assert (Hone : oi iv = 1%Z).
  { apply (in_map oi) in Hiv.
    change (map oi _) with (map oi (intervals (calculateChiSquare onePerDecile 10 0.05))) in Hiv.
    rewrite Hoi in Hiv. cbn [In] in Hiv. intuition congruence. }
  apply in_map_iff in Hiv. destruct Hiv as (i & <- & _).
  rewrite chiPart_intervalAt, Hone.
  change (Z.of_nat (length onePerDecile)) with 10%Z. field.
Qed.

(** *** The autocorrelation test *)










End StatisticsFacts.

(** ** Facts about sums over a ledger *)

Module ReportFacts.

Lemma sumOver_from {A : Type} (f : A -> Z) (rows : list A) (acc : Z) :
  fold_left (fun acc r => acc + f r) rows acc = acc + sumOver f rows.
Proof.
  unfold sumOver. revert acc; induction rows as [|r rows IH]; intros acc;
    cbn [fold_left]; [lia|].
  rewrite (IH (acc + f r)), (IH (0 + f r)). lia.
Qed.

Lemma sumOver_cons {A : Type} (f : A -> Z) (r : A) (rows : list A) :
  sumOver f (r :: rows) = f r + sumOver f rows.
Proof. unfold sumOver at 1. simpl. now rewrite sumOver_from. Qed.

Lemma sumOver_app {A : Type} (f : A -> Z) (l1 l2 : list A) :
  sumOver f (l1 ++ l2) = sumOver f l1 + sumOver f l2.
Proof.
  induction l1 as [|r l1 IH]; simpl; [reflexivity|].
  rewrite !sumOver_cons, IH. lia.
Qed.

Lemma sumOver_ext {A : Type} (f g : A -> Z) (rows : list A) :
  Forall (fun r => f r = g r) rows -> sumOver f rows = sumOver g rows.
Proof.
  induction 1 as [|r rows Hr _ IH]; [reflexivity|].
  rewrite !sumOver_cons, Hr, IH. reflexivity.
Qed.

Lemma sumOver_plus {A : Type} (f g : A -> Z) (rows : list A) :
  sumOver (fun r => f r + g r) rows = sumOver f rows + sumOver g rows.
Proof.
  induction rows as [|r rows IH]; [reflexivity|].
  rewrite !sumOver_cons, IH. lia.
Qed.

Lemma sumOver_nonneg {A : Type} (f : A -> Z) (rows : list A) :
  Forall (fun r => 0 <= f r) rows -> 0 <= sumOver f rows.
Proof.
  induction 1 as [|r rows Hr _ IH]; [reflexivity|].
  rewrite sumOver_cons. lia.
Qed.

(** A column [g] that grows from row to row by the column [f], from 0 before
    the first row, ends at the sum of [f]. *)
Lemma sumOver_telescope {A : Type} (f g : A -> Z) (d : A) (rows : list A) :
  (forall i row, nth_error rows i = Some row ->
     g row = match i with
             | O => 0
             | S j => match nth_error rows j with Some prev => g prev | None => 0 end
             end + f row) ->
  sumOver f rows = match rows with [] => 0 | _ :: _ => g (last rows d) end.
Proof.
  induction rows as [|x rows IH] using rev_ind; intros H; [reflexivity|].
  assert (Hprefix : forall i row, nth_error rows i = Some row ->
            g row = match i with
                    | O => 0
                    | S j => match nth_error rows j with Some prev => g prev | None => 0 end
                    end + f row).
  { intros i row Hi.
    assert (Hlt : (i < length rows)%nat) by (apply nth_error_Some; congruence).
    specialize (H i row). rewrite nth_error_app1 in H by lia. specialize (H Hi).
    rewrite H. destruct i as [|j]; [reflexivity|].
    rewrite nth_error_app1 by lia. reflexivity. }
  specialize (IH Hprefix).
  pose proof (H (length rows) x) as Hx.
  rewrite nth_error_app2, Nat.sub_diag in Hx by lia. specialize (Hx eq_refl).
  rewrite sumOver_app, sumOver_cons. change (sumOver f []) with 0. rewrite IH.
  replace (match rows ++ [x] with [] => 0 | _ :: _ => g (last (rows ++ [x]) d) end)
    with (g x) by (rewrite last_last; destruct rows; reflexivity).
  rewrite Hx. clear Hx IH Hprefix H.
  destruct (length rows) as [|j] eqn:Hlen.
  - apply length_zero_iff_nil in Hlen. subst rows. lia.
  - destruct (@exists_last _ rows) as (rows' & y & ->);
      [intros ->; discriminate|].
    rewrite length_app in Hlen. cbn [length] in Hlen.
    assert (j = length rows') by lia. subst j.
    rewrite <- app_assoc. rewrite nth_error_app2, Nat.sub_diag by lia. cbn [app nth_error].
    rewrite last_last. destruct (rows' ++ [y]) eqn:E; [destruct rows'; discriminate|]. lia.
Qed.

Lemma inject_Z_nonzero (z : Z) : z <> 0 -> ~ (inject_Z z == 0)%Q.
Proof. intros Hz H. unfold Qeq in H. simpl in H. lia. Qed.

(** Two shares of a total that is not 0 add up to 100 percent. *)
Lemma percentOf_split (a b total : Z) :
  a + b = total -> total <> 0 ->
  (percentOf a total + percentOf b total == 100)%Q.
Proof.
  intros Hsum Hnz. unfold percentOf, ratio.
  destruct (Z.eqb_spec total 0); [contradiction|].
  subst total. rewrite inject_Z_plus. field.
  rewrite <- inject_Z_plus. now apply inject_Z_nonzero.
Qed.

Lemma ratio_bounds (a n : Z) :
  0 <= a <= n -> 0 < n -> (0 <= ratio a n <= 1)%Q.
Proof.
  intros Ha Hn. unfold ratio.
  assert (Hn' : (0 < inject_Z n)%Q) by (change 0%Q with (inject_Z 0); now rewrite <- Zlt_Qlt).
  split.
  - apply Qle_shift_div_l; [exact Hn'|]. rewrite Qmult_0_l.
    change 0%Q with (inject_Z 0). rewrite <- Zle_Qle. lia.
  - apply Qle_shift_div_r; [exact Hn'|]. rewrite Qmult_1_l. rewrite <- Zle_Qle. lia.
Qed.

Lemma ratio_nonneg (a n : Z) : 0 <= a -> 0 < n -> (0 <= ratio a n)%Q.
Proof.
  intros Ha Hn. unfold ratio.
  assert (Hn' : (0 < inject_Z n)%Q) by (change 0%Q with (inject_Z 0); now rewrite <- Zlt_Qlt).
  apply Qle_shift_div_l; [exact Hn'|]. rewrite Qmult_0_l.
  change 0%Q with (inject_Z 0). rewrite <- Zle_Qle. lia.
Qed.

Lemma ratio_zero (a n : Z) : n <> 0 -> ((ratio a n == 0)%Q <-> a = 0).
Proof.
  intros Hn. unfold ratio. split.
  - intros H. apply (Qmult_inj_r _ _ (inject_Z n)) in H; [|now apply inject_Z_nonzero].
    rewrite Qmult_0_l in H.
    assert (E : (inject_Z a / inject_Z n * inject_Z n == inject_Z a)%Q)
      by (field; now apply inject_Z_nonzero).
    rewrite E in H. unfold Qeq in H. simpl in H. lia.
  - intros ->. unfold Qdiv. now rewrite Qmult_0_l.
Qed.

End ReportFacts.

(** ** More facts about the distribution tables *)

Module TableMoreFacts.
Import Tables.

(** X1: [buildCumulative] reports an empty distribution and a sum of
    probabilities off by more than the tolerance, each with its own message,
    and yields a table exactly for the valid distributions. *)
Theorem buildCumulative_outcome (dist : list DistRow) (scale : Z) :
  (dist = [] <-> buildCumulative dist scale = Err "Add at least one row") /\
  (dist <> [] /\ (tolerance < Qabs (totalProbability dist - 1))%Q <->
   buildCumulative dist scale = Err "Probabilities must sum to 1") /\
  (validDistribution dist <-> exists rows, buildCumulative dist scale = Ok rows).
Proof.
  assert (Hcases :
    match dist with
    | [] => buildCumulative dist scale = Err "Add at least one row"
    | _ :: _ =>
        ((tolerance < Qabs (totalProbability dist - 1))%Q /\
         buildCumulative dist scale = Err "Probabilities must sum to 1") \/
        ((Qabs (totalProbability dist - 1) <= tolerance)%Q /\
         exists rows, buildCumulative dist scale = Ok rows)
    end).
  { destruct dist as [|row rest]; [reflexivity|].
    unfold buildCumulative, totalProbability.
    pose proof (TableFacts.accumulate_total (row :: rest) 0) as Ht.
    destruct (accumulate 0 (row :: rest)) as [rows total]. simpl snd in Ht. rewrite <- Ht.
    destruct (Qlt_le_dec tolerance (Qabs (total - 1))) as [Hbad|Hgood].
    - left. auto.
    - right. split; [exact Hgood | eexists; reflexivity]. }
  unfold validDistribution.
  destruct dist as [|row rest].
  - rewrite Hcases. split; [tauto|]. split.
    + split; [intros [H _]; congruence | discriminate].
    + split; [intros [H _]; congruence | intros [rows H]; discriminate].
  - destruct Hcases as [[Hbad E]|[Hgood [rows E]]]; rewrite E.
    + split; [split; [discriminate | discriminate]|].
      split; [split; [reflexivity | intros _; split; [discriminate | exact Hbad]]|].
      split; [intros [_ H]; lra | intros [rows H]; discriminate].
    + split; [split; [discriminate | discriminate]|].
      split; [split; [intros [_ H]; lra | discriminate]|].
      split; [intros _; eexists; reflexivity | intros _; split; [discriminate | exact Hgood]].
Qed.

Lemma accumulate_probabilities (dist : list DistRow) (s : Q) :
  map cum_probability (fst (accumulate s dist)) = map probability dist.
Proof.
  revert s; induction dist as [|row rest IH]; intros s; simpl; [reflexivity|].
  specialize (IH (s + probability row)%Q).
  destruct (accumulate (s + probability row) rest) as [rows total]; simpl in *.
  now rewrite IH.
Qed.

Lemma assignRanges_probabilities scale prev rows :
  map cum_probability (assignRanges scale prev rows) = map cum_probability rows.
Proof.
  revert prev; induction rows as [|row rest IH]; intros prev; simpl; [reflexivity|].
  now rewrite IH.
Qed.

Lemma assignRanges_cumulative scale prev rows :
  map cumulative (assignRanges scale prev rows) = map cumulative rows.
Proof.
  revert prev; induction rows as [|row rest IH]; intros prev; simpl; [reflexivity|].
  now rewrite IH.
Qed.

(** The running total after the first [n] rows, summed in the order of the
    code. *)
Lemma accumulate_cumulative (dist : list DistRow) (s : Q) (i : nat) (c : Q) :
  nth_error (map cumulative (fst (accumulate s dist))) i = Some c ->
  c = fold_left (fun s row => (s + probability row)%Q) (firstn (S i) dist) s.
Proof.
  revert s i; induction dist as [|row rest IH]; intros s i H.
  - destruct i; discriminate.
  - simpl in H. specialize (IH (s + probability row)%Q).
    destruct (accumulate (s + probability row) rest) as [rows total]; simpl in *.
    destruct i as [|i]; simpl in H.
    + injection H as <-. reflexivity.
    + apply IH in H. exact H.
Qed.

(** X2: a table built by [buildCumulative] has one row for each row of the
    distribution, in the same order, with the same value and probability,
    and the cumulative probability of row [i] is the sum of the
    probabilities of the rows 0 to [i], added from the first on. *)
Theorem buildCumulative_rows (dist : list DistRow) (scale : Z)
    (rows : list CumulativeRow) :
  buildCumulative dist scale = Ok rows ->
  length rows = length dist /\
  map cum_value rows = map value dist /\
  map cum_probability rows = map probability dist /\
  forall i row,
    nth_error rows i = Some row ->
    cumulative row =
    fold_left (fun s d => (s + probability d)%Q) (firstn (S i) dist) 0%Q.
Proof.
  intros Hbuild.
  pose proof (TableFacts.buildCumulative_Ok_valid _ _ _ Hbuild) as Hvalid.
  rewrite (TableFacts.buildCumulative_valid _ scale Hvalid) in Hbuild.
  injection Hbuild as <-.
  split; [now rewrite TableFacts.assignRanges_length, TableFacts.accumulate_length|].
  split; [now rewrite TableFacts.assignRanges_values, TableFacts.accumulate_values|].
  split; [now rewrite assignRanges_probabilities, accumulate_probabilities|].
  intros i row Hrow.
  apply accumulate_cumulative.
  rewrite <- (assignRanges_cumulative scale 0), nth_error_map, Hrow. reflexivity.
Qed.

Lemma buildCumulative_rows_witness :
  length (assignRanges 100 0 (fst (accumulate 0 defaultDemand))) = length defaultDemand /\
  map cum_value (assignRanges 100 0 (fst (accumulate 0 defaultDemand)))
  = map value defaultDemand /\
  map cum_probability (assignRanges 100 0 (fst (accumulate 0 defaultDemand)))
  = map probability defaultDemand /\
  forall i row,
    nth_error (assignRanges 100 0 (fst (accumulate 0 defaultDemand))) i = Some row ->
    cumulative row =
    fold_left (fun s d => (s + probability d)%Q) (firstn (S i) defaultDemand) 0%Q.
Proof.
  apply (buildCumulative_rows defaultDemand 100). reflexivity.
Defined.

Lemma assignRanges_bounded scale prev rows :
  Forall (fun row => rangeEnd row <= scale) (assignRanges scale prev rows).
Proof.
  revert prev; induction rows as [|row rest IH]; intros prev; simpl; constructor.
  - simpl. lia.
  - apply IH.
Qed.

(** X3: whatever the distribution, no range of a built table reaches past
    [scale]; a digit above [scale] is therefore never mapped, and a digit
    that is mapped yields one of the values of the distribution. *)
Theorem mapRandomToValue_within (dist : list DistRow) (scale : Z)
    (rows : list CumulativeRow) :
  buildCumulative dist scale = Ok rows ->
  Forall (fun row => rangeEnd row <= scale) rows /\
  (forall r, scale < r -> r <> 0 -> mapRandomToValue r rows scale = None) /\
  (forall r v, mapRandomToValue r rows scale = Some v -> In v (map value dist)).
Proof.
  intros Hbuild.
  assert (Hends : Forall (fun row => rangeEnd row <= scale) rows).
  { pose proof (TableFacts.buildCumulative_Ok_valid _ _ _ Hbuild) as Hvalid.
    rewrite (TableFacts.buildCumulative_valid _ scale Hvalid) in Hbuild.
    injection Hbuild as <-. apply assignRanges_bounded. }
  split; [exact Hends|]. split.
  - intros r Hr Hnz. unfold mapRandomToValue, normalize.
    destruct (Z.eqb_spec r 0) as [|_]; [congruence|].
    destruct (find (inRange r) rows) as [row|] eqn:E; [|reflexivity].
    apply find_some in E. destruct E as [Hin Hrange].
    rewrite Forall_forall in Hends. specialize (Hends _ Hin).
    unfold inRange in Hrange. lia.
  - intros r v Hmap. rewrite <- (TableFacts.buildCumulative_values _ _ _ Hbuild).
    eapply TableFacts.mapRandomToValue_In. exact Hmap.
Qed.

Lemma mapRandomToValue_within_witness :
  Forall (fun row => rangeEnd row <= 10)
         (assignRanges 10 0 (fst (accumulate 0 defaultLeadTime))) /\
  (forall r, 10 < r -> r <> 0 ->
     mapRandomToValue r (assignRanges 10 0 (fst (accumulate 0 defaultLeadTime))) 10 = None) /\
  (forall r v,
     mapRandomToValue r (assignRanges 10 0 (fst (accumulate 0 defaultLeadTime))) 10 = Some v ->
     In v (map value defaultLeadTime)).
Proof.
  apply (mapRandomToValue_within defaultLeadTime 10). reflexivity.
Defined.

(** The row found for [r]: with every earlier end below [r], it is the
    first row whose rounded cumulative probability reaches [r]. *)
Lemma find_first_reaching scale r rows : forall prev,
  prev < r <= scale ->
  find (inRange r) (assignRanges scale prev rows) =
  find (fun row => r <=? mathRound (cumulative row * inject_Z scale))
       (assignRanges scale prev rows).
Proof.
  induction rows as [|row rest IH]; intros prev Hr; simpl; [reflexivity|].
  unfold inRange at 1. cbn [rangeStart rangeEnd cumulative].
  destruct (Z.leb_spec r (mathRound (cumulative row * inject_Z scale))) as [Hle|Hgt].
  - replace (prev + 1 <=? r) with true by (symmetry; apply Z.leb_le; lia).
    replace (r <=? Z.min scale (mathRound (cumulative row * inject_Z scale))) with true
      by (symmetry; apply Z.leb_le; lia).
    reflexivity.
  - replace (r <=? Z.min scale (mathRound (cumulative row * inject_Z scale))) with false
      by (symmetry; apply Z.leb_gt; lia).
    rewrite andb_false_r. apply IH. lia.
Qed.

(** X4: the lookup is inverse-transform sampling.  For a digit [r] from 1 to
    [scale], [mapRandomToValue] returns the value of the first row whose
    cumulative probability, scaled and rounded, is at least [r]; the digit 0
    is looked up as [scale]. *)
Theorem mapRandomToValue_inverse_transform (dist : list DistRow) (scale r : Z)
    (rows : list CumulativeRow) :
  buildCumulative dist scale = Ok rows ->
  0 <= r <= scale -> 1 <= scale ->
  mapRandomToValue r rows scale =
  option_map cum_value
    (find (fun row =>
             (if r =? 0 then scale else r) <=? mathRound (cumulative row * inject_Z scale))
          rows).
Proof.
  intros Hbuild Hr Hscale.
  pose proof (TableFacts.buildCumulative_Ok_valid _ _ _ Hbuild) as Hvalid.
  rewrite (TableFacts.buildCumulative_valid _ scale Hvalid) in Hbuild.
  injection Hbuild as <-.
  unfold mapRandomToValue, normalize. f_equal.
  apply find_first_reaching. destruct (Z.eqb_spec r 0); lia.
Qed.

Lemma mapRandomToValue_inverse_transform_witness :
  mapRandomToValue 35 (assignRanges 100 0 (fst (accumulate 0 defaultDemand))) 100 =
  option_map cum_value
    (find (fun row =>
             (if 35 =? 0 then 100 else 35) <=? mathRound (cumulative row * inject_Z 100))
          (assignRanges 100 0 (fst (accumulate 0 defaultDemand)))).
Proof.
  apply (mapRandomToValue_inverse_transform defaultDemand 100 35); [reflexivity | lia | lia].
Defined.

End TableMoreFacts.

(** ** Facts about editing a distribution *)

Module DistributionStateFacts.
Import Tables DistributionState.

Lemma mapIndexed_length {A B : Type} (f : A -> Z -> B) (l : list A) : forall start,
  length (mapIndexed f start l) = length l.
Proof. induction l as [|a l IH]; intros start; simpl; [reflexivity | now rewrite IH]. Qed.

Lemma mapIndexed_nth {A B : Type} (f : A -> Z -> B) (l : list A) : forall start i,
  nth_error (mapIndexed f start l) i =
  option_map (fun a => f a (start + Z.of_nat i)) (nth_error l i).
Proof.
  induction l as [|a l IH]; intros start i; simpl.
  - now destruct i.
  - destruct i as [|i]; simpl.
    + now rewrite Z.add_0_r.
    + rewrite IH. destruct (nth_error l i); simpl; [|reflexivity].
      do 2 f_equal. lia.
Qed.

Lemma mapIndexed_id {A : Type} (f : A -> Z -> A) (l : list A) : forall start,
  (forall a i, In a l -> f a i = a) -> mapIndexed f start l = l.
Proof.
  induction l as [|a l IH]; intros start H; simpl; [reflexivity|].
  rewrite H by now left. f_equal. apply IH. intros; apply H; now right.
Qed.

(** [updateRow] writes one field of one row.  The table keeps its
    length; the row at [index] gets the new value or probability and keeps
    its other field; every other row is untouched; with [null], or with an
    index outside the table, nothing changes. *)
Lemma updateRow_get_set (index : Z) (field : Field) (prev : list DistRow) :
  length (updateRow index field prev) = length prev /\
  (forall i row,
     nth_error prev i = Some row -> Z.of_nat i = index ->
     exists row',
       nth_error (updateRow index field prev) i = Some row' /\
       match field with
       | valueField (Some v) => value row' = v /\ probability row' = probability row
       | probabilityField (Some p) => probability row' = p /\ value row' = value row
       | _ => row' = row
       end) /\
  (forall i, Z.of_nat i <> index ->
     nth_error (updateRow index field prev) i = nth_error prev i) /\
  (notNull field = false \/ index < 0 \/ Z.of_nat (length prev) <= index ->
   updateRow index field prev = prev).
Proof.
  unfold updateRow. split; [apply mapIndexed_length|]. split; [|split].
  - intros i row Hrow Hi. rewrite mapIndexed_nth, Hrow. cbn [option_map].
    rewrite Z.add_0_l, Hi, Z.eqb_refl. cbn [andb].
    eexists. split; [reflexivity|].
    destruct field as [[v|]|[p|]]; cbn; auto.
  - intros i Hi. rewrite mapIndexed_nth, Z.add_0_l.
    destruct (nth_error prev i) as [row|]; [|reflexivity]. cbn [option_map].
    destruct (Z.eqb_spec (Z.of_nat i) index); [contradiction | reflexivity].
  - intros Hnone.
    assert (Hnth : forall i, nth_error
              (mapIndexed (fun row i0 => if (i0 =? index) && notNull field
                                         then withField row field else row) 0 prev) i
              = nth_error prev i).
    { intros i. rewrite mapIndexed_nth, Z.add_0_l.
      destruct (nth_error prev i) as [row|] eqn:E; [|reflexivity]. cbn [option_map].
      destruct (Z.eqb_spec (Z.of_nat i) index) as [Heq|]; [|reflexivity].
      destruct Hnone as [Hn|Hout]; [now rewrite Hn|].
      assert (i < length prev)%nat by (apply nth_error_Some; congruence). lia. }
    apply nth_error_ext. exact Hnth.
Qed.

Lemma filterIndexed_all {A : Type} (index : Z) (l : list A) : forall start,
  index < start \/ start + Z.of_nat (length l) <= index ->
  filterIndexed (fun _ i => negb (i =? index)) start l = l.
Proof.
  induction l as [|a l IH]; intros start H; simpl; [reflexivity|].
  simpl length in H.
  destruct (Z.eqb_spec start index); [lia|]. cbn [negb]. f_equal. apply IH. lia.
Qed.

Lemma filterIndexed_drop {A : Type} (before : list A) (a : A) (after : list A) :
  forall start,
  filterIndexed (fun _ i => negb (i =? start + Z.of_nat (length before))) start
                (before ++ a :: after)
  = before ++ after.
Proof.
  induction before as [|b before IH]; intros start; simpl.
  - rewrite Z.add_0_r, Z.eqb_refl. cbn [negb]. apply filterIndexed_all. lia.
  - destruct (Z.eqb_spec start (start + Z.pos (Pos.of_succ_nat (length before)))); [lia|].
    cbn [negb]. f_equal.
    replace (start + Z.pos (Pos.of_succ_nat (length before)))
      with (start + 1 + Z.of_nat (length before)) by lia.
    apply IH.
Qed.

(** X5: [removeRow] never empties a table.  With two rows or more it drops
    exactly the row at [index] and keeps the others in order; a table of one
    row, and an index outside the table, are left as they are. *)
Theorem removeRow_keeps_a_row (index : Z) (prev : list DistRow) :
  (prev <> [] -> removeRow index prev <> []) /\
  (forall before row after,
     prev = before ++ row :: after -> index = Z.of_nat (length before) ->
     removeRow index prev = if (1 <? length prev)%nat then before ++ after else prev) /\
  (index < 0 \/ Z.of_nat (length prev) <= index -> removeRow index prev = prev).
Proof.
  unfold removeRow. split; [|split].
  - intros Hne. destruct (Nat.ltb_spec 1 (length prev)) as [Hlen|_]; [|exact Hne].
    destruct prev as [|a [|b rest]]; simpl in Hlen; try lia.
    cbn [filterIndexed]. destruct (negb (0 =? index)) eqn:E0; [discriminate|].
    change (0 + 1) with 1. destruct (negb (1 =? index)) eqn:E1; [discriminate|].
    exfalso. destruct (Z.eqb_spec 0 index), (Z.eqb_spec 1 index); cbn in *; try discriminate; lia.
  - intros before row after -> ->.
    destruct (1 <? length (before ++ row :: after))%nat; [|reflexivity].
    apply (filterIndexed_drop before row after 0).
  - intros Hout. destruct (1 <? length prev)%nat; [|reflexivity].
    apply filterIndexed_all. lia.
Qed.

Lemma removeRow_keeps_a_row_witness :
  removeRow 1 defaultLeadTime
  = if (1 <? length defaultLeadTime)%nat
    then [mkDistRow 1 (6 # 10)] ++ [mkDistRow 3 (1 # 10)]
    else defaultLeadTime.
Proof.
  exact (proj1 (proj2 (removeRow_keeps_a_row 1 defaultLeadTime))
           [mkDistRow 1 (6 # 10)] (mkDistRow 2 (3 # 10)) [mkDistRow 3 (1 # 10)]
           eq_refl eq_refl).
Defined.

Lemma accumulate_app (l1 l2 : list DistRow) (s : Q) :
  accumulate s (l1 ++ l2) =
  (fst (accumulate s l1) ++ fst (accumulate (snd (accumulate s l1)) l2),
   snd (accumulate (snd (accumulate s l1)) l2)).
Proof.
  revert s; induction l1 as [|row rest IH]; intros s; simpl.
  - now destruct (accumulate s l2).
  - rewrite IH. destruct (accumulate (s + probability row) rest) as [rows total]. reflexivity.
Qed.

Lemma assignRanges_app scale (l1 l2 : list CumulativeRow) : forall prev,
  assignRanges scale prev (l1 ++ l2) =
  assignRanges scale prev l1 ++
  assignRanges scale (lastEnd prev (assignRanges scale prev l1)) l2.
Proof.
  induction l1 as [|row rest IH]; intros prev; simpl; [reflexivity|].
  now rewrite IH.
Qed.

Lemma find_app_none {A : Type} (f : A -> bool) (l1 l2 : list A) :
  find f l2 = None -> find f (l1 ++ l2) = find f l1.
Proof.
  intros H. induction l1 as [|a l1 IH]; simpl; [exact H|].
  now destruct (f a).
Qed.

Lemma totalProbability_addRow (dist : list DistRow) :
  (totalProbability (addRow dist) == totalProbability dist)%Q.
Proof.
  unfold totalProbability, addRow. rewrite fold_left_app. simpl. lra.
Qed.

(** X6: a row added by [addRow] (value 0, probability 0) changes nothing.
    The distribution is valid afterwards exactly when it was before, and the
    table built from it has one more row, whose range is empty: every digit
    is mapped as before. *)
Theorem addRow_same_mapping (dist : list DistRow) (scale : Z) :
  (validDistribution (addRow dist) <-> validDistribution dist) /\
  forall rows,
    buildCumulative dist scale = Ok rows ->
    exists extra,
      buildCumulative (addRow dist) scale = Ok (rows ++ [extra]) /\
      cum_value extra = 0 /\
      rangeStart extra = rangeEnd extra + 1 /\
      forall r, mapRandomToValue r (rows ++ [extra]) scale = mapRandomToValue r rows scale.
Proof.
  split.
  - unfold validDistribution. pose proof (totalProbability_addRow dist) as Ht.
    split; intros [Hne Hsum].
    + split.
      * intros ->. revert Hsum. vm_compute. intros H; apply H; reflexivity.
      * now rewrite <- Ht.
    + split.
      * unfold addRow. destruct dist; discriminate.
      * now rewrite Ht.
  - intros rows Hbuild.
    pose proof (TableFacts.buildCumulative_Ok_valid _ _ _ Hbuild) as Hvalid.
    rewrite (TableFacts.buildCumulative_valid _ scale Hvalid) in Hbuild.
    injection Hbuild as <-.
    assert (Hvalid' : validDistribution (addRow dist)).
    { unfold validDistribution in *. pose proof (totalProbability_addRow dist) as Ht.
      destruct Hvalid as [Hne Hsum]. split; [unfold addRow; destruct dist; discriminate|].
      now rewrite Ht. }
    rewrite (TableFacts.buildCumulative_valid _ scale Hvalid').
    unfold addRow. rewrite accumulate_app. cbn [fst].
    rewrite assignRanges_app. cbn [accumulate fst assignRanges].
    eexists. split; [reflexivity|].
    cbn [value probability cum_value cum_probability rangeStart rangeEnd cumulative].
    split; [reflexivity|].
    assert (Hend : Z.min scale (mathRound ((snd (accumulate 0 dist) + 0) * inject_Z scale))
                   = lastEnd 0 (assignRanges scale 0 (fst (accumulate 0 dist)))).
    { rewrite TableFacts.assignRanges_lastEnd.
      destruct Hvalid as [Hne _]. destruct dist as [|row rest]; [congruence|].
      f_equal. unfold mathRound. apply Qfloor_comp. ring. }
    split; [now rewrite Hend|].
    intros r. unfold mapRandomToValue. f_equal. apply find_app_none.
    cbn [find]. unfold inRange. cbn [rangeStart rangeEnd cumulative]. rewrite Hend.
    destruct (Z.leb_spec (lastEnd 0 (assignRanges scale 0 (fst (accumulate 0 dist))) + 1)
                         (normalize r scale));
      destruct (Z.leb_spec (normalize r scale)
                           (lastEnd 0 (assignRanges scale 0 (fst (accumulate 0 dist)))));
      cbn; try reflexivity; lia.
Qed.

Lemma addRow_same_mapping_witness :
  exists extra,
    buildCumulative (addRow defaultLeadTime) 10
    = Ok (assignRanges 10 0 (fst (accumulate 0 defaultLeadTime)) ++ [extra]) /\
    cum_value extra = 0 /\
    rangeStart extra = rangeEnd extra + 1 /\
    forall r,
      mapRandomToValue r (assignRanges 10 0 (fst (accumulate 0 defaultLeadTime)) ++ [extra]) 10
      = mapRandomToValue r (assignRanges 10 0 (fst (accumulate 0 defaultLeadTime))) 10.
Proof.
  apply (proj2 (addRow_same_mapping defaultLeadTime 10)). reflexivity.
Defined.

End DistributionStateFacts.

(** ** More facts about the inventory ledger *)

Module InventoryMoreFacts.
Import Inventory InventoryReport InventoryFacts.

(** *** Digits *)





(** *** The outcome of a run *)

Lemma prepare_Err_cases inp msg :
  prepare inp = Err msg ->
  msg <> demandRangeError /\ msg <> leadTimeRangeError.
Proof.
  unfold prepare, demandRangeError, leadTimeRangeError.
  pose proof (inventory_in_range_check 100 _ (inventory_parseDigits_range (demandDigits inp) 100))
    as Hd.
  pose proof (inventory_in_range_check 10 _ (inventory_parseDigits_range (leadTimeDigits inp) 10))
    as Hl.
  rewrite Hd, Hl.
  repeat match goal with
  | |- (_ <- failIf ?c _ ;; _) = Err _ -> _ =>
      destruct c; cbn [failIf bind];
      [intros H; injection H as <-; split; discriminate|]
  | |- (_ <- named _ ?m ;; _) = Err _ -> _ =>
      destruct m; cbn [named bind];
      [|intros H; injection H as <-; cbn [append]; split; discriminate]
  end.
  discriminate.
Qed.

(** X8: the two messages of [runSimulation] about digits out of range can
    never be shown: [parseDigits] has already dropped every digit that the
    checks would reject. *)
Theorem inventory_range_errors_unreachable (inp : Inputs) :
  runSimulation inp <> Err demandRangeError /\
  runSimulation inp <> Err leadTimeRangeError.
Proof.
  assert (H : forall msg, runSimulation inp = Err msg ->
                          msg <> demandRangeError /\ msg <> leadTimeRangeError).
  { intros msg Hrun. unfold runSimulation in Hrun.
    destruct (prepare inp) as [cfg|msg'] eqn:Hprep.
    - exfalso. destruct (prepare_Ok _ _ Hprep) as (Hvalid & Hdigits & _).
      destruct (run_total inp Hvalid Hdigits) as (cfg' & final & _ & _ & Hok & _).
      unfold runSimulation in Hok. rewrite Hprep in Hok. congruence.
    - cbn [bind] in Hrun. injection Hrun as <-. eapply prepare_Err_cases. exact Hprep. }
  split; intros Hrun; destruct (H _ Hrun) as [H1 H2]; congruence.
Qed.


(** *** The columns that the day loop copies *)

Lemma skipn_nth_cons {A : Type} (l : list A) (n : nat) (a : A) :
  nth_error l n = Some a -> skipn n l = a :: skipn (S n) l.
Proof.
  revert n; induction l as [|x l IH]; intros [|n] H; try discriminate.
  - injection H as <-. reflexivity.
  - simpl in H. simpl. apply IH. exact H.
Qed.

Lemma inventory_loop_frame cfg l : forall st st',
  forEachM (simulateDay cfg) l st = Ok st' ->
  exists extra,
    table st' = table st ++ extra /\
    map (fun row => (cycle row, day row)) extra = l /\
    map randDemand extra = firstn (length l) (skipn (demandIndex st) (demandNums cfg)) /\
    Forall (fun row =>
              Tables.mapRandomToValue (randDemand row) (demandRows cfg) 100
              = Some (demand row)) extra.
Proof.
  induction l as [|[c d] l IH]; intros st st' H; cbn [forEachM] in H.
  - injection H as <-. exists []. rewrite app_nil_r. simpl. auto.
  - destruct (simulateDay cfg st (c, d)) as [st1|msg] eqn:E; [|discriminate].
    cbn [bind] in H. destruct (IH _ _ H) as (extra & Ht & Hs & Hd & Hm).
    open_day E rd dt r Hdigit Hmap Hreview Hafter. subst st1.
    cbn [table demandIndex] in Ht, Hd.
    eexists (_ :: extra). rewrite Ht, <- app_assoc. cbn [app].
    split; [reflexivity|]. cbn [map cycle day randDemand length].
    split; [now rewrite Hs|]. split.
    + rewrite (skipn_nth_cons _ _ _ Hdigit). cbn [firstn]. now rewrite Hd.
    + constructor; [exact Hmap | exact Hm].
Qed.

(** X10: the ledger of a run shows the days in the order of the horizon,
    cycle by cycle and day by day; its demand digits are the usable digits
    of the demand stream from the first on, one per day; and each demand is
    the value that the demand table gives for the digit of its row. *)
Theorem inventory_ledger_columns (inp : Inputs) (rows : list SimulationRow) :
  runSimulation inp = Ok rows ->
  map (fun row => (cycle row, day row)) rows
  = schedule (numCycles inp) (daysPerCycle inp) /\
  map randDemand rows = firstn (length rows) (parseDigits (demandDigits inp) 100) /\
  exists demandRows,
    Tables.buildCumulative (demand_dist inp) 100 = Ok demandRows /\
    Forall (fun row =>
              Tables.mapRandomToValue (randDemand row) demandRows 100 = Some (demand row))
           rows.
Proof.
  intros Hrun.
  destruct (run_Ok _ _ Hrun) as (cfg & final & Hprep & _ & _ & Hloop & ->).
  destruct (prepare_Ok _ _ Hprep) as (_ & _ & dr & lr & Ed & _ & Hcfg).
  destruct (inventory_loop_frame _ _ _ _ Hloop) as (extra & Ht & Hs & Hd & Hm).
  cbn [startOf initialState table demandIndex app skipn] in Ht, Hd. subst extra.
  split; [exact Hs|]. split.
  - rewrite Hd. rewrite <- Hs, length_map. rewrite Hcfg. reflexivity.
  - exists dr. split; [exact Ed|]. rewrite Hcfg in Hm. exact Hm.
Qed.

Lemma inventory_ledger_columns_witness :
  map (fun row => (cycle row, day row))
      (match runSimulation defaultInputs with Ok t => t | Err _ => [] end)
  = schedule 5 5 /\
  map randDemand (match runSimulation defaultInputs with Ok t => t | Err _ => [] end)
  = firstn (length (match runSimulation defaultInputs with Ok t => t | Err _ => [] end))
           (parseDigits (demandDigits defaultInputs) 100) /\
  exists demandRows,
    Tables.buildCumulative Tables.defaultDemand 100 = Ok demandRows /\
    Forall (fun row =>
              Tables.mapRandomToValue (randDemand row) demandRows 100 = Some (demand row))
           (match runSimulation defaultInputs with Ok t => t | Err _ => [] end).
Proof.
  apply (inventory_ledger_columns defaultInputs). vm_compute. reflexivity.
Defined.

(** *** The flow of stock *)

Lemma arrivalsOn_nonneg c d orders :
  Forall (fun order => 0 < quantity order) orders -> 0 <= arrivalsOn c d orders.
Proof.
  intros H. unfold arrivalsOn.
  assert (Hgen : forall l acc, Forall (fun order => 0 < quantity order) l -> 0 <= acc ->
                   0 <= fold_left (fun total order => total + quantity order) l acc).
  { induction l as [|o l IH]; intros acc Hl Hacc; simpl; [exact Hacc|].
    inversion Hl; subst. apply IH; [assumption | lia]. }
  apply Hgen; [|lia].
  apply Forall_forall. intros o Ho. apply filter_In in Ho.
  rewrite Forall_forall in H. apply H. tauto.
Qed.

(** The two steps of a day keep the stock and the backlog non-negative and
    the net stock in balance. *)
Lemma day_flow (stock backlog demandToday : Z) :
  0 <= stock -> 0 <= backlog ->
  let settled := settleBacklog stock backlog in
  let served := serveDemand (fst settled) (snd settled) demandToday in
  0 <= fst served /\ 0 <= snd served /\
  fst served - snd served = stock - backlog - demandToday.
Proof.
  intros Hs Hb. unfold settleBacklog, serveDemand.
  destruct (Z.ltb_spec 0 backlog); [destruct (Z.leb_spec backlog stock)|];
    cbn [fst snd];
    match goal with |- context [?a <=? ?b] => destruct (Z.leb_spec a b) end;
    cbn [fst snd]; lia.
Qed.

Lemma review_orders_positive cfg c d ending short pending idx shown r :
  review cfg c d ending short pending idx shown = Ok r ->
  Forall (fun order => 0 < quantity order) pending ->
  Forall (fun order => 0 < quantity order) (r_pendingOrders r).
Proof.
  intros Hreview Hpending.
  pose proof (review_Ok _ _ _ _ _ _ _ _ _ Hreview) as Hr. cbv zeta in Hr.
  destruct Hr as (_ & Hnone & Hsome).
  destruct (Z.eq_dec d (days cfg)) as [Hd|Hd];
    [|destruct Hnone as (-> & _); auto].
  destruct (Z_lt_le_dec 0 (invLimit cfg - ending + short)) as [HQ|HQ];
    [|destruct Hnone as (-> & _); auto].
  destruct (nth_error (leadTimeNums cfg) idx) as [digit|] eqn:En;
    [|destruct Hnone as (-> & _); auto].
  destruct (Hsome Hd HQ digit eq_refl) as (lead & _ & -> & _).
  apply Forall_app. split; [exact Hpending|]. constructor; [exact HQ | constructor].
Qed.

Lemma previousShortage_last table row :
  previousShortage (table ++ [row]) = shortage row.
Proof.
  unfold previousShortage. destruct (table ++ [row]) eqn:E.
  - destruct table; discriminate.
  - rewrite <- E. now rewrite last_last.
Qed.

Lemma opening_app initInv table extra n :
  (n <= length table)%nat ->
  openingStock initInv (table ++ extra) n = openingStock initInv table n /\
  openingBacklog (table ++ extra) n = openingBacklog table n.
Proof.
  intros Hn. destruct n as [|m]; [split; reflexivity|].
  unfold openingStock, openingBacklog. rewrite nth_error_app1 by lia. split; reflexivity.
Qed.

Lemma opening_last initInv table row :
  openingStock initInv (table ++ [row]) (S (length table)) = endingInventory row /\
  openingBacklog (table ++ [row]) (S (length table)) = shortage row.
Proof.
  unfold openingStock, openingBacklog.
  rewrite nth_error_app2 by lia. rewrite Nat.sub_diag. split; reflexivity.
Qed.

(** A successful day keeps the invariant of the ledger. *)
Lemma simulateDay_invariant initInv cfg st today st' :
  ledgerInvariant initInv st ->
  simulateDay cfg st today = Ok st' ->
  ledgerInvariant initInv st'.
Proof.
  intros (Hinv & Hopen & Hback & Hshort & Horders & Hrows & Hbal) Hday.
  destruct today as [c d].
  open_day Hday rd dt r Hdigit Hmap Hreview Hafter.
  pose proof (arrivalsOn_nonneg c d _ Horders) as Harr.
  pose proof (day_flow (inventory st + arrivalsOn c d (pendingOrders st))
                (previousShortage (table st)) dt ltac:(lia) Hshort) as Hflow.
  cbv zeta in Hflow. destruct Hflow as (He & Hs & Hnet).
  set (served := serveDemand _ _ dt) in *.
  subst st'. unfold ledgerInvariant. cbn [inventory table pendingOrders].
  rewrite length_app. cbn [length]. rewrite Nat.add_1_r.
  destruct (opening_last initInv (table st)
              (mkSimulationRow c d (inventory st + arrivalsOn c d (pendingOrders st)) rd dt
                 (fst served) (snd served) (r_orderQuantity r) (r_randLeadTime r)
                 (r_daysUntilArrival r))) as [Hos Hob].
  rewrite Hos, Hob, previousShortage_last. cbn [endingInventory shortage].
  split; [exact He|]. split; [reflexivity|]. split; [reflexivity|]. split; [exact Hs|].
  split.
  { eapply review_orders_positive; [exact Hreview|].
    unfold stillPending. apply Forall_forall. intros o Ho. apply filter_In in Ho.
    rewrite Forall_forall in Horders. apply Horders. tauto. }
  split.
  { apply Forall_app. split; [exact Hrows|]. constructor; [|constructor].
    unfold nonNegative. cbn [beginningInventory endingInventory shortage]. lia. }
  intros n row Hn.
  destruct (Nat.lt_ge_cases n (length (table st))) as [Hlt|Hge].
  - rewrite nth_error_app1 in Hn by exact Hlt.
    unfold balanced.
    destruct (opening_app initInv (table st)
                [mkSimulationRow c d (inventory st + arrivalsOn c d (pendingOrders st)) rd dt
                   (fst served) (snd served) (r_orderQuantity r) (r_randLeadTime r)
                   (r_daysUntilArrival r)] n ltac:(lia)) as [-> ->].
    apply Hbal. exact Hn.
  - assert (Hlen : n = length (table st)).
    { assert (n < length (table st ++ [mkSimulationRow c d
                 (inventory st + arrivalsOn c d (pendingOrders st)) rd dt
                 (fst served) (snd served) (r_orderQuantity r) (r_randLeadTime r)
                 (r_daysUntilArrival r)]))%nat by (apply nth_error_Some; congruence).
      rewrite length_app in H. cbn [length] in H. lia. }
    subst n. rewrite nth_error_app2 in Hn by lia. rewrite Nat.sub_diag in Hn.
    injection Hn as <-. unfold balanced.
    destruct (opening_app initInv (table st)
                [mkSimulationRow c d (inventory st + arrivalsOn c d (pendingOrders st)) rd dt
                   (fst served) (snd served) (r_orderQuantity r) (r_randLeadTime r)
                   (r_daysUntilArrival r)] (length (table st)) ltac:(lia)) as [-> ->].
    cbn [beginningInventory endingInventory shortage demand].
    rewrite <- Hopen, <- Hback. lia.
Qed.

(** Every finished run kept the invariant of the ledger. *)
Lemma inventory_run_invariant inp rows :
  runSimulation inp = Ok rows ->
  Forall nonNegative rows /\
  forall n row, nth_error rows n = Some row -> balanced (initialInventory inp) rows n row.
Proof.
  intros Hrun.
  destruct (run_Ok _ _ Hrun) as (cfg & final & Hprep & _ & _ & Hloop & ->).
  destruct (prepare_Ok _ _ Hprep) as ((_ & _ & Hinv & _ & Hq & _) & _).
  assert (Hstart : ledgerInvariant (initialInventory inp) (startOf inp)).
  { unfold ledgerInvariant, startOf, initialState.
    cbn [inventory table pendingOrders length previousShortage openingStock openingBacklog].
    split; [exact Hinv|]. split; [reflexivity|]. split; [reflexivity|]. split; [lia|].
    split.
    - unfold initialOrders.
      destruct (Z.ltb_spec 0 (initialOrderQuantity inp)); cbn [andb]; [|constructor].
      destruct (0 <? initialOrderLeadTime inp); constructor; [exact H | constructor].
    - split; [constructor|]. intros n row Hn. destruct n; discriminate. }
  pose proof (LoopFacts.forEachM_invariant (simulateDay cfg)
                (ledgerInvariant (initialInventory inp)) _
                (fun s a s' Hs Hstep => simulateDay_invariant _ _ _ _ _ Hs Hstep)
                _ _ Hstart Hloop) as (_ & _ & _ & _ & _ & Hrows & Hbal).
  split; assumption.
Qed.

(** X11: stock is conserved from day to day.  In the ledger of any run, a
    day opens with at least the stock that closed the day before (the
    initial inventory on the first day; deliveries can only add to it), and
    ending inventory minus shortage equals beginning inventory, minus the
    shortage of the day before, minus the demand of the day. *)
Theorem inventory_stock_balance (inp : Inputs) (rows : list SimulationRow) :
  runSimulation inp = Ok rows ->
  forall n row,
    nth_error rows n = Some row ->
    openingStock (initialInventory inp) rows n <= beginningInventory row /\
    endingInventory row - shortage row
    = beginningInventory row - openingBacklog rows n - demand row.
Proof.
  intros Hrun n row Hn.
  destruct (inventory_run_invariant _ _ Hrun) as [_ Hbal]. exact (Hbal n row Hn).
Qed.

(** The third day of the run the page starts with: the order of 8 units
    placed before the run arrives. *)
Lemma inventory_stock_balance_witness :
  exists rows row,
    runSimulation defaultInputs = Ok rows /\
    nth_error rows 2 = Some row /\
    beginningInventory row = 9 /\
    openingStock 3 rows 2 <= beginningInventory row /\
    endingInventory row - shortage row
    = beginningInventory row - openingBacklog rows 2 - demand row.
Proof.
  eexists _, _. split; [vm_compute; reflexivity|]. split; [reflexivity|].
  split; [reflexivity|].
  apply (inventory_stock_balance defaultInputs _ ltac:(vm_compute; reflexivity) 2%nat).
  reflexivity.
Defined.

(** X12: no row of the ledger of a run shows a negative beginning
    inventory, a negative ending inventory or a negative shortage, whatever
    the values in the demand table. *)
Theorem inventory_never_negative (inp : Inputs) (rows : list SimulationRow) :
  runSimulation inp = Ok rows ->
  Forall (fun row => 0 <= beginningInventory row /\ 0 <= endingInventory row /\
                     0 <= shortage row) rows.
Proof.
  intros Hrun. destruct (inventory_run_invariant _ _ Hrun) as [Hrows _]. exact Hrows.
Qed.

Lemma inventory_never_negative_witness :
  Forall (fun row => 0 <= beginningInventory row /\ 0 <= endingInventory row /\
                     0 <= shortage row)
         (match runSimulation negativeDemand with Ok t => t | Err _ => [] end).
Proof.
  apply (inventory_never_negative negativeDemand). vm_compute. reflexivity.
Defined.

(** *** The totals under the ledger *)

Lemma filter_none_iff {A : Type} (f : A -> bool) (l : list A) :
  length (filter f l) = 0%nat <-> Forall (fun a => f a = false) l.
Proof.
  induction l as [|a l IH]; simpl.
  - split; [constructor | reflexivity].
  - destruct (f a) eqn:E; simpl.
    + split; [discriminate | intros H; inversion H; congruence].
    + rewrite IH. split; [intros H; constructor; assumption | intros H; now inversion H].
Qed.

(** X13: the totals shown after an inventory run.  The run's ledger is
    never empty, so the totals exist; the average ending inventory is not
    negative; the number of shortage days is at most the number of days, so
    that the shortage probability lies between 0 and 1; and that
    probability is 0 exactly when no day ended with a shortage. *)
Theorem inventory_totals_of_run (inp : Inputs) (rows : list SimulationRow) :
  runSimulation inp = Ok rows ->
  exists t,
    totals rows = Some t /\
    (0 <= avgEndingInventory t)%Q /\
    0 <= shortageDays t <= numCycles inp * daysPerCycle inp /\
    (0 <= shortageProbability t <= 1)%Q /\
    ((shortageProbability t == 0)%Q <-> Forall (fun row => shortage row = 0) rows).
Proof.
  intros Hrun.
  destruct (inventory_run_invariant _ _ Hrun) as [Hrows _].
  destruct (run_Ok _ _ Hrun) as (cfg & _ & Hprep & _).
  destruct (prepare_Ok _ _ Hprep) as (Hvalid & Hdigits & _).
  destruct (run_total inp Hvalid Hdigits) as (cfg' & final & _ & _ & Hok & Hlen).
  rewrite Hok in Hrun. injection Hrun as <-.
  destruct Hvalid as (Hc & Hd & _).
  assert (Hpos : 0 < Z.of_nat (length (table final))) by nia.
  pose proof (filter_length_le (fun row => 0 <? shortage row) (table final)) as Hle.
  revert Hrows Hlen Hle Hpos.
  destruct (table final) as [|row rest]; intros Hrows Hlen Hle Hpos; [simpl in Hpos; lia|].
  eexists. split; [reflexivity|].
  cbn [avgEndingInventory shortageDays shortageProbability].
  split; [|split; [|split]].
  - apply ReportFacts.ratio_nonneg; [|exact Hpos]. apply ReportFacts.sumOver_nonneg.
    eapply Forall_impl; [|exact Hrows]. intros r (_ & He & _). exact He.
  - rewrite <- Hlen. split; [apply Nat2Z.is_nonneg | apply Nat2Z.inj_le; exact Hle].
  - apply ReportFacts.ratio_bounds; [|exact Hpos]. split; [apply Nat2Z.is_nonneg | apply Nat2Z.inj_le; exact Hle].
  - rewrite ReportFacts.ratio_zero by lia.
    rewrite <- Nat2Z.inj_0, Nat2Z.inj_iff, filter_none_iff.
    split; intros H; rewrite Forall_forall in *; intros r Hr.
    + specialize (H r Hr). specialize (Hrows r Hr). destruct Hrows as (_ & _ & Hs).
      cbv beta in H. apply Z.ltb_ge in H. unfold nonNegative in Hs. lia.
    + specialize (H r Hr). cbv beta in H. rewrite H. reflexivity.
Qed.

Lemma inventory_totals_of_run_witness :
  exists t,
    totals (match runSimulation defaultInputs with Ok t => t | Err _ => [] end) = Some t /\
    (0 <= avgEndingInventory t)%Q /\
    0 <= shortageDays t <= 5 * 5 /\
    (0 <= shortageProbability t <= 1)%Q /\
    ((shortageProbability t == 0)%Q <->
     Forall (fun row => shortage row = 0)
            (match runSimulation defaultInputs with Ok t => t | Err _ => [] end)).
Proof.
  apply (inventory_totals_of_run defaultInputs). vm_compute. reflexivity.
Defined.

(** *** Where an order arrives *)



End InventoryMoreFacts.

(** ** More facts about the single-server ledger *)

Module SingleServerMoreFacts.
Import SingleServer SingleServerReport SingleServerFacts ReportFacts.

Lemma existsb_false_Forall {A : Type} (f : A -> bool) (l : list A) :
  existsb f l = false -> Forall (fun a => f a = false) l.
Proof.
  induction l as [|a l IH]; simpl; intros H; constructor;
    apply orb_false_iff in H; [tauto | apply IH; tauto].
Qed.

Lemma single_parsed_in_range numbers :
  existsb (fun d => (d <? 1) || (100 <? d)) (parseDigits numbers) = false ->
  Forall (fun d => 0 <= d <= 100) numbers /\
  Forall (fun d => 1 <= d <= 100) (parseDigits numbers).
Proof.
  intros H. apply existsb_false_Forall in H.
  split.
  - unfold parseDigits in H. rewrite Forall_map in H.
    eapply Forall_impl; [|exact H]. intros d Hd; cbv beta in *.
    apply orb_false_iff in Hd. destruct (Z.eqb_spec d 0); lia.
  - eapply Forall_impl; [|exact H]. intros d Hd; cbv beta in *.
    apply orb_false_iff in Hd. lia.
Qed.

(** Past the checks the loop serves every customer. *)
Lemma single_checks_passed arrival service arrivalRows serviceRows
    arrivalDigits serviceDigits count :
  (count <? 1) = false ->
  buildCumulative arrival = Ok arrivalRows ->
  buildCumulative service = Ok serviceRows ->
  (Z.of_nat (length (parseDigits arrivalDigits)) <? count - 1) = false ->
  (Z.of_nat (length (parseDigits serviceDigits)) <? count) = false ->
  existsb (fun d => (d <? 1) || (100 <? d))
          (parseDigits arrivalDigits ++ parseDigits serviceDigits) = false ->
  accepted arrival service arrivalDigits serviceDigits count /\
  exists table,
    forEachM (simulateCustomer arrivalRows serviceRows
                (parseDigits arrivalDigits) (parseDigits serviceDigits))
             (seq 0 (Z.to_nat count)) [] = Ok table /\
    Z.of_nat (length table) = count /\
    forall i row,
      nth_error table i = Some row ->
      obeysRecurrence arrivalRows serviceRows
        (parseDigits arrivalDigits) (parseDigits serviceDigits) table i row.
Proof.
  intros Hcount Hba Hbs Hla Hls Hrange.
  rewrite single_parseDigits_length in Hla, Hls.
  rewrite existsb_app in Hrange. apply orb_false_iff in Hrange. destruct Hrange as [Hra Hrs].
  apply single_parsed_in_range in Hra, Hrs.
  destruct Hra as [Hra Hpa], Hrs as [Hrs Hps].
  split.
  - unfold accepted. split; [lia|].
    split; [eapply TableFacts.buildCumulative_Ok_valid; exact Hba|].
    split; [eapply TableFacts.buildCumulative_Ok_valid; exact Hbs|].
    split; [lia|]. split; [lia|]. apply Forall_app. split; assumption.
  - destruct (single_loop_ok arrival service _ _ (parseDigits arrivalDigits)
                (parseDigits serviceDigits) Hba Hbs Hpa Hps (Z.to_nat count) 0%nat [])
      as (table & Hrun & Hlen & Hinv).
    + reflexivity.
    + rewrite single_parseDigits_length. lia.
    + rewrite single_parseDigits_length. lia.
    + intros [|i] row Hi; discriminate.
    + exists table. split; [exact Hrun|]. split; [simpl in Hlen; lia | exact Hinv].
Qed.

(** A finished run passed the checks, and its ledger obeys the recurrence. *)
Lemma single_run_Ok arrival service arrivalDigits serviceDigits count table :
  runSimulation arrival service arrivalDigits serviceDigits count = Ok table ->
  accepted arrival service arrivalDigits serviceDigits count /\
  Z.of_nat (length table) = count /\
  exists arrivalRows serviceRows,
    forall i row,
      nth_error table i = Some row ->
      obeysRecurrence arrivalRows serviceRows
        (parseDigits arrivalDigits) (parseDigits serviceDigits) table i row.
Proof.
  unfold runSimulation. intros H.
  apply InventoryFacts.failIf_Ok in H; destruct H as [C1 H].
  destruct (buildCumulative arrival) as [arrivalRows|] eqn:Hba; [|discriminate].
  destruct (buildCumulative service) as [serviceRows|] eqn:Hbs; [|discriminate].
  cbn [named bind] in H.
  apply InventoryFacts.failIf_Ok in H; destruct H as [C2 H].
  apply InventoryFacts.failIf_Ok in H; destruct H as [C3 H].
  apply InventoryFacts.failIf_Ok in H; destruct H as [C4 H].
  destruct (single_checks_passed _ _ _ _ _ _ _ C1 Hba Hbs C2 C3 C4)
    as (Hacc & table' & Hrun & Hlen & Hinv).
  rewrite Hrun in H. injection H as <-.
  split; [exact Hacc|]. split; [exact Hlen|]. exists arrivalRows, serviceRows. exact Hinv.
Qed.



Lemma obeys_wellFormed arrivalRows serviceRows arrivalNums serviceNums table i row :
  obeysRecurrence arrivalRows serviceRows arrivalNums serviceNums table i row ->
  wellFormed row.
Proof.
  unfold obeysRecurrence, wellFormed. intros (Hhead & _ & Hw & He & Ht).
  destruct i as [|j].
  - destruct Hhead as (_ & _ & Hs & Hi). lia.
  - destruct Hhead as (prev & digit & _ & _ & _ & _ & Hs & Hi). lia.
Qed.

(** X16: in the ledger of any single-server run no customer waits a
    negative time and the server is never idle a negative time; a customer
    who waits finds no idle time, and idle time is followed by no wait;
    service starts no earlier than the arrival and ends one service time
    later; and customers are served one after the other: each service
    starts when the one before has ended, the gap between the two being
    the idle time. *)
Theorem single_ledger_well_formed (arrivalDist serviceDist : list Tables.DistRow)
    (arrivalDigits serviceDigits : list Z) (count : Z) (table : list SimulationRow) :
  runSimulation arrivalDist serviceDist arrivalDigits serviceDigits count = Ok table ->
  Forall wellFormed table /\
  forall i prev row,
    nth_error table i = Some prev -> nth_error table (S i) = Some row ->
    serviceEnd prev <= serviceStart row /\
    idle row = serviceStart row - serviceEnd prev /\
    arrival row = arrival prev + interarrival row.
Proof.
  intros Hrun. apply single_run_Ok in Hrun.
  destruct Hrun as (_ & _ & arrivalRows & serviceRows & Hinv).
  split.
  - apply Forall_forall. intros row Hin. apply In_nth_error in Hin.
    destruct Hin as [i Hi]. eapply obeys_wellFormed. exact (Hinv i row Hi).
  - intros i prev row Hprev Hrow.
    destruct (Hinv (S i) row Hrow) as ((prev' & digit & Hp & _ & _ & Ha & Hs & Hi) & _).
    rewrite Hprev in Hp. injection Hp as <-. lia.
Qed.

Lemma single_ledger_well_formed_witness :
  Forall wellFormed
    (match runSimulation MultiServer.defaultArrival MultiServer.defaultService
             [15; 64; 12; 87; 34; 56; 90; 10] [5; 44; 70; 22; 91; 39; 60; 8] 8 with
     | Ok table => table
     | Err _ => []
     end) /\
  forall i prev row,
    nth_error
      (match runSimulation MultiServer.defaultArrival MultiServer.defaultService
               [15; 64; 12; 87; 34; 56; 90; 10] [5; 44; 70; 22; 91; 39; 60; 8] 8 with
       | Ok table => table
       | Err _ => []
       end) i = Some prev ->
    nth_error
      (match runSimulation MultiServer.defaultArrival MultiServer.defaultService
               [15; 64; 12; 87; 34; 56; 90; 10] [5; 44; 70; 22; 91; 39; 60; 8] 8 with
       | Ok table => table
       | Err _ => []
       end) (S i) = Some row ->
    serviceEnd prev <= serviceStart row /\
    idle row = serviceStart row - serviceEnd prev /\
    arrival row = arrival prev + interarrival row.
Proof.
  apply (single_ledger_well_formed MultiServer.defaultArrival MultiServer.defaultService
           [15; 64; 12; 87; 34; 56; 90; 10] [5; 44; 70; 22; 91; 39; 60; 8] 8).
  vm_compute. reflexivity.
Defined.

(** The columns that telescope along a ledger obeying the recurrence. *)
Lemma single_columns_telescope arrivalRows serviceRows arrivalNums serviceNums table :
  (forall i row, nth_error table i = Some row ->
     obeysRecurrence arrivalRows serviceRows arrivalNums serviceNums table i row) ->
  sumOver idle table + sumOver service table =
    match table with [] => 0 | _ :: _ => serviceEnd (lastRow table) end /\
  sumOver interarrival table =
    match table with [] => 0 | _ :: _ => arrival (lastRow table) end /\
  sumOver timeInSystem table = sumOver waiting table + sumOver service table.
Proof.
  intros Hinv. split; [|split].
  - rewrite <- sumOver_plus. unfold lastRow. apply sumOver_telescope.
    intros i row Hi. destruct (Hinv i row Hi) as (Hhead & _ & _ & He & _).
    destruct i as [|j].
    + destruct Hhead as (_ & _ & _ & Hidle). lia.
    + destruct Hhead as (prev & digit & Hp & _ & _ & _ & _ & Hidle). rewrite Hp. lia.
  - unfold lastRow. apply sumOver_telescope.
    intros i row Hi. destruct (Hinv i row Hi) as (Hhead & _).
    destruct i as [|j].
    + destruct Hhead as (Hia & Ha & _). lia.
    + destruct Hhead as (prev & digit & Hp & _ & _ & Ha & _). rewrite Hp. lia.
  - rewrite <- sumOver_plus. apply sumOver_ext.
    apply Forall_forall. intros row Hin. apply In_nth_error in Hin.
    destruct Hin as [i Hi]. destruct (Hinv i row Hi) as (_ & _ & _ & _ & Ht). exact Ht.
Qed.

(** X17: the totals row under the ledger of a single-server run adds up.
    The total of the interarrival times is the arrival time of the last
    customer; the total idle time plus the total service time is the time
    at which the last service ends; and the total time in system is the
    total waiting time plus the total service time. *)
Theorem single_totals_add_up (arrivalDist serviceDist : list Tables.DistRow)
    (arrivalDigits serviceDigits : list Z) (count : Z) (table : list SimulationRow) :
  runSimulation arrivalDist serviceDist arrivalDigits serviceDigits count = Ok table ->
  exists t,
    totals table = Some t /\
    t_interarrival t = t_arrival t /\
    t_idle t + t_service t = serviceEnd (lastRow table) /\
    t_timeInSystem t = t_waiting t + t_service t.
Proof.
  intros Hrun. apply single_run_Ok in Hrun.
  destruct Hrun as ((Hcount & _) & Hlen & arrivalRows & serviceRows & Hinv).
  destruct (single_columns_telescope _ _ _ _ _ Hinv) as (H1 & H2 & H3).
  destruct table as [|row rest]; [simpl in Hlen; lia|].
  eexists. split; [reflexivity|]. cbn [t_interarrival t_arrival t_idle t_service
                                       t_timeInSystem t_waiting].
  auto.
Qed.

Lemma single_totals_add_up_witness :
  exists t,
    totals (match runSimulation MultiServer.defaultArrival MultiServer.defaultService
                    [15; 64; 12; 87; 34; 56; 90; 10] [5; 44; 70; 22; 91; 39; 60; 8] 8 with
            | Ok table => table
            | Err _ => []
            end) = Some t /\
    t_interarrival t = t_arrival t /\
    t_idle t + t_service t =
      serviceEnd (lastRow
        (match runSimulation MultiServer.defaultArrival MultiServer.defaultService
                 [15; 64; 12; 87; 34; 56; 90; 10] [5; 44; 70; 22; 91; 39; 60; 8] 8 with
         | Ok table => table
         | Err _ => []
         end)) /\
    t_timeInSystem t = t_waiting t + t_service t.
Proof.
  apply (single_totals_add_up MultiServer.defaultArrival MultiServer.defaultService
           [15; 64; 12; 87; 34; 56; 90; 10] [5; 44; 70; 22; 91; 39; 60; 8] 8).
  vm_compute. reflexivity.
Defined.

(** X18: in the summary of a single-server run the server is either idle
    or busy: when the last service ends at a time other than 0, the idle
    percentage and the utilization add up to 100; when it ends at 0 both
    are 0.  The average waiting time is never negative. *)
Theorem single_summary_percentages (arrivalDist serviceDist : list Tables.DistRow)
    (arrivalDigits serviceDigits : list Z) (count : Z) (table : list SimulationRow) :
  runSimulation arrivalDist serviceDist arrivalDigits serviceDigits count = Ok table ->
  exists s,
    summary table = Some s /\
    (serviceEnd (lastRow table) <> 0 -> (idlePercent s + utilization s == 100)%Q) /\
    (serviceEnd (lastRow table) = 0 -> (idlePercent s == 0 /\ utilization s == 0)%Q) /\
    (0 <= avgWaiting s)%Q.
Proof.
  intros Hrun. apply single_run_Ok in Hrun.
  destruct Hrun as ((Hcount & _) & Hlen & arrivalRows & serviceRows & Hinv).
  destruct (single_columns_telescope _ _ _ _ _ Hinv) as (H1 & _ & _).
  assert (Hwf : Forall wellFormed table).
  { apply Forall_forall. intros row Hin. apply In_nth_error in Hin.
    destruct Hin as [i Hi]. eapply obeys_wellFormed. exact (Hinv i row Hi). }
  assert (Hidle : sumOver (fun r => Z.max (idle r) 0) table = sumOver idle table).
  { apply sumOver_ext. eapply Forall_impl; [|exact Hwf].
    intros row (_ & Hi & _). lia. }
  destruct table as [|row rest]; [simpl in Hlen; lia|].
  eexists. split; [reflexivity|]. cbn [idlePercent utilization avgWaiting].
  rewrite Hidle. split; [|split].
  - intros Hnz. apply percentOf_split; assumption.
  - intros Hz. unfold percentOf. rewrite Hz. cbn. split; reflexivity.
  - apply ratio_nonneg; [|lia]. apply sumOver_nonneg.
    eapply Forall_impl; [|exact Hwf]. intros r (Hw & _). exact Hw.
Qed.

Lemma single_summary_percentages_witness :
  exists s,
    summary (match runSimulation MultiServer.defaultArrival MultiServer.defaultService
                     [15; 64; 12; 87; 34; 56; 90; 10] [5; 44; 70; 22; 91; 39; 60; 8] 8 with
             | Ok table => table
             | Err _ => []
             end) = Some s /\
    (serviceEnd (lastRow
       (match runSimulation MultiServer.defaultArrival MultiServer.defaultService
                [15; 64; 12; 87; 34; 56; 90; 10] [5; 44; 70; 22; 91; 39; 60; 8] 8 with
        | Ok table => table
        | Err _ => []
        end)) <> 0 -> (idlePercent s + utilization s == 100)%Q) /\
    (serviceEnd (lastRow
       (match runSimulation MultiServer.defaultArrival MultiServer.defaultService
                [15; 64; 12; 87; 34; 56; 90; 10] [5; 44; 70; 22; 91; 39; 60; 8] 8 with
        | Ok table => table
        | Err _ => []
        end)) = 0 -> (idlePercent s == 0 /\ utilization s == 0)%Q) /\
    (0 <= avgWaiting s)%Q.
Proof.
  apply (single_summary_percentages MultiServer.defaultArrival MultiServer.defaultService
           [15; 64; 12; 87; 34; 56; 90; 10] [5; 44; 70; 22; 91; 39; 60; 8] 8).
  vm_compute. reflexivity.
Defined.

End SingleServerMoreFacts.

(** ** More facts about the two-server ledger *)

Module MultiServerMoreFacts.
Import MultiServer MultiServerReport MultiServerFacts ReportFacts.

(** What the branch on server availability assigns, whichever branch runs. *)
Lemma assign_facts priorityServer e1 e2 t s1 s2 :
  let a := assign priorityServer e1 e2 t s1 s2 in
  t <= a_serviceStart a /\
  a_waiting a = a_serviceStart a - t /\
  0 <= a_idle1 a /\ 0 <= a_idle2 a /\
  (0 < a_waiting a -> a_idle1 a = 0 /\ a_idle2 a = 0) /\
  match a_serverUsed a with
  | Server1 =>
      a_serviceTime a = s1 /\ a_serviceEnd a = a_serviceStart a + s1 /\
      a_idle2 a = 0 /\ e1 <= a_serviceStart a /\
      a_server1End a = e1 + a_idle1 a + s1 /\ a_server1End a = a_serviceEnd a /\
      a_server2End a = e2
  | Server2 =>
      a_serviceTime a = s2 /\ a_serviceEnd a = a_serviceStart a + s2 /\
      a_idle1 a = 0 /\ e2 <= a_serviceStart a /\
      a_server2End a = e2 + a_idle2 a + s2 /\ a_server2End a = a_serviceEnd a /\
      a_server1End a = e1
  end.
Proof.
  cbv zeta. unfold assign.
  destruct (Z.leb_spec e1 t), (Z.leb_spec e2 t), priorityServer;
    cbn [andb Server_eqb];
    try (destruct (Z.leb_spec e1 e2));
    cbn [a_serverUsed a_serviceTime a_serviceStart a_serviceEnd a_waiting a_idle1 a_idle2
         a_server1End a_server2End];
    repeat split; lia.
Qed.

(** What a successful turn of the loop did. *)
Lemma multi_simulateCustomer_Ok priorityServer arrivalRows service1Rows service2Rows
    arrivalNums serviceNums st i st' :
  simulateCustomer priorityServer arrivalRows service1Rows service2Rows
    arrivalNums serviceNums st i = Ok st' ->
  exists randArrival interarrival arrivalTime randService serviceTime1 serviceTime2,
    mapRandomToValue randService service1Rows = Some serviceTime1 /\
    mapRandomToValue randService service2Rows = Some serviceTime2 /\
    let a := assign priorityServer (server1End st) (server2End st)
               arrivalTime serviceTime1 serviceTime2 in
    st' = mkState
            (table st ++
             [mkSimulationRow (Z.of_nat i + 1) randArrival interarrival arrivalTime
                randService
                (onlyFor Server1 (a_serverUsed a) serviceTime1)
                (onlyFor Server1 (a_serverUsed a) (a_serviceStart a))
                (onlyFor Server1 (a_serverUsed a) (a_serviceEnd a))
                (onlyFor Server2 (a_serverUsed a) serviceTime2)
                (onlyFor Server2 (a_serverUsed a) (a_serviceStart a))
                (onlyFor Server2 (a_serverUsed a) (a_serviceEnd a))
                (a_waiting a) (a_idle1 a) (a_idle2 a)
                (a_waiting a + a_serviceTime a) (Some (a_serverUsed a))])
            (a_server1End a) (a_server2End a).
Proof.
  unfold simulateCustomer. intros H.
  destruct (if (i =? 0)%nat then Some 0 else mapDigit _ arrivalRows)
    as [interarrival|]; [|discriminate].
  destruct (nth_error serviceNums i) as [randService|]; cbn [mapDigit] in *;
    [|discriminate].
  destruct (mapRandomToValue randService service1Rows) as [serviceTime1|] eqn:E1;
    [|discriminate].
  destruct (mapRandomToValue randService service2Rows) as [serviceTime2|] eqn:E2;
    [|discriminate].
  destruct (if (i =? 0)%nat then Some 0 else nth_error arrivalNums (i - 1))
    as [randArrival|]; [|discriminate].
  destruct (if (i =? 0)%nat then Some 0 else option_map _ _) as [arrivalTime|];
    [|discriminate].
  injection H as <-.
  exists randArrival, interarrival, arrivalTime, randService, serviceTime1, serviceTime2.
  auto.
Qed.

Lemma servedBy_row (used : Server) customer randArrival interarrival arrivalTime randService
    t1 b e t2 w i1 i2 tis :
  let row := mkSimulationRow customer randArrival interarrival arrivalTime randService
               (onlyFor Server1 used t1) (onlyFor Server1 used b) (onlyFor Server1 used e)
               (onlyFor Server2 used t2) (onlyFor Server2 used b) (onlyFor Server2 used e)
               w i1 i2 tis (Some used) in
  servedBy1 row = (match used with Server1 => t1 | Server2 => 0 end) /\
  servedBy2 row = (match used with Server1 => 0 | Server2 => t2 end) /\
  orZero (serviceEnd1 row) = (match used with Server1 => e | Server2 => 0 end) /\
  orZero (serviceEnd2 row) = (match used with Server1 => 0 | Server2 => e end).
Proof. destruct used; cbv; auto. Qed.

(** A successful turn keeps the rows well formed and the clocks accounted
    for. *)
Lemma multi_report_step priorityServer arrivalRows service1Rows service2Rows
    arrivalNums serviceNums st i st' :
  reportInvariant st ->
  simulateCustomer priorityServer arrivalRows service1Rows service2Rows
    arrivalNums serviceNums st i = Ok st' ->
  reportInvariant st'.
Proof.
  intros (Hwf & H1 & H2) Hstep.
  destruct (multi_simulateCustomer_Ok _ _ _ _ _ _ _ _ _ Hstep)
    as (ra & ia & t & rs & s1 & s2 & _ & _ & Hst).
  cbv zeta in Hst.
  pose proof (assign_facts priorityServer (server1End st) (server2End st) t s1 s2) as Ha.
  cbv zeta in Ha. set (a := assign priorityServer _ _ t s1 s2) in *.
  destruct Ha as (Hstart & Hwait & Hi1 & Hi2 & Hboth & Hused).
  subst st'. unfold reportInvariant. cbn [table server1End server2End].
  unfold totalIdle1, totalIdle2, totalService1, totalService2 in *.
  rewrite !sumOver_app, !sumOver_cons. change (sumOver _ []) with 0.
  destruct (servedBy_row (a_serverUsed a) (Z.of_nat i + 1) ra ia t rs s1
              (a_serviceStart a) (a_serviceEnd a) s2 (a_waiting a) (a_idle1 a) (a_idle2 a)
              (a_waiting a + a_serviceTime a)) as (Hs1 & Hs2 & _).
  cbv zeta in Hs1, Hs2. rewrite Hs1, Hs2. cbn [idle1 idle2].
  split; [|destruct (a_serverUsed a); lia].
  apply Forall_app. split; [exact Hwf|]. constructor; [|constructor].
  unfold wellFormed. cbn [serverUsed waiting idle1 idle2].
  split.
  - exists (a_serverUsed a). split; [reflexivity|].
    destruct (a_serverUsed a) eqn:Eu; unfold columnsOf;
      cbn [onlyFor Server_eqb service1 serviceStart1 serviceEnd1 service2 serviceStart2
           serviceEnd2 arrival waiting timeInSystem];
      (split; [|auto]); eexists _, _, _;
      (split; [reflexivity|]); (split; [reflexivity|]); (split; [reflexivity|]); lia.
  - split; [lia|]. split; [exact Hi1|]. split; [exact Hi2|].
    split; [|split].
    + intros Hu. injection Hu as Hu. rewrite Hu in Hused. tauto.
    + intros Hu. injection Hu as Hu. rewrite Hu in Hused. tauto.
    + exact Hboth.
Qed.

Lemma mathMax_snoc (l : list Z) (x : Z) :
  l <> [] -> mathMax (l ++ [x]) = Z.max (mathMax l) x.
Proof.
  destruct l as [|y l]; [congruence|]. intros _. unfold mathMax. cbn [app].
  rewrite fold_left_app. reflexivity.
Qed.

Lemma lastEnd_snoc (f : SimulationRow -> Z) (rows : list SimulationRow) (row : SimulationRow) :
  0 <= f row ->
  (if (0 <? length (rows ++ [row]))%nat then mathMax (map f (rows ++ [row])) else 0)
  = Z.max (if (0 <? length rows)%nat then mathMax (map f rows) else 0) (f row).
Proof.
  intros Hf. rewrite length_app. cbn [length].
  replace (0 <? length rows + 1)%nat with true by (symmetry; apply Nat.ltb_lt; lia).
  rewrite map_app. cbn [map].
  destruct rows as [|r rows]; [cbn; lia|].
  cbn [length]. change (0 <? S (length rows))%nat with true.
  apply mathMax_snoc. discriminate.
Qed.

(** With service times that are not negative, a successful turn keeps the
    clock of each server equal to the latest end in its columns. *)
Lemma multi_ends_step priorityServer arrivalRows service1Rows service2Rows
    arrivalNums serviceNums st i st' :
  Forall (fun row => 0 <= Tables.cum_value row) service1Rows ->
  Forall (fun row => 0 <= Tables.cum_value row) service2Rows ->
  endsInvariant st ->
  simulateCustomer priorityServer arrivalRows service1Rows service2Rows
    arrivalNums serviceNums st i = Ok st' ->
  endsInvariant st'.
Proof.
  intros Hv1 Hv2 (He1 & He2 & Hl1 & Hl2) Hstep.
  destruct (multi_simulateCustomer_Ok _ _ _ _ _ _ _ _ _ Hstep)
    as (ra & ia & t & rs & s1 & s2 & Hm1 & Hm2 & Hst).
  cbv zeta in Hst.
  assert (Hs1 : 0 <= s1).
  { apply TableFacts.mapRandomToValue_In in Hm1. apply in_map_iff in Hm1.
    destruct Hm1 as (row & <- & Hin). rewrite Forall_forall in Hv1. now apply Hv1. }
  assert (Hs2 : 0 <= s2).
  { apply TableFacts.mapRandomToValue_In in Hm2. apply in_map_iff in Hm2.
    destruct Hm2 as (row & <- & Hin). rewrite Forall_forall in Hv2. now apply Hv2. }
  pose proof (assign_facts priorityServer (server1End st) (server2End st) t s1 s2) as Ha.
  cbv zeta in Ha. set (a := assign priorityServer _ _ t s1 s2) in *.
  destruct Ha as (Hstart & Hwait & Hi1 & Hi2 & Hboth & Hused).
  destruct (servedBy_row (a_serverUsed a) (Z.of_nat i + 1) ra ia t rs s1
              (a_serviceStart a) (a_serviceEnd a) s2 (a_waiting a) (a_idle1 a) (a_idle2 a)
              (a_waiting a + a_serviceTime a)) as (_ & _ & Hx1 & Hx2).
  cbv zeta in Hx1, Hx2.
  subst st'. unfold endsInvariant, lastEnd1, lastEnd2 in *.
  cbn [table server1End server2End].
  rewrite !lastEnd_snoc, Hl1, Hl2, Hx1, Hx2
    by (first [rewrite Hx1 | rewrite Hx2]; destruct (a_serverUsed a); lia).
  destruct (a_serverUsed a); lia.
Qed.

(** Past the checks the loop serves every customer. *)
Lemma multi_checks_passed priorityServer arrival service1 service2
    arrivalRows service1Rows service2Rows arrivalDigits serviceDigits count :
  (count <? 1) = false ->
  buildCumulative arrival = Ok arrivalRows ->
  buildCumulative service1 = Ok service1Rows ->
  buildCumulative service2 = Ok service2Rows ->
  (Z.of_nat (length (parseDigits arrivalDigits)) <? count - 1) = false ->
  (Z.of_nat (length (parseDigits serviceDigits)) <? count) = false ->
  existsb (fun d => (d <? 1) || (100 <? d))
          (parseDigits arrivalDigits ++ parseDigits serviceDigits) = false ->
  accepted arrival service1 service2 arrivalDigits serviceDigits count /\
  exists st,
    forEachM (simulateCustomer priorityServer arrivalRows service1Rows service2Rows
                (parseDigits arrivalDigits) (parseDigits serviceDigits))
             (seq 0 (Z.to_nat count)) (mkState [] 0 0) = Ok st /\
    Z.of_nat (length (table st)) = count /\
    server1End st = busyUntil Server1 (table st) /\
    server2End st = busyUntil Server2 (table st) /\
    ledgerFollowsRule priorityServer (table st).
Proof.
  intros Hcount Hba Hb1 Hb2 Hla Hls Hrange.
  rewrite multi_parseDigits_length in Hla, Hls.
  rewrite existsb_app in Hrange. apply orb_false_iff in Hrange. destruct Hrange as [Hra Hrs].
  apply SingleServerMoreFacts.single_parsed_in_range in Hra, Hrs.
  destruct Hra as [Hra Hpa], Hrs as [Hrs Hps].
  split.
  - unfold accepted. split; [lia|].
    split; [eapply TableFacts.buildCumulative_Ok_valid; exact Hba|].
    split; [eapply TableFacts.buildCumulative_Ok_valid; exact Hb1|].
    split; [eapply TableFacts.buildCumulative_Ok_valid; exact Hb2|].
    split; [lia|]. split; [lia|]. apply Forall_app. split; assumption.
  - destruct (multi_loop_ok priorityServer arrival service1 service2 _ _ _
                (parseDigits arrivalDigits) (parseDigits serviceDigits)
                Hba Hb1 Hb2 Hpa Hps (Z.to_nat count) 0%nat (mkState [] 0 0))
      as (st & Hrun & Hlen & Hc1 & Hc2 & Hrule).
    + split; [reflexivity|]. split; [reflexivity|]. split; [reflexivity|].
      intros [|i] row Hi; discriminate.
    + rewrite multi_parseDigits_length. lia.
    + rewrite multi_parseDigits_length. lia.
    + exists st. split; [exact Hrun|]. split; [simpl in Hlen; lia|]. auto.
Qed.

(** A finished run, seen as its checks followed by the customer loop. *)
Lemma multi_run_Ok priorityServer arrival service1 service2 arrivalDigits serviceDigits
    count rows :
  runSimulation priorityServer arrival service1 service2 arrivalDigits serviceDigits count
  = Ok rows ->
  accepted arrival service1 service2 arrivalDigits serviceDigits count /\
  exists arrivalRows service1Rows service2Rows st,
    buildCumulative service1 = Ok service1Rows /\
    buildCumulative service2 = Ok service2Rows /\
    forEachM (simulateCustomer priorityServer arrivalRows service1Rows service2Rows
                (parseDigits arrivalDigits) (parseDigits serviceDigits))
             (seq 0 (Z.to_nat count)) (mkState [] 0 0) = Ok st /\
    rows = table st /\
    Z.of_nat (length rows) = count /\
    server1End st = busyUntil Server1 rows /\
    server2End st = busyUntil Server2 rows /\
    ledgerFollowsRule priorityServer rows.
Proof.
  unfold runSimulation. intros H.
  apply InventoryFacts.failIf_Ok in H; destruct H as [C1 H].
  destruct (buildCumulative arrival) as [arrivalRows|] eqn:Hba; [|discriminate].
  destruct (buildCumulative service1) as [service1Rows|] eqn:Hb1; [|discriminate].
  destruct (buildCumulative service2) as [service2Rows|] eqn:Hb2; [|discriminate].
  cbn [named bind] in H.
  apply InventoryFacts.failIf_Ok in H; destruct H as [C2 H].
  apply InventoryFacts.failIf_Ok in H; destruct H as [C3 H].
  apply InventoryFacts.failIf_Ok in H; destruct H as [C4 H].
  destruct (multi_checks_passed priorityServer _ _ _ _ _ _ _ _ _ C1 Hba Hb1 Hb2 C2 C3 C4)
    as (Hacc & st & Hrun & Hlen & Hc1 & Hc2 & Hrule).
  rewrite Hrun in H. cbn [bind] in H. injection H as <-.
  split; [exact Hacc|]. exists arrivalRows, service1Rows, service2Rows, st. auto 10.
Qed.


Lemma multi_report_invariant priorityServer arrival service1 service2
    arrivalDigits serviceDigits count rows :
  runSimulation priorityServer arrival service1 service2 arrivalDigits serviceDigits count
  = Ok rows ->
  Forall wellFormed rows /\
  busyUntil Server1 rows = totalIdle1 rows + totalService1 rows /\
  busyUntil Server2 rows = totalIdle2 rows + totalService2 rows.
Proof.
  intros Hrun. apply multi_run_Ok in Hrun.
  destruct Hrun as (_ & ar & s1r & s2r & st & _ & _ & Hloop & -> & _ & Hc1 & Hc2 & _).
  assert (Hstart : reportInvariant (mkState [] 0 0)).
  { unfold reportInvariant. cbn. split; [constructor|]. split; reflexivity. }
  pose proof (LoopFacts.forEachM_invariant _ reportInvariant _
                (fun s a s' Hs Hstep => multi_report_step _ _ _ _ _ _ _ _ _ Hs Hstep)
                _ _ Hstart Hloop) as (Hwf & H1 & H2).
  split; [exact Hwf|]. split; congruence.
Qed.

(** X20: every row of the ledger of a two-server run is served by exactly
    one server: the three columns of that server are filled, with service
    ending one service time after it starts, and the three columns of the
    other one are empty.  Service starts no earlier than the arrival, the
    wait is the time between the two, and the time in system runs from the
    arrival to the end of the service.  Waits and idle times are never
    negative; only the serving server shows idle time, and none at all
    when the customer has waited. *)
Theorem multi_ledger_well_formed (priorityServer : Server)
    (arrivalDist service1Dist service2Dist : list Tables.DistRow)
    (arrivalDigits serviceDigits : list Z) (count : Z) (rows : list SimulationRow) :
  runSimulation priorityServer arrivalDist service1Dist service2Dist
    arrivalDigits serviceDigits count = Ok rows ->
  Forall wellFormed rows.
Proof.
  intros Hrun. apply multi_report_invariant in Hrun. tauto.
Qed.

Lemma multi_ledger_well_formed_witness :
  Forall wellFormed
    (match runSimulation Server1 defaultArrival defaultService defaultService
             [15; 64; 12; 87; 34; 56; 90; 10] [5; 44; 70; 22; 91; 39; 60; 8] 8 with
     | Ok rows => rows
     | Err _ => []
     end).
Proof.
  apply (multi_ledger_well_formed Server1 defaultArrival defaultService defaultService
           [15; 64; 12; 87; 34; 56; 90; 10] [5; 44; 70; 22; 91; 39; 60; 8] 8).
  vm_compute. reflexivity.
Defined.

(** X21: no server serves two customers at once.  In the ledger of a
    two-server run, the service of a customer starts no earlier than the end
    of the latest service that the same server gave to an earlier customer. *)
Theorem multi_servers_never_overlap (priorityServer : Server)
    (arrivalDist service1Dist service2Dist : list Tables.DistRow)
    (arrivalDigits serviceDigits : list Z) (count : Z) (rows : list SimulationRow) :
  runSimulation priorityServer arrivalDist service1Dist service2Dist
    arrivalDigits serviceDigits count = Ok rows ->
  forall i row,
    nth_error rows i = Some row ->
    exists s start,
      serverUsed row = Some s /\ serviceStartOf row = Some start /\
      busyUntil s (firstn i rows) <= start.
Proof.
  intros Hrun i row Hi. apply multi_run_Ok in Hrun.
  destruct Hrun as (_ & _ & _ & _ & _ & _ & _ & _ & _ & _ & _ & _ & Hrule).
  specialize (Hrule i row Hi). unfold followsRule in Hrule. cbv zeta in Hrule.
  destruct Hrule as (Hboth & H1 & H2 & Hnone).
  set (busy1 := busyUntil Server1 (firstn i rows)) in *.
  set (busy2 := busyUntil Server2 (firstn i rows)) in *.
  destruct (Z_le_dec busy1 (arrival row)) as [Hf1|Hb1],
           (Z_le_dec busy2 (arrival row)) as [Hf2|Hb2].
  - destruct (Hboth (conj Hf1 Hf2)) as (Hu & _ & Hs).
    exists priorityServer, (arrival row). split; [exact Hu|]. split; [exact Hs|].
    destruct priorityServer; assumption.
  - destruct (H1 (conj Hf1 Hb2)) as (Hu & _ & Hs).
    exists Server1, (arrival row). auto.
  - destruct (H2 (conj Hb1 Hf2)) as (Hu & _ & Hs).
    exists Server2, (arrival row). auto.
  - destruct (Hnone (conj Hb1 Hb2)) as (Hu & Hs & _).
    exists (if busy1 <=? busy2 then Server1 else Server2), (Z.min busy1 busy2).
    split; [exact Hu|]. split; [exact Hs|].
    destruct (Z.leb_spec busy1 busy2); fold busy1 busy2; lia.
Qed.

(** The fifth customer of the run the page starts with waits for server 1. *)
Lemma multi_servers_never_overlap_witness :
  exists rows row s start,
    runSimulation Server1 defaultArrival defaultService defaultService
      [15; 64; 12; 87; 34; 56; 90; 10] [5; 44; 70; 22; 91; 39; 60; 8] 8 = Ok rows /\
    nth_error rows 4 = Some row /\
    serverUsed row = Some s /\ serviceStartOf row = Some start /\
    busyUntil s (firstn 4 rows) <= start.
Proof.
  destruct (multi_servers_never_overlap Server1 defaultArrival defaultService defaultService
              [15; 64; 12; 87; 34; 56; 90; 10] [5; 44; 70; 22; 91; 39; 60; 8] 8 _
              ltac:(vm_compute; reflexivity) 4%nat _ eq_refl) as (s & start & H).
  eexists _, _, s, start. split; [vm_compute; reflexivity|]. split; [reflexivity|]. exact H.
Defined.

(** X22: the time of each server is accounted for.  In the ledger of a
    two-server run, the end of the latest service of a server (0 if it has
    served nobody) is the sum of its idle times and of the service times it
    has given. *)
Theorem multi_server_time_accounted (priorityServer : Server)
    (arrivalDist service1Dist service2Dist : list Tables.DistRow)
    (arrivalDigits serviceDigits : list Z) (count : Z) (rows : list SimulationRow) :
  runSimulation priorityServer arrivalDist service1Dist service2Dist
    arrivalDigits serviceDigits count = Ok rows ->
  busyUntil Server1 rows = totalIdle1 rows + totalService1 rows /\
  busyUntil Server2 rows = totalIdle2 rows + totalService2 rows.
Proof.
  intros Hrun. apply multi_report_invariant in Hrun. tauto.
Qed.

Lemma multi_server_time_accounted_witness :
  busyUntil Server1
    (match runSimulation Server2 defaultArrival defaultService defaultService
             [15; 64; 12; 87; 34; 56; 90; 10] [5; 44; 70; 22; 91; 39; 60; 8] 8 with
     | Ok rows => rows
     | Err _ => []
     end)
  = totalIdle1
      (match runSimulation Server2 defaultArrival defaultService defaultService
               [15; 64; 12; 87; 34; 56; 90; 10] [5; 44; 70; 22; 91; 39; 60; 8] 8 with
       | Ok rows => rows
       | Err _ => []
       end)
    + totalService1
        (match runSimulation Server2 defaultArrival defaultService defaultService
                 [15; 64; 12; 87; 34; 56; 90; 10] [5; 44; 70; 22; 91; 39; 60; 8] 8 with
         | Ok rows => rows
         | Err _ => []
         end) /\
  busyUntil Server2
    (match runSimulation Server2 defaultArrival defaultService defaultService
             [15; 64; 12; 87; 34; 56; 90; 10] [5; 44; 70; 22; 91; 39; 60; 8] 8 with
     | Ok rows => rows
     | Err _ => []
     end)
  = totalIdle2
      (match runSimulation Server2 defaultArrival defaultService defaultService
               [15; 64; 12; 87; 34; 56; 90; 10] [5; 44; 70; 22; 91; 39; 60; 8] 8 with
       | Ok rows => rows
       | Err _ => []
       end)
    + totalService2
        (match runSimulation Server2 defaultArrival defaultService defaultService
                 [15; 64; 12; 87; 34; 56; 90; 10] [5; 44; 70; 22; 91; 39; 60; 8] 8 with
         | Ok rows => rows
         | Err _ => []
         end).
Proof.
  apply (multi_server_time_accounted Server2 defaultArrival defaultService defaultService
           [15; 64; 12; 87; 34; 56; 90; 10] [5; 44; 70; 22; 91; 39; 60; 8] 8).
  vm_compute. reflexivity.
Defined.

Lemma percentOf_le (a total : Z) :
  0 <= a <= total -> (0 <= percentOf a total <= 100)%Q.
Proof.
  intros Ha. unfold percentOf. destruct (Z.eqb_spec total 0) as [|Hnz]; [lra|].
  destruct (ratio_bounds a total) as [H0 H1]; [lia | lia |]. lra.
Qed.

Lemma percentOf_plus (a b total : Z) :
  (percentOf a total + percentOf b total == percentOf (a + b) total)%Q.
Proof.
  unfold percentOf, ratio. destruct (Z.eqb_spec total 0) as [|Hnz]; [lra|].
  rewrite inject_Z_plus. field. now apply inject_Z_nonzero.
Qed.

(** X23: with service times that are never negative, the percentages of
    the summary of a two-server run are consistent: for each server the
    idle percentage and the utilization add up to at most 100, and to
    exactly 100 for a server whose last service is the last to end, unless
    that end is 0. *)
Theorem multi_summary_percentages (priorityServer : Server)
    (arrivalDist service1Dist service2Dist : list Tables.DistRow)
    (arrivalDigits serviceDigits : list Z) (count : Z) (rows : list SimulationRow) :
  Forall (fun row => 0 <= Tables.value row) service1Dist ->
  Forall (fun row => 0 <= Tables.value row) service2Dist ->
  runSimulation priorityServer arrivalDist service1Dist service2Dist
    arrivalDigits serviceDigits count = Ok rows ->
  exists s,
    summary rows = Some s /\
    (0 <= idlePercent1 s + utilization1 s <= 100)%Q /\
    (0 <= idlePercent2 s + utilization2 s <= 100)%Q /\
    (lastEnd2 rows <= lastEnd1 rows -> lastEnd1 rows <> 0 ->
     (idlePercent1 s + utilization1 s == 100)%Q) /\
    (lastEnd1 rows <= lastEnd2 rows -> lastEnd2 rows <> 0 ->
     (idlePercent2 s + utilization2 s == 100)%Q).
Proof.
  intros Hv1 Hv2 Hrun.
  pose proof (multi_report_invariant _ _ _ _ _ _ _ _ Hrun) as (_ & Hb1 & Hb2).
  apply multi_run_Ok in Hrun.
  destruct Hrun as ((Hcount & _) & ar & s1r & s2r & st & Hs1 & Hs2 & Hloop & -> & Hlen
                    & Hc1 & Hc2 & _).
  assert (Hr1 : Forall (fun row => 0 <= Tables.cum_value row) s1r).
  { apply Forall_forall. intros row Hin.
    pose proof (TableFacts.buildCumulative_values _ _ _ Hs1) as Hvals.
    assert (Hin' : In (Tables.cum_value row) (map Tables.value service1Dist))
      by (rewrite <- Hvals; now apply in_map).
    apply in_map_iff in Hin'. destruct Hin' as (d & <- & Hd).
    rewrite Forall_forall in Hv1. now apply Hv1. }
  assert (Hr2 : Forall (fun row => 0 <= Tables.cum_value row) s2r).
  { apply Forall_forall. intros row Hin.
    pose proof (TableFacts.buildCumulative_values _ _ _ Hs2) as Hvals.
    assert (Hin' : In (Tables.cum_value row) (map Tables.value service2Dist))
      by (rewrite <- Hvals; now apply in_map).
    apply in_map_iff in Hin'. destruct Hin' as (d & <- & Hd).
    rewrite Forall_forall in Hv2. now apply Hv2. }
  assert (Hstart : endsInvariant (mkState [] 0 0)).
  { unfold endsInvariant. cbn. lia. }
  pose proof (LoopFacts.forEachM_invariant _ endsInvariant _
                (fun s a s' Hs Hstep => multi_ends_step _ _ _ _ _ _ _ _ _ Hr1 Hr2 Hs Hstep)
                _ _ Hstart Hloop) as (He1 & He2 & Hl1 & Hl2).
  assert (Hi1 : 0 <= totalIdle1 (table st)).
  { apply sumOver_nonneg. apply Forall_forall. intros; lia. }
  assert (Hi2 : 0 <= totalIdle2 (table st)).
  { apply sumOver_nonneg. apply Forall_forall. intros; lia. }
  assert (Ht1 : totalIdle1 (table st) + totalService1 (table st) = lastEnd1 (table st))
    by congruence.
  assert (Ht2 : totalIdle2 (table st) + totalService2 (table st) = lastEnd2 (table st))
    by congruence.
  assert (Hn1 : 0 <= lastEnd1 (table st)) by lia.
  assert (Hn2 : 0 <= lastEnd2 (table st)) by lia.
  clear Hloop Hb1 Hb2 Hc1 Hc2 Hl1 Hl2 He1 He2.
  revert Hlen Hi1 Hi2 Ht1 Ht2 Hn1 Hn2.
  generalize (table st) as rows. intros rows Hlen Hi1 Hi2 Ht1 Ht2 Hn1 Hn2.
  assert (Hsum : exists s, summary rows = Some s /\
            idlePercent1 s = percentOf (totalIdle1 rows) (Z.max (lastEnd1 rows) (lastEnd2 rows)) /\
            idlePercent2 s = percentOf (totalIdle2 rows) (Z.max (lastEnd1 rows) (lastEnd2 rows)) /\
            utilization1 s = percentOf (totalService1 rows) (Z.max (lastEnd1 rows) (lastEnd2 rows)) /\
            utilization2 s = percentOf (totalService2 rows) (Z.max (lastEnd1 rows) (lastEnd2 rows))).
  { destruct rows as [|row rest]; [simpl in Hlen; lia|].
    eexists. split; [reflexivity|]. cbn [idlePercent1 idlePercent2 utilization1 utilization2].
    auto. }
  destruct Hsum as (s & Hs & Ei1 & Ei2 & Eu1 & Eu2).
  exists s. split; [exact Hs|]. rewrite Ei1, Ei2, Eu1, Eu2.
  rewrite !percentOf_plus, Ht1, Ht2.
  split; [apply percentOf_le; lia|]. split; [apply percentOf_le; lia|].
  split; intros Hle Hnz.
  - rewrite Z.max_l by lia. unfold percentOf, ratio.
    destruct (Z.eqb_spec (lastEnd1 rows) 0); [contradiction|].
    field. now apply inject_Z_nonzero.
  - rewrite Z.max_r by lia. unfold percentOf, ratio.
    destruct (Z.eqb_spec (lastEnd2 rows) 0); [contradiction|].
    field. now apply inject_Z_nonzero.
Qed.

Lemma multi_summary_percentages_witness :
  exists s,
    summary (match runSimulation Server1 defaultArrival defaultService defaultService
                     [15; 64; 12; 87; 34; 56; 90; 10] [5; 44; 70; 22; 91; 39; 60; 8] 8 with
             | Ok rows => rows
             | Err _ => []
             end) = Some s /\
    (0 <= idlePercent1 s + utilization1 s <= 100)%Q /\
    (0 <= idlePercent2 s + utilization2 s <= 100)%Q /\
    (lastEnd2 (match runSimulation Server1 defaultArrival defaultService defaultService
                       [15; 64; 12; 87; 34; 56; 90; 10] [5; 44; 70; 22; 91; 39; 60; 8] 8 with
               | Ok rows => rows
               | Err _ => []
               end)
     <= lastEnd1 (match runSimulation Server1 defaultArrival defaultService defaultService
                          [15; 64; 12; 87; 34; 56; 90; 10] [5; 44; 70; 22; 91; 39; 60; 8] 8 with
                  | Ok rows => rows
                  | Err _ => []
                  end) ->
     lastEnd1 (match runSimulation Server1 defaultArrival defaultService defaultService
                       [15; 64; 12; 87; 34; 56; 90; 10] [5; 44; 70; 22; 91; 39; 60; 8] 8 with
               | Ok rows => rows
               | Err _ => []
               end) <> 0 ->
     (idlePercent1 s + utilization1 s == 100)%Q) /\
    (lastEnd1 (match runSimulation Server1 defaultArrival defaultService defaultService
                       [15; 64; 12; 87; 34; 56; 90; 10] [5; 44; 70; 22; 91; 39; 60; 8] 8 with
               | Ok rows => rows
               | Err _ => []
               end)
     <= lastEnd2 (match runSimulation Server1 defaultArrival defaultService defaultService
                          [15; 64; 12; 87; 34; 56; 90; 10] [5; 44; 70; 22; 91; 39; 60; 8] 8 with
                  | Ok rows => rows
                  | Err _ => []
                  end) ->
     lastEnd2 (match runSimulation Server1 defaultArrival defaultService defaultService
                       [15; 64; 12; 87; 34; 56; 90; 10] [5; 44; 70; 22; 91; 39; 60; 8] 8 with
               | Ok rows => rows
               | Err _ => []
               end) <> 0 ->
     (idlePercent2 s + utilization2 s == 100)%Q).
Proof.
  apply (multi_summary_percentages Server1 defaultArrival defaultService defaultService
           [15; 64; 12; 87; 34; 56; 90; 10] [5; 44; 70; 22; 91; 39; 60; 8] 8).
  - repeat constructor; vm_compute; discriminate.
  - repeat constructor; vm_compute; discriminate.
  - vm_compute. reflexivity.
Defined.

End MultiServerMoreFacts.

(** ** Facts about the random-number generators *)

Module RngFacts.
Import Ascii Rng.

(** *** Decimal digits *)

Lemma fromDigits_from (ds : list Z) : forall acc,
  fold_left (fun acc d => 10 * acc + d) ds acc
  = acc * 10 ^ Z.of_nat (length ds) + fromDigits ds.
Proof.
  unfold fromDigits. induction ds as [|d ds IH]; intros acc; cbn [fold_left length].
  - simpl. lia.
  - rewrite (IH (10 * acc + d)), (IH (10 * 0 + d)).
    rewrite Nat2Z.inj_succ, Z.pow_succ_r by lia. ring.
Qed.

Lemma fromDigits_app (x y : list Z) :
  fromDigits (x ++ y) = fromDigits x * 10 ^ Z.of_nat (length y) + fromDigits y.
Proof. unfold fromDigits at 1. rewrite fold_left_app. apply fromDigits_from. Qed.

Lemma fromDigits_bound (ds : list Z) :
  Forall (fun d => 0 <= d <= 9) ds -> 0 <= fromDigits ds < 10 ^ Z.of_nat (length ds).
Proof.
  induction ds as [|d ds IH] using rev_ind; intros H.
  - cbn. lia.
  - apply Forall_app in H. destruct H as [Hds Hd]. inversion Hd; subst.
    specialize (IH Hds). rewrite fromDigits_app, length_app. cbn [length].
    change (fromDigits [d]) with (10 * 0 + d).
    rewrite Nat2Z.inj_add, Z.pow_add_r by lia. change (10 ^ Z.of_nat 1) with 10. nia.
Qed.

Lemma fromDigits_zeros (k : nat) (ds : list Z) :
  fromDigits (repeat 0 k ++ ds) = fromDigits ds.
Proof.
  induction k as [|k IH]; [reflexivity|].
  cbn [repeat app]. unfold fromDigits in *. cbn [fold_left]. exact IH.
Qed.

Lemma digitsOf_spec (fuel : nat) : forall n acc,
  (0 < fuel)%nat ->
  0 <= n < 10 ^ Z.of_nat fuel ->
  exists ds,
    digitsOf fuel n acc = ds ++ acc /\
    Forall (fun d => 0 <= d <= 9) ds /\
    fromDigits ds = n /\ ds <> [] /\
    forall k, 1 <= k -> n < 10 ^ k -> Z.of_nat (length ds) <= k.
Proof.
  induction fuel as [|fuel IH]; intros n acc Hfuel Hn; [lia|].
  cbn [digitsOf]. destruct (Z.ltb_spec n 10) as [Hlt|Hge].
  - exists [n mod 10]. rewrite Z.mod_small by lia.
    split; [reflexivity|]. split; [constructor; [lia | constructor]|].
    split; [cbn; lia|]. split; [discriminate|]. intros k Hk _. cbn. lia.
  - rewrite Nat2Z.inj_succ, Z.pow_succ_r in Hn by lia.
    destruct (IH (n / 10) (n mod 10 :: acc)) as (ds & Hds & Hall & Hval & Hne & Hlen).
    { destruct fuel; [cbn in Hn|]; lia. }
    { split; [apply Z.div_pos; lia | apply Z.div_lt_upper_bound; lia]. }
    exists (ds ++ [n mod 10]). rewrite <- app_assoc. split; [exact Hds|].
    pose proof (Z.mod_pos_bound n 10 ltac:(lia)) as Hm.
    split; [apply Forall_app; split; [exact Hall | constructor; [lia | constructor]]|].
    split.
    { rewrite fromDigits_app, Hval. change (fromDigits [n mod 10]) with (10 * 0 + n mod 10).
      cbn [length]. change (10 ^ Z.of_nat 1) with 10.
      pose proof (Z.div_mod n 10 ltac:(lia)). lia. }
    split; [destruct ds; discriminate|].
    intros k Hk Hnk. rewrite length_app. cbn [length].
    assert (Hk2 : 2 <= k).
    { destruct (Z.eq_dec k 1) as [->|]; [change (10 ^ 1) with 10 in Hnk; lia | lia]. }
    specialize (Hlen (k - 1) ltac:(lia)).
    assert (n / 10 < 10 ^ (k - 1)).
    { apply Z.div_lt_upper_bound; [lia|]. rewrite <- Z.pow_succ_r by lia.
      replace (Z.succ (k - 1)) with k by lia. exact Hnk. }
    lia.
Qed.

Lemma decimal_spec (n : Z) :
  0 <= n ->
  Forall (fun d => 0 <= d <= 9) (decimal n) /\
  fromDigits (decimal n) = n /\ decimal n <> [] /\
  forall k, 1 <= k -> n < 10 ^ k -> Z.of_nat (length (decimal n)) <= k.
Proof.
  intros Hn. unfold decimal.
  destruct (digitsOf_spec (S (Z.to_nat (Z.log2 n))) n []) as (ds & -> & H).
  - lia.
  - split; [exact Hn|]. rewrite Nat2Z.inj_succ, Z2Nat.id by apply Z.log2_nonneg.
    destruct (Z.eq_dec n 0) as [->|Hnz]; [cbn; lia|].
    pose proof (Z.log2_spec n ltac:(lia)) as [_ Hlog].
    eapply Z.lt_le_trans; [exact Hlog|].
    apply Z.pow_le_mono_l. lia.
  - rewrite app_nil_r. exact H.
Qed.

Lemma digitOf_digitChar (d : Z) : 0 <= d <= 9 -> digitOf (digitChar d) = Some d.
Proof.
  intros H.
  assert (Hd : d = 0 \/ d = 1 \/ d = 2 \/ d = 3 \/ d = 4 \/ d = 5 \/ d = 6 \/ d = 7 \/
               d = 8 \/ d = 9) by lia.
  repeat (destruct Hd as [->|Hd]; [reflexivity|]). subst d. reflexivity.
Qed.

Lemma readDigits_chars (ds : list Z) : forall a,
  Forall (fun d => 0 <= d <= 9) ds ->
  readDigits (Int a) (map digitChar ds) = Int (fold_left (fun acc d => 10 * acc + d) ds a).
Proof.
  induction ds as [|d ds IH]; intros a H; [reflexivity|].
  inversion H; subst. cbn [map readDigits fold_left].
  rewrite digitOf_digitChar by assumption. apply IH. assumption.
Qed.

Lemma parseInt_chars (ds : list Z) :
  ds <> [] -> Forall (fun d => 0 <= d <= 9) ds ->
  parseInt (map digitChar ds) = Int (fromDigits ds).
Proof.
  intros Hne H. destruct ds as [|d ds]; [congruence|].
  inversion H; subst. unfold parseInt. cbn [map readDigits].
  rewrite digitOf_digitChar by assumption.
  rewrite readDigits_chars by assumption. reflexivity.
Qed.

Lemma Forall_firstn {A : Type} (P : A -> Prop) (n : nat) (l : list A) :
  Forall P l -> Forall P (firstn n l).
Proof.
  revert n; induction l as [|a l IH]; intros [|n] H; cbn [firstn]; try constructor;
    inversion H; subst; [assumption | now apply IH].
Qed.

Lemma Forall_skipn {A : Type} (P : A -> Prop) (n : nat) (l : list A) :
  Forall P l -> Forall P (skipn n l).
Proof.
  revert n; induction l as [|a l IH]; intros [|n] H; cbn [skipn]; try assumption.
  inversion H; subst. now apply IH.
Qed.

Lemma substring_inside (a b : Z) (s : list ascii) :
  0 <= a <= b -> b <= Z.of_nat (length s) ->
  substring a b s = firstn (Z.to_nat (b - a)) (skipn (Z.to_nat a) s).
Proof.
  intros Ha Hb. unfold substring.
  replace (Z.min (Z.max a 0) (Z.of_nat (length s))) with a by lia.
  replace (Z.min (Z.max b 0) (Z.of_nat (length s))) with b by lia.
  replace (Z.min a b) with a by lia. replace (Z.max a b) with b by lia. reflexivity.
Qed.

(** *** The middle-square generator *)

(** One turn from an integer: the digits picked are a number below
    [10 ^ digits], and the middle digits of the square when the square
    fits on [2 * digits] digits. *)
Lemma middleSquareStep_Int (digits x : Z) :
  1 <= digits ->
  exists y,
    middleSquareStep digits (Int x) = Int y /\
    0 <= y < 10 ^ digits /\
    (x * x < 10 ^ (2 * digits) -> y = middleDigits digits x).
Proof.
  intros Hd. unfold middleSquareStep, square, toString.
  assert (Hsq : 0 <= x * x) by nia.
  replace (x * x <? 0) with false by (symmetry; apply Z.ltb_ge; exact Hsq).
  destruct (decimal_spec (x * x) Hsq) as (Hall & Hval & Hne & Hlen).
  set (ds := decimal (x * x)) in *.
  unfold padStart. rewrite length_map.
  set (k := Z.to_nat (digits * 2 - Z.of_nat (length ds))).
  change "0"%char with (digitChar 0). rewrite <- map_repeat, <- map_app.
  set (P := repeat 0 k ++ ds).
  assert (HP : Forall (fun d => 0 <= d <= 9) P).
  { apply Forall_app. split; [|exact Hall]. apply Forall_forall.
    intros d Hin. apply repeat_spec in Hin. lia. }
  assert (HPlen : digits * 2 <= Z.of_nat (length P)).
  { unfold P. rewrite length_app, repeat_length. unfold k. lia. }
  assert (HPval : fromDigits P = x * x) by (unfold P; now rewrite fromDigits_zeros).
  assert (Hstart : 0 <= digits / 2 <= digits).
  { split; [apply Z.div_pos; lia | apply Z.div_le_upper_bound; lia]. }
  rewrite substring_inside by (rewrite ?length_map; lia).
  replace (digits / 2 + digits - digits / 2) with digits by lia.
  rewrite skipn_map, firstn_map.
  set (mid := firstn (Z.to_nat digits) (skipn (Z.to_nat (digits / 2)) P)).
  assert (Hmidlen : Z.of_nat (length mid) = digits).
  { unfold mid. rewrite length_firstn, length_skipn. lia. }
  assert (Hmid : Forall (fun d => 0 <= d <= 9) mid).
  { unfold mid. now apply Forall_firstn, Forall_skipn. }
  rewrite parseInt_chars; [|intros E; rewrite E in Hmidlen; simpl in Hmidlen; lia | exact Hmid].
  exists (fromDigits mid). split; [reflexivity|].
  pose proof (fromDigits_bound mid Hmid) as Hbound. rewrite Hmidlen in Hbound.
  split; [exact Hbound|].
  intros Hfit. unfold middleDigits.
  assert (HPexact : Z.of_nat (length P) = digits * 2).
  { specialize (Hlen (2 * digits) ltac:(lia) Hfit).
    unfold P. rewrite length_app, repeat_length. unfold k. lia. }
  set (A := firstn (Z.to_nat (digits / 2)) P).
  set (B := skipn (Z.to_nat digits) (skipn (Z.to_nat (digits / 2)) P)).
  assert (Hsplit : P = A ++ mid ++ B).
  { unfold A, mid, B. now rewrite firstn_skipn, firstn_skipn. }
  assert (HBlen : Z.of_nat (length B) = digits - digits / 2).
  { unfold B. rewrite !length_skipn. lia. }
  assert (HA : Forall (fun d => 0 <= d <= 9) A).
  { unfold A. now apply Forall_firstn. }
  assert (HB : Forall (fun d => 0 <= d <= 9) B).
  { unfold B. now apply Forall_skipn, Forall_skipn. }
  pose proof (fromDigits_bound A HA) as HAb.
  pose proof (fromDigits_bound B HB) as HBb. rewrite HBlen in HBb.
  rewrite <- HPval, Hsplit, fromDigits_app, fromDigits_app, length_app.
  rewrite Nat2Z.inj_add, HBlen, Hmidlen.
  set (r := digits - digits / 2) in *.
  assert (Hr : 0 < 10 ^ r) by (apply Z.pow_pos_nonneg; lia).
  assert (Hdp : 0 < 10 ^ digits) by (apply Z.pow_pos_nonneg; lia).
  replace (fromDigits A * 10 ^ (digits + r) + (fromDigits mid * 10 ^ r + fromDigits B))
    with ((fromDigits A * 10 ^ digits + fromDigits mid) * 10 ^ r + fromDigits B)
    by (rewrite Z.pow_add_r by lia; ring).
  rewrite Z.div_add_l by lia. rewrite (Z.div_small (fromDigits B)) by lia.
  rewrite Z.add_0_r, Z.add_comm, Z.mod_add by lia.
  symmetry. apply Z.mod_small. lia.
Qed.

Lemma middleSquareLoop_integers (digits : Z) (count : nat) : forall x,
  1 <= digits ->
  exists xs,
    middleSquareLoop count digits (Int x) = map Int xs /\
    length xs = count /\
    Forall (fun y => 0 <= y < 10 ^ digits) xs /\
    (- 10 ^ digits < x < 10 ^ digits -> xs = iterates (middleDigits digits) count x).
Proof.
  induction count as [|count IH]; intros x Hd.
  - exists []. cbn. auto.
  - cbn [middleSquareLoop].
    destruct (middleSquareStep_Int digits x Hd) as (y & -> & Hy & Hmid).
    destruct (IH y Hd) as (xs & -> & Hlen & Hall & Hit).
    exists (y :: xs). split; [reflexivity|]. split; [cbn; lia|].
    split; [constructor; assumption|].
    intros Hx. cbn [iterates].
    assert (Hfit : x * x < 10 ^ (2 * digits)).
    { replace (2 * digits) with (digits + digits) by lia.
      rewrite Z.pow_add_r by lia. nia. }
    rewrite <- (Hmid Hfit). f_equal. apply Hit. lia.
Qed.

(** X24: the middle-square generator, where JavaScript squares exactly
    (up to 7 digits).  Started from a seed of at most [digits] digits, it
    returns [count] numbers and no error; each number is below
    [10 ^ digits]; and taking characters out of the padded decimal string
    of the square is plain arithmetic: each number is the square of the one
    before, divided by [10 ^ (digits - floor(digits / 2))], modulo
    [10 ^ digits]. *)
Theorem middleSquare_middle_digits (seed count digits : Z) :
  1 <= digits <= 7 ->
  - 10 ^ digits < seed < 10 ^ digits ->
  let xs := iterates (middleDigits digits) (Z.to_nat count) seed in
  middleSquare seed count digits = mkRngResult (map Int xs) None /\
  length xs = Z.to_nat count /\
  Forall (fun x => 0 <= x < 10 ^ digits) xs.
Proof.
  intros Hd Hseed. cbv zeta. unfold middleSquare.
  destruct (middleSquareLoop_integers digits (Z.to_nat count) seed ltac:(lia))
    as (xs & -> & Hlen & Hall & Hit).
  rewrite <- (Hit Hseed). auto.
Qed.

Lemma middleSquare_middle_digits_witness :
  middleSquare 1234 5 4
  = mkRngResult (map Int (iterates (middleDigits 4) (Z.to_nat 5) 1234)) None /\
  length (iterates (middleDigits 4) (Z.to_nat 5) 1234) = Z.to_nat 5 /\
  Forall (fun x => 0 <= x < 10 ^ 4) (iterates (middleDigits 4) (Z.to_nat 5) 1234).
Proof.
  apply (middleSquare_middle_digits 1234 5 4); lia.
Defined.

(** *** The linear congruential generator *)

Lemma nearestDouble_exact (z : Z) : Z.abs z < 2 ^ 53 -> nearestDouble z = Some z.
Proof.
  intros Hz. unfold nearestDouble.
  destruct (Z.ltb_spec (Z.abs z) (2 ^ 53)) as [_|Hge]; [reflexivity | lia].
Qed.

(** Where neither the product nor the sum reaches [2 ^ 53], a turn of the
    loop computes the remainder of the recurrence. *)
Lemma lcgStep_exact (a c m x bound : Z) :
  Z.abs x <= bound ->
  Z.abs a * bound + Z.abs c < 2 ^ 53 ->
  lcgStep a c m (Int x) = Int (Z.rem (a * x + c) m).
Proof.
  intros Hx Hb. unfold lcgStep.
  assert (Hp : Z.abs (a * x) <= Z.abs a * bound).
  { rewrite Z.abs_mul. apply Z.mul_le_mono_nonneg_l; [apply Z.abs_nonneg | exact Hx]. }
  rewrite nearestDouble_exact by lia.
  rewrite nearestDouble_exact; [reflexivity|].
  pose proof (Z.abs_triangle (a * x) c). lia.
Qed.

Lemma lcgLoop_exact (count : nat) (a c m bound : Z) : forall x,
  0 < m -> m <= bound ->
  Z.abs a * bound + Z.abs c < 2 ^ 53 ->
  Z.abs x <= bound ->
  lcgLoop count a c m (Int x)
  = map Int (iterates (fun y => Z.rem (a * y + c) m) count x).
Proof.
  induction count as [|count IH]; intros x Hm Hmb Hb Hx; cbn [lcgLoop iterates map];
    [reflexivity|].
  rewrite (lcgStep_exact a c m x bound Hx Hb). f_equal.
  apply IH; try assumption.
  pose proof (Z.rem_bound_abs (a * x + c) m ltac:(lia)) as Hr.
  rewrite (Z.abs_eq m) in Hr by lia. lia.
Qed.

Lemma iterates_length (f : Z -> Z) (count : nat) : forall x,
  length (iterates f count x) = count.
Proof. induction count as [|count IH]; intros x; cbn; [reflexivity | now rewrite IH]. Qed.

Lemma recurrence_bounds (count : nat) (a c m : Z) : forall x,
  0 < m ->
  Forall (fun y => - m < y < m) (iterates (fun y => Z.rem (a * y + c) m) count x) /\
  (0 <= x -> 0 <= a -> 0 <= c ->
   Forall (fun y => 0 <= y < m) (iterates (fun y => Z.rem (a * y + c) m) count x)).
Proof.
  induction count as [|count IH]; intros x Hm; cbn [iterates]; [split; constructor|].
  destruct (IH (Z.rem (a * x + c) m) Hm) as [Hall Hpos].
  pose proof (Z.rem_bound_abs (a * x + c) m ltac:(lia)) as Hb.
  split.
  - constructor; [lia | exact Hall].
  - intros Hx Ha Hc.
    assert (0 <= a * x + c) by nia.
    pose proof (Z.rem_bound_pos (a * x + c) m ltac:(lia) Hm) as Hr.
    constructor; [exact Hr | apply Hpos; lia].
Qed.

Lemma iterates_step (f : Z -> Z) (count : nat) : forall z0,
  (forall x, nth_error (iterates f count z0) 0 = Some x -> x = f z0) /\
  (forall i x y,
     nth_error (iterates f count z0) i = Some x ->
     nth_error (iterates f count z0) (S i) = Some y ->
     y = f x).
Proof.
  induction count as [|count IH]; intros z0; cbn [iterates].
  - split; [intros x H; discriminate | intros [|i] x y H; discriminate].
  - split; [intros x H; now injection H|].
    intros i x y Hx Hy. destruct (IH (f z0)) as [Hfirst Hnext].
    destruct i as [|i]; cbn [nth_error] in Hx, Hy.
    + injection Hx as <-. apply Hfirst. exact Hy.
    + exact (Hnext i x y Hx Hy).
Qed.

(** The numbers of [lcg] in the range where its products and sums are
    exact, shared by the theorems below. *)
Lemma lcg_exact (z0 a c m count : Z) :
  0 < m ->
  Z.abs a * Z.max (Z.abs z0) m + Z.abs c < 2 ^ 53 ->
  lcg z0 a c m count
  = mkRngResult
      (map Int (iterates (fun y => Z.rem (a * y + c) m) (Z.to_nat count) z0)) None.
Proof.
  intros Hm Hb. unfold lcg.
  replace (m <=? 0) with false by (symmetry; apply Z.leb_gt; exact Hm).
  f_equal. apply (lcgLoop_exact _ a c m (Z.max (Z.abs z0) m)); try assumption; lia.
Qed.

(** X25: the linear congruential generator.  A modulus that is not
    positive gives the error and no number.  With a positive modulus [m],
    and as long as [|a| * max(|z0|, m) + |c|] stays below [2 ^ 53], where
    JavaScript computes the product and the sum exactly, it returns [count]
    numbers and no error; each is the remainder of [a * x + c] by [m], [x]
    being the number before it (the seed for the first); every number lies
    strictly between [-m] and [m], and in [[0, m)] when the seed, the
    multiplier and the increment are not negative. *)
Theorem lcg_sequence (z0 a c m count : Z) :
  (m <= 0 -> lcg z0 a c m count = mkRngResult [] (Some "Modulus m must be > 0"%string)) /\
  (0 < m ->
   Z.abs a * Z.max (Z.abs z0) m + Z.abs c < 2 ^ 53 ->
   exists xs,
     lcg z0 a c m count = mkRngResult (map Int xs) None /\
     length xs = Z.to_nat count /\
     (forall x, nth_error xs 0 = Some x -> x = Z.rem (a * z0 + c) m) /\
     (forall i x y,
        nth_error xs i = Some x -> nth_error xs (S i) = Some y ->
        y = Z.rem (a * x + c) m) /\
     Forall (fun x => - m < x < m) xs /\
     (0 <= z0 -> 0 <= a -> 0 <= c -> Forall (fun x => 0 <= x < m) xs)).
Proof.
  split.
  - intros Hm. unfold lcg.
    replace (m <=? 0) with true by (symmetry; apply Z.leb_le; exact Hm). reflexivity.
  - intros Hm Hb.
    exists (iterates (fun y => Z.rem (a * y + c) m) (Z.to_nat count) z0).
    split; [apply lcg_exact; assumption|]. split; [apply iterates_length|].
    destruct (iterates_step (fun y => Z.rem (a * y + c) m) (Z.to_nat count) z0)
      as [Hfirst Hnext].
    destruct (recurrence_bounds (Z.to_nat count) a c m z0 Hm) as [Hall Hpos].
    auto.
Qed.

Lemma lcg_sequence_witness :
  exists xs,
    lcg 27 17 43 100 5 = mkRngResult (map Int xs) None /\
    length xs = Z.to_nat 5 /\
    (forall x, nth_error xs 0 = Some x -> x = Z.rem (17 * 27 + 43) 100) /\
    (forall i x y,
       nth_error xs i = Some x -> nth_error xs (S i) = Some y ->
       y = Z.rem (17 * x + 43) 100) /\
    Forall (fun x => - 100 < x < 100) xs /\
    (0 <= 27 -> 0 <= 17 -> 0 <= 43 -> Forall (fun x => 0 <= x < 100) xs).
Proof.
  apply (proj2 (lcg_sequence 27 17 43 100 5)); [lia | vm_compute; reflexivity].
Defined.

(** Past that range the products are rounded and the numbers leave the
    recurrence: [94906267 * 94906267] is odd and above [2 ^ 53], the double
    that holds it ends in 8; and with the multiplier 1103515245 and the
    modulus [2 ^ 31] the second number is already off. *)
Example lcg_rounds_large_products :
  lcg 94906267 94906267 0 10 1 = mkRngResult [Int 8] None /\
  Z.rem (94906267 * 94906267 + 0) 10 = 9 /\
  lcg 12345 1103515245 12345 (2 ^ 31) 2
  = mkRngResult [Int 1406932606; Int 654583808] None /\
  Z.rem (1103515245 * 1406932606 + 12345) (2 ^ 31) = 654583775.
Proof. vm_compute. repeat split. Qed.

(** *** Scaling to digits *)

Lemma normalize_range (v scaleTo sourceMax : Z) :
  0 <= v < sourceMax -> 0 <= scaleTo ->
  0 <= Tables.mathRound (inject_Z v / inject_Z sourceMax * inject_Z scaleTo) <= scaleTo.
Proof.
  intros Hv Hs. unfold Tables.mathRound.
  assert (Hm : (0 < inject_Z sourceMax)%Q)
    by (change 0%Q with (inject_Z 0); rewrite <- Zlt_Qlt; lia).
  assert (Hv0 : (0 <= inject_Z v)%Q)
    by (change 0%Q with (inject_Z 0); rewrite <- Zle_Qle; lia).
  assert (Hs0 : (0 <= inject_Z scaleTo)%Q)
    by (change 0%Q with (inject_Z 0); rewrite <- Zle_Qle; lia).
  assert (Hq0 : (0 <= inject_Z v / inject_Z sourceMax)%Q).
  { apply Qle_shift_div_l; [exact Hm|]. now rewrite Qmult_0_l. }
  assert (Hq1 : (inject_Z v / inject_Z sourceMax <= 1)%Q).
  { apply Qle_shift_div_r; [exact Hm|]. rewrite Qmult_1_l. rewrite <- Zle_Qle. lia. }
  assert (Hx0 : (0 <= inject_Z v / inject_Z sourceMax * inject_Z scaleTo)%Q)
    by (apply Qmult_le_0_compat; assumption).
  assert (Hx1 : (inject_Z v / inject_Z sourceMax * inject_Z scaleTo <= inject_Z scaleTo)%Q).
  { rewrite <- (Qmult_1_l (inject_Z scaleTo)) at 2.
    apply Qmult_le_compat_r; assumption. }
  split.
  - rewrite <- (Qfloor_Z 0). apply Qfloor_resp_le.
    change (inject_Z 0) with 0%Q. lra.
  - transitivity (Qfloor (inject_Z scaleTo + (1 # 2))).
    + apply Qfloor_resp_le. lra.
    + apply Z.lt_succ_r. rewrite Zlt_Qlt.
      eapply Qle_lt_trans; [apply Qfloor_le|].
      unfold Z.succ. rewrite inject_Z_plus. change (inject_Z 1) with 1%Q. lra.
Qed.

Lemma normalize_monotone (v w scaleTo sourceMax : Z) :
  0 < sourceMax -> 0 <= scaleTo -> v <= w ->
  Tables.mathRound (inject_Z v / inject_Z sourceMax * inject_Z scaleTo)
  <= Tables.mathRound (inject_Z w / inject_Z sourceMax * inject_Z scaleTo).
Proof.
  intros Hm Hs Hvw. apply TableFacts.mathRound_monotone.
  assert (Hm' : (0 < inject_Z sourceMax)%Q)
    by (change 0%Q with (inject_Z 0); rewrite <- Zlt_Qlt; lia).
  assert (Hs0 : (0 <= inject_Z scaleTo)%Q)
    by (change 0%Q with (inject_Z 0); rewrite <- Zle_Qle; lia).
  apply Qmult_le_compat_r; [|exact Hs0].
  unfold Qdiv. apply Qmult_le_compat_r; [now rewrite <- Zle_Qle|].
  apply Qlt_le_weak, Qinv_lt_0_compat. exact Hm'.
Qed.

Lemma normalizeValues_integers (xs : list Z) (scaleTo sourceMax : Z) :
  0 <= scaleTo ->
  Forall (fun x => 0 <= x < sourceMax) xs ->
  exists ds,
    normalizeValues (map Int xs) scaleTo sourceMax = map Int ds /\
    length ds = length xs /\
    Forall (fun d => 0 <= d <= scaleTo) ds /\
    forall i j x y d e,
      nth_error xs i = Some x -> nth_error xs j = Some y ->
      nth_error ds i = Some d -> nth_error ds j = Some e ->
      x <= y -> d <= e.
Proof.
  intros Hs Hall.
  exists (map (fun v => Tables.mathRound (inject_Z v / inject_Z sourceMax * inject_Z scaleTo))
              xs).
  split; [unfold normalizeValues; rewrite !map_map; reflexivity|].
  split; [apply length_map|]. split.
  - apply Forall_map. eapply Forall_impl; [|exact Hall].
    intros v Hv. cbv beta in *. apply normalize_range; assumption.
  - intros i j x y d e Hx Hy Hd He Hxy.
    rewrite nth_error_map, Hx in Hd. rewrite nth_error_map, Hy in He.
    cbn [option_map] in Hd, He. injection Hd as <-. injection He as <-.
    apply normalize_monotone; [|exact Hs | exact Hxy].
    rewrite Forall_forall in Hall. apply nth_error_In in Hx. specialize (Hall _ Hx). lia.
Qed.

(** X26: [normalizeValues] turns raw numbers into digits of the target
    scale.  For raw numbers in [[0, sourceMax)] and a scale that is not
    negative it returns as many integers, each in [[0, scaleTo]], and it
    keeps the order: a larger raw number never gets a smaller digit. *)
Theorem normalizeValues_in_scale (xs : list Z) (scaleTo sourceMax : Z) :
  0 <= scaleTo ->
  Forall (fun x => 0 <= x < sourceMax) xs ->
  exists ds,
    normalizeValues (map Int xs) scaleTo sourceMax = map Int ds /\
    length ds = length xs /\
    Forall (fun d => 0 <= d <= scaleTo) ds /\
    forall i j x y d e,
      nth_error xs i = Some x -> nth_error xs j = Some y ->
      nth_error ds i = Some d -> nth_error ds j = Some e ->
      x <= y -> d <= e.
Proof. apply normalizeValues_integers. Qed.

Lemma normalizeValues_in_scale_witness :
  exists ds,
    normalizeValues (map Int [2; 77; 52; 27]) 10 100 = map Int ds /\
    length ds = length [2; 77; 52; 27] /\
    Forall (fun d => 0 <= d <= 10) ds /\
    forall i j x y d e,
      nth_error [2; 77; 52; 27] i = Some x -> nth_error [2; 77; 52; 27] j = Some y ->
      nth_error ds i = Some d -> nth_error ds j = Some e ->
      x <= y -> d <= e.
Proof.
  apply (normalizeValues_in_scale [2; 77; 52; 27] 10 100); [lia|].
  repeat constructor; lia.
Defined.

Lemma inventory_parse_keeps (ds : list Z) (scale : Z) :
  1 <= scale -> Forall (fun d => 0 <= d <= scale) ds ->
  length (Inventory.parseDigits ds scale) = length ds.
Proof.
  intros Hs Hall. unfold Inventory.parseDigits.
  induction Hall as [|d l Hd _ IH]; [reflexivity|].
  cbn [map filter]. destruct (Z.eqb_spec d 0).
  - replace ((1 <=? scale) && (scale <=? scale)) with true by lia.
    cbn [length]. now f_equal.
  - replace ((1 <=? d) && (d <=? scale)) with true by lia.
    cbn [length]. now f_equal.
Qed.

(** X27: within the ranges where JavaScript computes the generators
    exactly, the digits that either of them produces are usable.  For
    [lcg]: a positive modulus [m], a seed, a multiplier and an increment
    that are not negative, and [a * max(z0, m) + c] below [2 ^ 53]; for
    [middleSquare]: 1 to 7 digits and a seed of at most that many digits.
    The numbers of [lcg] scaled by [normalizeValues] from the modulus, and
    those of [middleSquare] scaled from [10 ^ digits], to a scale of at
    least 1 are then [count] integers in [[0, scale]], and the digit parser
    of the inventory page keeps every one of them. *)
Theorem generated_digits_usable (scale count : Z) :
  1 <= scale ->
  (forall z0 a c m,
     0 < m -> 0 <= z0 -> 0 <= a -> 0 <= c ->
     a * Z.max z0 m + c < 2 ^ 53 ->
     exists ds,
       normalizeValues (numbers (lcg z0 a c m count)) scale m = map Int ds /\
       length ds = Z.to_nat count /\
       Forall (fun d => 0 <= d <= scale) ds /\
       length (Inventory.parseDigits ds scale) = Z.to_nat count) /\
  (forall seed digits,
     1 <= digits <= 7 -> - 10 ^ digits < seed < 10 ^ digits ->
     exists ds,
       normalizeValues (numbers (middleSquare seed count digits)) scale (10 ^ digits)
       = map Int ds /\
       length ds = Z.to_nat count /\
       Forall (fun d => 0 <= d <= scale) ds /\
       length (Inventory.parseDigits ds scale) = Z.to_nat count).
Proof.
  intros Hscale. split.
  - intros z0 a c m Hm Hz Ha Hc Hb.
    rewrite lcg_exact by (rewrite ?Z.abs_eq by lia; assumption).
    cbn [numbers].
    destruct (recurrence_bounds (Z.to_nat count) a c m z0 Hm) as [_ Hpos].
    destruct (normalizeValues_integers _ scale m ltac:(lia) (Hpos Hz Ha Hc))
      as (ds & Hds & Hlen & Hall & _).
    exists ds. rewrite iterates_length in Hlen.
    split; [exact Hds|]. split; [exact Hlen|]. split; [exact Hall|].
    rewrite inventory_parse_keeps; assumption.
  - intros seed digits Hd Hseed. unfold middleSquare. cbn [numbers].
    destruct (middleSquareLoop_integers digits (Z.to_nat count) seed ltac:(lia))
      as (xs & -> & Hlen & Hrange & _).
    destruct (normalizeValues_integers xs scale (10 ^ digits) ltac:(lia) Hrange)
      as (ds & Hds & Hlen' & Hall & _).
    exists ds. split; [exact Hds|]. split; [lia|]. split; [exact Hall|].
    rewrite inventory_parse_keeps by assumption. lia.
Qed.

(** Twenty-five digits for a page at scale 100, from [lcg] with the modulus
    100 and from [middleSquare] on 4 digits. *)
Lemma generated_digits_usable_witness :
  (exists ds,
     normalizeValues (numbers (lcg 27 17 43 100 25)) 100 100 = map Int ds /\
     length ds = Z.to_nat 25 /\
     Forall (fun d => 0 <= d <= 100) ds /\
     length (Inventory.parseDigits ds 100) = Z.to_nat 25) /\
  (exists ds,
     normalizeValues (numbers (middleSquare 1234 25 4)) 100 (10 ^ 4) = map Int ds /\
     length ds = Z.to_nat 25 /\
     Forall (fun d => 0 <= d <= 100) ds /\
     length (Inventory.parseDigits ds 100) = Z.to_nat 25).
Proof.
  split.
  - apply (proj1 (generated_digits_usable 100 25 ltac:(lia)) 27 17 43 100); lia.
  - apply (proj2 (generated_digits_usable 100 25 ltac:(lia)) 1234 4); [lia|].
    split; vm_compute; reflexivity.
Defined.

End RngFacts.

(** ** More facts about the chi-square test *)

Module ChiSquareFacts.
Import Statistics ChiSquare ReportFacts.

Local Open Scope R_scope.

Lemma sumOver_map {A B : Type} (f : B -> Z) (g : A -> B) (l : list A) :
  sumOver f (map g l) = sumOver (fun a => f (g a)) l.
Proof.
  induction l as [|a l IH]; [reflexivity|].
  cbn [map]. rewrite !sumOver_cons, IH. reflexivity.
Qed.

Lemma sumOver_const_zero {A : Type} (l : list A) : sumOver (fun _ => 0%Z) l = 0%Z.
Proof. induction l as [|a l IH]; [reflexivity|]. rewrite sumOver_cons, IH. reflexivity. Qed.

(** The observed frequency of interval [i] is the number of numbers that
    pass its test. *)
Lemma oi_intervalAt (numbers : list R) (k : Z) (E : R) (i : Z) :
  oi (intervalAt numbers k E i) = Z.of_nat (length (filter (counted k i) numbers)).
Proof. reflexivity. Qed.

(** Below the last interval, the intervals [0 .. j - 1] hold [n] exactly
    when [n < j / k]. *)
Lemma counted_below (K : nat) (n : R) (j : nat) :
  (j < K)%nat -> 0 <= n ->
  sumOver (fun i => if counted (Z.of_nat K) i n then 1%Z else 0%Z) (map Z.of_nat (seq 0 j))
  = if Rlt_dec n (IZR (Z.of_nat j) / IZR (Z.of_nat K)) then 1%Z else 0%Z.
Proof.
  intros Hj Hn.
  assert (Hk : 0 < IZR (Z.of_nat K)) by (apply IZR_lt; lia).
  assert (Hinv : 0 < / IZR (Z.of_nat K)) by (apply Rinv_0_lt_compat; exact Hk).
  induction j as [|j IH].
  - cbn [seq map]. change (sumOver _ []) with 0%Z.
    destruct (Rlt_dec n (IZR (Z.of_nat 0) / IZR (Z.of_nat K))) as [Hlt|]; [|reflexivity].
    exfalso. change (Z.of_nat 0) with 0%Z in Hlt. unfold Rdiv in Hlt.
    rewrite Rmult_0_l in Hlt. lra.
  - rewrite seq_S, map_app, sumOver_app, IH by lia. cbn [Nat.add map].
    rewrite sumOver_cons. change (sumOver _ []) with 0%Z. unfold counted.
    replace (Z.of_nat j =? Z.of_nat K - 1)%Z with false by (symmetry; apply Z.eqb_neq; lia).
    assert (Hnext : IZR (Z.of_nat j + 1) / IZR (Z.of_nat K)
                    = IZR (Z.of_nat j) / IZR (Z.of_nat K) + / IZR (Z.of_nat K)).
    { rewrite plus_IZR. unfold Rdiv. ring. }
    replace (Z.of_nat (S j)) with (Z.of_nat j + 1)%Z by lia.
    rewrite Hnext.
    set (a := IZR (Z.of_nat j) / IZR (Z.of_nat K)) in *.
    unfold Rgeb, Rltb.
    destruct (Rlt_dec n a), (Rge_dec n a), (Rlt_dec n (a + / IZR (Z.of_nat K)));
      cbn; try reflexivity; exfalso; lra.
Qed.

(** Every number of the unit interval is counted in exactly one interval. *)
Lemma counted_once (K : nat) (n : R) :
  (1 <= K)%nat -> 0 <= n <= 1 ->
  sumOver (fun i => if counted (Z.of_nat K) i n then 1%Z else 0%Z) (map Z.of_nat (seq 0 K))
  = 1%Z.
Proof.
  intros HK Hn. destruct K as [|j]; [lia|].
  rewrite seq_S, map_app, sumOver_app, counted_below by (lia || lra). cbn [Nat.add map].
  rewrite sumOver_cons. change (sumOver _ []) with 0%Z. unfold counted.
  replace (Z.of_nat j =? Z.of_nat (S j) - 1)%Z with true by (symmetry; apply Z.eqb_eq; lia).
  replace (Z.of_nat j + 1)%Z with (Z.of_nat (S j)) by lia.
  assert (Hk : 0 < IZR (Z.of_nat (S j))) by (apply IZR_lt; lia).
  replace (IZR (Z.of_nat (S j)) / IZR (Z.of_nat (S j))) with 1 by (field; lra).
  unfold Rgeb, Rleb.
  destruct (Rlt_dec n (IZR (Z.of_nat j) / IZR (Z.of_nat (S j)))),
           (Rge_dec n (IZR (Z.of_nat j) / IZR (Z.of_nat (S j)))),
           (Rle_dec n 1);
    cbn; try reflexivity; exfalso; lra.
Qed.

Lemma counts_sum (K : nat) (numbers : list R) :
  (1 <= K)%nat -> Forall (fun n => 0 <= n <= 1) numbers ->
  sumOver (fun i => Z.of_nat (length (filter (counted (Z.of_nat K) i) numbers)))
          (map Z.of_nat (seq 0 K))
  = Z.of_nat (length numbers).
Proof.
  intros HK Hall. induction Hall as [|n numbers Hn _ IH].
  - cbn [filter length]. apply sumOver_const_zero.
  - transitivity
      (sumOver (fun i => ((if counted (Z.of_nat K) i n then 1 else 0)
                          + Z.of_nat (length (filter (counted (Z.of_nat K) i) numbers)))%Z)
               (map Z.of_nat (seq 0 K))).
    + apply sumOver_ext. apply Forall_forall. intros i _. cbn [filter].
      destruct (counted (Z.of_nat K) i n); cbn [length]; lia.
    + rewrite sumOver_plus, (counted_once K n HK Hn), IH. cbn [length]. lia.
Qed.

(** What [calculateChiSquare] counts. *)
Lemma chi_square_counts (numbers : list R) (k : Z) (alpha : R) :
  (1 <= k)%Z ->
  Forall (fun n => 0 <= n <= 1) numbers ->
  length (intervals (calculateChiSquare numbers k alpha)) = Z.to_nat k /\
  sumOver oi (intervals (calculateChiSquare numbers k alpha))
  = Z.of_nat (length numbers).
Proof.
  intros Hk Hall. unfold calculateChiSquare. cbn [intervals].
  split; [now rewrite !length_map, length_seq|].
  rewrite sumOver_map.
  rewrite (sumOver_ext _ _ _
             (proj2 (Forall_forall _ _)
                (fun i _ => oi_intervalAt numbers k (IZR (Z.of_nat (length numbers)) / IZR k) i))).
  pose proof (counts_sum (Z.to_nat k) numbers ltac:(lia) Hall) as H.
  rewrite Z2Nat.id in H by lia. exact H.
Qed.

(** X28: the chi-square test counts every number once.  For [k >= 1]
    intervals and numbers in [[0, 1]], there are [k] intervals, and their
    observed frequencies add up to the number of numbers: each number falls
    in exactly one interval, the value 1 in the last one. *)
Theorem chi_square_counts_every_number (numbers : list R) (k : Z) (alpha : R) :
  (1 <= k)%Z ->
  Forall (fun n => 0 <= n <= 1) numbers ->
  let res := calculateChiSquare numbers k alpha in
  length (intervals res) = Z.to_nat k /\
  sumOver oi (intervals res) = chi_N res /\
  chi_N res = Z.of_nat (length numbers).
Proof.
  intros Hk Hall res. destruct (chi_square_counts numbers k alpha Hk Hall) as [Hlen Hsum].
  split; [exact Hlen|]. split; [exact Hsum | reflexivity].
Qed.

Lemma chi_square_counts_every_number_witness :
  length (intervals (calculateChiSquare onePerDecile 10 0.05)) = Z.to_nat 10 /\
  sumOver oi (intervals (calculateChiSquare onePerDecile 10 0.05))
  = chi_N (calculateChiSquare onePerDecile 10 0.05) /\
  chi_N (calculateChiSquare onePerDecile 10 0.05) = Z.of_nat (length onePerDecile).
Proof.
  apply (chi_square_counts_every_number onePerDecile 10 0.05); [lia|].
  repeat constructor; lra.
Defined.

(** The statistic of a list of intervals with expected frequency [E]. *)
Lemma chiStat_expanded (E : R) (ivs : list Interval) : forall acc,
  E <> 0 ->
  Forall (fun iv => chiPart iv = (IZR (oi iv) - E) ^ 2 / E) ivs ->
  fold_left (fun chiStat iv => chiStat + chiPart iv) ivs acc
  = acc + (IZR (sumOver (fun iv => (oi iv * oi iv)%Z) ivs)
           - 2 * E * IZR (sumOver oi ivs)
           + INR (length ivs) * E ^ 2) / E.
Proof.
  intros acc HE Hall. revert acc.
  induction Hall as [|iv ivs Hiv _ IH]; intros acc; cbn [fold_left].
  - change (sumOver _ []) with 0%Z. cbn [length INR]. field. exact HE.
  - rewrite IH, Hiv, !sumOver_cons, !plus_IZR, mult_IZR.
    change (length (iv :: ivs)) with (S (length ivs)). rewrite S_INR. field. exact HE.
Qed.

Lemma chiStat_nonneg (E : R) (ivs : list Interval) : forall acc,
  0 < E -> 0 <= acc ->
  Forall (fun iv => chiPart iv = (IZR (oi iv) - E) ^ 2 / E) ivs ->
  0 <= fold_left (fun chiStat iv => chiStat + chiPart iv) ivs acc.
Proof.
  intros acc HE Hacc Hall. revert acc Hacc.
  induction Hall as [|iv ivs Hiv _ IH]; intros acc Hacc; cbn [fold_left]; [exact Hacc|].
  apply IH. rewrite Hiv.
  assert (0 <= (IZR (oi iv) - E) ^ 2 / E).
  { apply Rmult_le_pos; [apply pow2_ge_0 | apply Rlt_le, Rinv_0_lt_compat; exact HE]. }
  lra.
Qed.

(** X29: the chi-square statistic in closed form.  For [k >= 1] intervals
    and at least one number, all in [[0, 1]], the statistic is
    [(k / N) * (sum of the squared observed frequencies) - N], and it is
    never negative. *)
Theorem chi_square_closed_form (numbers : list R) (k : Z) (alpha : R) :
  (1 <= k)%Z ->
  numbers <> [] ->
  Forall (fun n => 0 <= n <= 1) numbers ->
  let res := calculateChiSquare numbers k alpha in
  chiStat res
  = IZR k / IZR (chi_N res)
    * IZR (sumOver (fun iv => (oi iv * oi iv)%Z) (intervals res))
    - IZR (chi_N res) /\
  0 <= chiStat res.
Proof.
  intros Hk Hne Hall res.
  destruct (chi_square_counts numbers k alpha Hk Hall) as (Hlen & Hsum).
  unfold res, calculateChiSquare in *. cbn [intervals chi_N chiStat] in *.
  set (N := Z.of_nat (length numbers)) in *.
  assert (HN : 0 < IZR N).
  { apply IZR_lt. unfold N. destruct numbers; [congruence | cbn; lia]. }
  assert (HK : 0 < IZR k) by (apply IZR_lt; lia).
  assert (HE : 0 < IZR N / IZR k) by (apply Rdiv_lt_0_compat; assumption).
  set (ivs := map (intervalAt numbers k (IZR N / IZR k)) (map Z.of_nat (seq 0 (Z.to_nat k))))
    in *.
  assert (Hparts : Forall (fun iv => chiPart iv = (IZR (oi iv) - IZR N / IZR k) ^ 2
                                                  / (IZR N / IZR k)) ivs).
  { unfold ivs. apply Forall_map. apply Forall_forall. intros i _. reflexivity. }
  split.
  - rewrite (chiStat_expanded (IZR N / IZR k) ivs 0 ltac:(lra) Hparts).
    rewrite Hsum, Hlen, INR_IZR_INZ, Z2Nat.id by lia. field. lra.
  - apply (chiStat_nonneg (IZR N / IZR k)); [exact HE | lra | exact Hparts].
Qed.

Lemma chi_square_closed_form_witness :
  chiStat (calculateChiSquare onePerDecile 10 0.05)
  = IZR 10 / IZR (chi_N (calculateChiSquare onePerDecile 10 0.05))
    * IZR (sumOver (fun iv => (oi iv * oi iv)%Z)
             (intervals (calculateChiSquare onePerDecile 10 0.05)))
    - IZR (chi_N (calculateChiSquare onePerDecile 10 0.05)) /\
  0 <= chiStat (calculateChiSquare onePerDecile 10 0.05).
Proof.
  apply (chi_square_closed_form onePerDecile 10 0.05); [lia | discriminate|].
  repeat constructor; lra.
Defined.

End ChiSquareFacts.

(** ** Facts about the M/M/1 formulas *)

Module MathematicalModelFacts.
Import MathematicalModel.

Local Open Scope Q_scope.

(** X30: the measures of the M/M/1 page are consistent with each other.
    For a service rate above 0 and an arrival rate below it the page shows
    the measures, and they obey Little's law in the system and in the queue
    ([Ls = lambda Ws], [Lq = lambda Wq]); the time in the system is the
    time in the queue plus one service ([Ws = Wq + 1 / mu],
    [Ls = Lq + lambda / mu]); utilization and the probability of an empty
    system add up to 100; and with an arrival rate that is not negative no
    measure is negative and the utilization stays below 100.  A service
    rate of 0 or less shows nothing, and an arrival rate at or above the
    service rate shows the error. *)
Theorem mm1_measures_consistent (lambda mu : Q) (n : Z) :
  (mu <= 0 -> results (Some lambda) (Some mu) n = NoResults) /\
  (0 < mu -> mu <= lambda ->
   results (Some lambda) (Some mu) n
   = Failure "Lambda (λ) must be less than Mu (μ) for stable system") /\
  (0 < mu -> lambda < mu ->
   exists m,
     results (Some lambda) (Some mu) n = Values m /\
     Ls m == lambda * Ws m /\
     Lq m == lambda * Wq m /\
     Ws m == Wq m + 1 / mu /\
     Ls m == Lq m + lambda / mu /\
     R m + Po m == 100 /\
     (0 <= lambda ->
      0 <= Ls m /\ 0 <= Lq m /\ 0 < Ws m /\ 0 <= Wq m /\
      0 <= R m /\ R m < 100 /\ 0 < Po m /\ Po m <= 100)).
Proof.
  unfold results. split; [|split].
  - intros Hmu. replace (Qle_bool mu 0) with true
      by (symmetry; apply Qle_bool_iff; exact Hmu). reflexivity.
  - intros Hmu Hle.
    destruct (Qle_bool mu 0) eqn:E0; [apply Qle_bool_iff in E0; lra|].
    replace (Qle_bool mu lambda) with true
      by (symmetry; apply Qle_bool_iff; exact Hle). reflexivity.
  - intros Hmu Hlt.
    destruct (Qle_bool mu 0) eqn:E0; [apply Qle_bool_iff in E0; lra|].
    destruct (Qle_bool mu lambda) eqn:E1; [apply Qle_bool_iff in E1; lra|].
    eexists. split; [reflexivity|]. cbn [Ls Lq Ws Wq R Po].
    assert (Hd : 0 < mu - lambda) by lra.
    assert (Hnz : ~ mu - lambda == 0) by lra.
    assert (Hmz : ~ mu == 0) by lra.
    split; [field; exact Hnz|]. split; [field; split; assumption|].
    split; [field; split; assumption|]. split; [field; split; assumption|].
    split; [ring|].
    intros Hl.
    assert (Hi : 0 < / (mu - lambda)) by (apply Qinv_lt_0_compat; exact Hd).
    assert (Him : 0 < / mu) by (apply Qinv_lt_0_compat; exact Hmu).
    assert (Hid : 0 < / (mu * (mu - lambda))).
    { apply Qinv_lt_0_compat. apply Qmult_lt_0_compat; assumption. }
    assert (Hrho0 : 0 <= lambda / mu)
      by (apply Qle_shift_div_l; [exact Hmu | lra]).
    assert (Hrho1 : lambda / mu < 1)
      by (apply Qlt_shift_div_r; [exact Hmu | lra]).
    unfold Qdiv in *.
    split; [apply Qmult_le_0_compat; lra|].
    split; [apply Qmult_le_0_compat; [nra | lra]|].
    split; [lra|].
    split; [apply Qmult_le_0_compat; lra|].
    lra.
Qed.

Lemma mm1_measures_consistent_witness :
  exists m,
    results (Some (1 # 2)) (Some 1) 2 = Values m /\
    Ls m == (1 # 2) * Ws m /\
    Lq m == (1 # 2) * Wq m /\
    Ws m == Wq m + 1 / 1 /\
    Ls m == Lq m + (1 # 2) / 1 /\
    R m + Po m == 100 /\
    (0 <= 1 # 2 ->
     0 <= Ls m /\ 0 <= Lq m /\ 0 < Ws m /\ 0 <= Wq m /\
     0 <= R m /\ R m < 100 /\ 0 < Po m /\ Po m <= 100).
Proof.
  apply (proj2 (proj2 (mm1_measures_consistent (1 # 2) 1 2))); reflexivity.
Defined.

End MathematicalModelFacts.
